(** * Check-in scheduling of plainwork/checked

    A shallow embedding of the scheduling code of the data layer (the
    module that opens [checked.db]): [diffDays], [addDays],
    [calculateNextDueDate], [calculateMissedCount], [getSchedule],
    [upsertSchedule], [createCheckin], [listDueCheckins] and
    [listUpcomingCheckins], with the part of the JavaScript [Date]
    object they run on.

    The code works on strings and on [Date] objects in the local time of
    the host, so the embedding keeps both: dates are strings, a [Date] is
    its time value, and the host contributes its time zone and its clock.

    Layout: numbers; the [Date] abstract operations of ECMA-262
    (section 21.4.1); strings; the host; the date helpers and the
    scheduler; arrays and the record store; the vocabulary of the
    specification; example hosts and stores; hosts with daylight saving,
    time stamps, recent check-ins and the routes of the request handler
    that write. The lemmas follow: the calendar, digits and text, hosts
    at a constant offset, the scheduler, sorting, the store, and the
    claims of the specification; then digits of fixed width, time
    stamps, local dates on every host, the store again, claims C6 and
    C8, which rest on these, and further properties of the code (X1 and
    following). *)

From Stdlib Require Import ZArith Lia Znumtheory Bool List Ascii String.
From Stdlib Require Import Permutation Sorted.
From Stdlib Require QArith Qround.
From stdpp Require Import gmap strings.

Local Open Scope string_scope.
Local Open Scope Z_scope.

(** ** JavaScript numbers

    A number is a finite value, [NaN], [+Infinity] or [-Infinity]. Day
    counts are integers. A cadence length and a rating are what [Number]
    reads from a form field or from a column; the INTEGER columns of
    SQLite keep a value such as 2.5 as it is, so both range over all
    numbers. [Num z] is the integer [z]. [Frac q] is the finite number
    with the value of the fraction [q]; it is there for the values that
    are not integers (every finite double is a fraction whose denominator
    is a power of two).

    On integers the operations [%], [/] followed by [Math.floor], [*] and
    [+] are exact on the magnitudes reached here (day counts below 2^28).
    On fractions they are the operations of the rationals: [%],
    [Math.floor] and the comparisons are exact in binary64 as well, while
    [/], [*] and [+] round there to 53 bits, which is left out; the
    results differ only where a quotient, a product or a sum lies within
    one rounding step of an integer. A fraction that is not a double
    stands for no value the program meets. *)

Inductive number : Type :=
  | Num (z : Z)
  | Frac (q : QArith_base.Q)
  | NaN
  | PosInfinity
  | NegInfinity.

Definition Number_isFinite (n : number) : bool :=
  match n with Num _ | Frac _ => true | _ => false end.

(** [n <= 0] on numbers: every comparison with [NaN] is false. A fraction
    has the sign of its numerator. *)
Definition number_le0 (n : number) : bool :=
  match n with
  | Num z => z <=? 0
  | Frac q => QArith_base.Qnum q <=? 0
  | NaN => false
  | PosInfinity => false
  | NegInfinity => true
  end.

(** The integer a finite number is, when it is one. *)
Definition number_toZ (n : number) : option Z :=
  match n with
  | Num z => Some z
  | Frac q =>
      if QArith_base.Qnum q mod Z.pos (QArith_base.Qden q) =? 0
      then Some (QArith_base.Qnum q / Z.pos (QArith_base.Qden q))
      else None
  | _ => None
  end.

(** ToIntegerOrInfinity of a finite number: the fraction is cut off,
    towards zero. *)
Definition truncate (q : QArith_base.Q) : Z :=
  Z.quot (QArith_base.Qnum q) (Z.pos (QArith_base.Qden q)).

(** [x % q === 0] for an integer [x]: the remainder [x - q * trunc (x / q)]
    is zero. *)
Definition remainderIsZero (x : Z) (q : QArith_base.Q) : bool :=
  let x := QArith_base.inject_Z x in
  QArith_base.Qeq_bool
    (QArith_base.Qminus x
       (QArith_base.Qmult q
          (QArith_base.inject_Z (truncate (QArith_base.Qdiv x q)))))
    (QArith_base.inject_Z 0).

(** [Math.floor(x / q)] for an integer [x]. *)
Definition floorDiv (x : Z) (q : QArith_base.Q) : Z :=
  Qround.Qfloor (QArith_base.Qdiv (QArith_base.inject_Z x) q).

(** ** Date abstract operations (ECMA-262, 21.4.1)

    A time value is a number of milliseconds since the epoch, or NaN:
    [option Z] with [None] for NaN. *)

Module ES.

Definition msPerDay : Z := 86400000.
Definition msPerHour : Z := 3600000.
Definition msPerMinute : Z := 60000.
Definition msPerSecond : Z := 1000.

(** Largest magnitude of a time value (8.64e15 ms). *)
Definition maxTime : Z := 8640000000000000.

Definition Day (t : Z) : Z := t / msPerDay.
Definition TimeWithinDay (t : Z) : Z := t mod msPerDay.

Definition isLeapYear (y : Z) : bool :=
  if negb (y mod 4 =? 0) then false
  else if negb (y mod 100 =? 0) then true
  else if negb (y mod 400 =? 0) then false
  else true.

Definition DaysInYear (y : Z) : Z := if isLeapYear y then 366 else 365.

Definition DayFromYear (y : Z) : Z :=
  365 * (y - 1970) + (y - 1969) / 4 - (y - 1901) / 100 + (y - 1601) / 400.

(** [YearFromTime(t)] is "the largest integer y such that
    TimeFromYear(y) <= t". It is computed from an estimate that is off
    by at most one year; [YearFromDay_bracket] and [YearFromDay_unique]
    below show that the result is that largest integer. *)
Definition YearFromDay (d : Z) : Z :=
  let y := 1970 + (400 * d) / 146097 in
  if DayFromYear (y + 1) <=? d then y + 1
  else if DayFromYear y <=? d then y
  else y - 1.

Definition YearFromTime (t : Z) : Z := YearFromDay (Day t).

Definition InLeapYear (t : Z) : Z :=
  if isLeapYear (YearFromTime t) then 1 else 0.

Definition DayWithinYear (t : Z) : Z := Day t - DayFromYear (YearFromTime t).

(** Number of days of the year before month [m] (0 = January). *)
Definition daysBeforeMonth (m leap : Z) : Z :=
  if m <=? 0 then 0
  else if m =? 1 then 31
  else if m =? 2 then 59 + leap
  else if m =? 3 then 90 + leap
  else if m =? 4 then 120 + leap
  else if m =? 5 then 151 + leap
  else if m =? 6 then 181 + leap
  else if m =? 7 then 212 + leap
  else if m =? 8 then 243 + leap
  else if m =? 9 then 273 + leap
  else if m =? 10 then 304 + leap
  else 334 + leap.

Definition monthOfYearDay (dw leap : Z) : Z :=
  if dw <? 31 then 0
  else if dw <? 59 + leap then 1
  else if dw <? 90 + leap then 2
  else if dw <? 120 + leap then 3
  else if dw <? 151 + leap then 4
  else if dw <? 181 + leap then 5
  else if dw <? 212 + leap then 6
  else if dw <? 243 + leap then 7
  else if dw <? 273 + leap then 8
  else if dw <? 304 + leap then 9
  else if dw <? 334 + leap then 10
  else 11.

Definition MonthFromTime (t : Z) : Z :=
  monthOfYearDay (DayWithinYear t) (InLeapYear t).

Definition DateFromTime (t : Z) : Z :=
  DayWithinYear t - daysBeforeMonth (MonthFromTime t) (InLeapYear t) + 1.

Definition MakeTime (hour min sec ms : Z) : Z :=
  hour * msPerHour + min * msPerMinute + sec * msPerSecond + ms.

(** [MakeDay(year, month, date)]: months outside 0..11 carry into the
    year, and [date] is an offset from the first of the month. *)
Definition MakeDay (year month date : Z) : Z :=
  let ym := year + month / 12 in
  let mn := month mod 12 in
  DayFromYear ym + daysBeforeMonth mn (if isLeapYear ym then 1 else 0)
  + date - 1.

Definition MakeDate (day time : Z) : Z := day * msPerDay + time.

Definition TimeClip (t : Z) : option Z :=
  if Z.abs t <=? maxTime then Some t else None.

(** Days in month [m] (1 = January) of year [y]. *)
Definition daysInMonth (y m : Z) : Z :=
  if m =? 2 then (if isLeapYear y then 29 else 28)
  else if (m =? 4) || (m =? 6) || (m =? 9) || (m =? 11) then 30
  else 31.

End ES.

(** ** Strings *)

Definition isDigit (c : ascii) : bool :=
  let n := N_of_ascii c in ((48 <=? n) && (n <=? 57))%N.

Definition digitVal (c : ascii) : Z := Z.of_N (N_of_ascii c) - 48.

Definition digitChar (d : Z) : ascii := ascii_of_N (Z.to_N (48 + d)).

(** Decimal digits of a non-negative integer, most significant first. *)
Fixpoint decimalFuel (fuel : nat) (n : Z) (acc : string) : string :=
  match fuel with
  | O => acc
  | S fuel' =>
      let acc' := String (digitChar (n mod 10)) acc in
      if n <? 10 then acc' else decimalFuel fuel' (n / 10) acc'
  end.

Definition decimal (n : Z) : string :=
  decimalFuel (S (Z.to_nat (Z.log2 n))) n "".

(** [String(n)] and the template-literal conversion of a number that is
    an integer or NaN. *)
Definition Number_toString (n : option Z) : string :=
  match n with
  | None => "NaN"
  | Some z => if z <? 0 then String "-" (decimal (- z)) else decimal z
  end.

Fixpoint repeatChar (n : nat) (c : ascii) : string :=
  match n with
  | O => ""
  | S n' => String c (repeatChar n' c)
  end.

(** [s.padStart(targetLength, c)] for a one-character filler. *)
Definition padStart (s : string) (targetLength : nat) (c : ascii) : string :=
  repeatChar (targetLength - String.length s) c +:+ s.

(** Reads exactly [n] decimal digits. *)
Fixpoint scanDigits (n : nat) (acc : Z) (s : string) : option (Z * string) :=
  match n with
  | O => Some (acc, s)
  | S n' =>
      match s with
      | String c s' =>
          if isDigit c then scanDigits n' (10 * acc + digitVal c) s' else None
      | EmptyString => None
      end
  end.

Definition scanChar (c : ascii) (s : string) : option string :=
  match s with
  | String c' s' => if Ascii.eqb c c' then Some s' else None
  | EmptyString => None
  end.

(** The test [/^\d{4}-\d{2}-\d{2}$/.test(value)] of [normalizeDate]. *)
Definition matchesDatePattern (value : string) : bool :=
  match
    '(_, s) ← scanDigits 4 0 value;
    s ← scanChar "-" s;
    '(_, s) ← scanDigits 2 0 s;
    s ← scanChar "-" s;
    '(_, s) ← scanDigits 2 0 s;
    Some s
  with
  | Some "" => true
  | _ => false
  end.

(** Comparison of strings by code units, as [<], [<=] and [>] do. *)
Definition str_le (a b : string) : bool := String.leb a b.
Definition str_gt (a b : string) : bool := String.ltb b a.

(** [a.localeCompare(b)]. On the strings the scheduler produces (digits
    and hyphens) collation orders as the code units do. *)
Definition localeCompare (a b : string) : Z :=
  match String.compare a b with
  | Lt => -1
  | Eq => 0
  | Gt => 1
  end.

(** Comparison of TEXT values in SQLite (binary collation), as a
    comparator. *)
Definition compareText (a b : string) : Z :=
  match String.compare a b with
  | Lt => -1
  | Eq => 0
  | Gt => 1
  end.

(** JavaScript truthiness of a string that may be null. *)
Definition truthy (value : option string) : bool :=
  match value with
  | None => false
  | Some s => negb (String.eqb s "")
  end.

(** ** The Date Time String Format (ECMA-262, 21.4.1.32)

    [YYYY-MM-DDTHH:mm:ss.sssZ] and its reduced forms: the date is [YYYY],
    [YYYY-MM] or [YYYY-MM-DD], the year four digits or a sign and six
    digits; the time, after [T], is [HH:mm], [HH:mm:ss] or
    [HH:mm:ss.sss]; the offset is absent, [Z], or a sign and [HH:mm]. *)

Definition scanYear (s : string) : option (Z * string) :=
  match s with
  | String c s' =>
      if Ascii.eqb c "+" then scanDigits 6 0 s'
      else if Ascii.eqb c "-" then
        '(y, r) ← scanDigits 6 0 s';
        if y =? 0 then None else Some (- y, r)
      else scanDigits 4 0 s
  | EmptyString => None
  end.

(** A group of two digits behind the separator [sep], when the
    separator is there. *)
Definition scanGroup (sep : ascii) (s : string) : option (option Z * string) :=
  match s with
  | String c s' =>
      if Ascii.eqb c sep then '(v, r) ← scanDigits 2 0 s'; Some (Some v, r)
      else Some (None, s)
  | EmptyString => Some (None, s)
  end.

(** Year, month (1..12), day, and the rest of the input. *)
Definition scanDate (s : string) : option (Z * Z * Z * string) :=
  '(y, s) ← scanYear s;
  '(mo, s) ← scanGroup "-" s;
  match mo with
  | None => Some (y, 1, 1, s)
  | Some mo => '(d, s) ← scanGroup "-" s; Some (y, mo, default 1 d, s)
  end.

(** Hour, minute, second, millisecond, and the rest of the input. *)
Definition scanTime (s : string) : option (Z * Z * Z * Z * string) :=
  '(hh, s) ← scanDigits 2 0 s;
  s ← scanChar ":" s;
  '(mi, s) ← scanDigits 2 0 s;
  '(ss, s) ← scanGroup ":" s;
  match ss with
  | None => Some (hh, mi, 0, 0, s)
  | Some ss =>
      match s with
      | String c s' =>
          if Ascii.eqb c "." then '(ms, r) ← scanDigits 3 0 s'; Some (hh, mi, ss, ms, r)
          else Some (hh, mi, ss, 0, s)
      | EmptyString => Some (hh, mi, ss, 0, s)
      end
  end.

(** The offset in milliseconds, [None] when there is none; the input
    ends with it. *)
Definition scanOffset (s : string) : option (option Z) :=
  match s with
  | EmptyString => Some None
  | String c s' =>
      if Ascii.eqb c "Z" then (if String.eqb s' "" then Some (Some 0) else None)
      else if Ascii.eqb c "+" || Ascii.eqb c "-" then
        '(hh, s) ← scanDigits 2 0 s';
        s ← scanChar ":" s;
        '(mi, s) ← scanDigits 2 0 s;
        if String.eqb s "" && (hh <=? 23) && (mi <=? 59)
        then Some (Some ((if Ascii.eqb c "-" then -1 else 1)
                         * (hh * ES.msPerHour + mi * ES.msPerMinute)))
        else None
      else None
  end.

(** The month and the day are a date of the calendar. *)
Definition validDate (y mo d : Z) : bool :=
  (1 <=? mo) && (mo <=? 12) && (1 <=? d) && (d <=? ES.daysInMonth y mo).

Definition validTime (hh mi ss ms : Z) : bool :=
  ((hh <=? 23) || ((hh =? 24) && (mi =? 0) && (ss =? 0) && (ms =? 0)))
  && (mi <=? 59) && (ss <=? 59).

(** ** The host: local time zone, clock and engine

    [LocalTZA h t isUTC] is the offset of local time from UTC in
    milliseconds, at UTC time [t] when [isUTC] is true and at local time
    [t] otherwise (ECMA-262 LocalTZA). [clock h] is the time value
    [new Date()] reads; the calls of [today()] and [now()] within one
    operation read the same instant. [parseFallback h s] is what the
    engine makes of a string [s] that the Date Time String Format does
    not give a date for: ECMA-262 (21.4.3.2) leaves this to the
    implementation, [None] is an invalid date. *)

Record Host : Type := {
  LocalTZA : Z -> bool -> Z;
  clock : Z;
  parseFallback : string -> option Z
}.

Section WithHost.

Variable h : Host.

Definition LocalTime (t : Z) : Z := t + LocalTZA h t true.
Definition UTC (t : Z) : Z := t - LocalTZA h t false.

(** A [Date] object is its time value. *)
Definition DateObj : Type := option Z.

(** The time value of the day [day] with the time and offset that
    follow the date in the string. *)
Definition timeOnDay (day : Z) (rest : string) : DateObj :=
  match rest with
  | EmptyString => ES.TimeClip (ES.MakeDate day 0)
  | String c rest' =>
      if Ascii.eqb c "T" then
        '(hh, mi, ss, ms, rest) ← scanTime rest';
        if validTime hh mi ss ms then
          offset ← scanOffset rest;
          let t := ES.MakeDate day (ES.MakeTime hh mi ss ms) in
          match offset with
          | None => ES.TimeClip (UTC t)
          | Some o => ES.TimeClip (t - o)
          end
        else None
      else None
  end.

(** The date a string in the Date Time String Format denotes: a form
    without time is UTC, a form with a time and no offset is local time.
    There is none when the string is outside the format, when a field is
    out of range or the month does not have the day, and when the time
    value is out of range. *)
Definition Date_parseFormat (s : string) : DateObj :=
  '(y, mo, d, rest) ← scanDate s;
  if validDate y mo d then timeOnDay (ES.MakeDay y (mo - 1) d) rest else None.

(** [new Date(string)]: the date of the format, and otherwise what the
    engine reads. JavaScriptCore, on which the program runs, tries its
    own formats whenever the format gives no date: it reads
    "2024-02-30T00:00:00" as 1 March and accepts "2024-01-10 09:00:00". *)
Definition Date_parse (s : string) : DateObj :=
  match Date_parseFormat s with
  | Some t => Some t
  | None => t ← parseFallback h s; ES.TimeClip t
  end.

(** [new Date()]. *)
Definition Date_now : DateObj := Some (clock h).

Definition getFullYear (date : DateObj) : option Z :=
  t ← date; Some (ES.YearFromTime (LocalTime t)).

Definition getMonth (date : DateObj) : option Z :=
  t ← date; Some (ES.MonthFromTime (LocalTime t)).

Definition getDate (date : DateObj) : option Z :=
  t ← date; Some (ES.DateFromTime (LocalTime t)).

(** [date.setDate(dt)]: the new time value. *)
Definition setDate (date : DateObj) (dt : option Z) : DateObj :=
  tv ← date;
  dt ← dt;
  let t := LocalTime tv in
  let newDate :=
    ES.MakeDate (ES.MakeDay (ES.YearFromTime t) (ES.MonthFromTime t) dt)
                (ES.TimeWithinDay t) in
  ES.TimeClip (UTC newDate).

Definition pad2 (n : Z) : string :=
  padStart (decimal n) 2 "0".

Definition pad3 (n : Z) : string :=
  padStart (decimal n) 3 "0".

(** [date.toISOString()] of a valid date (UTC fields); years outside
    0..9999 print with a sign and six digits. *)
Definition toISOString (t : Z) : string :=
  let y := ES.YearFromTime t in
  let year :=
    if (0 <=? y) && (y <=? 9999) then padStart (decimal y) 4 "0"
    else String (if y <? 0 then "-"%char else "+"%char) (padStart (decimal (Z.abs y)) 6 "0") in
  let w := ES.TimeWithinDay t in
  year +:+ "-" +:+ pad2 (ES.MonthFromTime t + 1) +:+ "-" +:+ pad2 (ES.DateFromTime t)
  +:+ "T" +:+ pad2 (w / ES.msPerHour) +:+ ":" +:+ pad2 (w / ES.msPerMinute mod 60)
  +:+ ":" +:+ pad2 (w / ES.msPerSecond mod 60) +:+ "." +:+ pad3 (w mod 1000) +:+ "Z".

(** ** The date helpers of the data layer *)

(** [const now = () => new Date().toISOString()] *)
Definition now : string := toISOString (clock h).

(** [formatLocalDate]: the year is not padded; month and day are padded
    to two characters. *)
Definition formatLocalDate (date : DateObj) : string :=
  let year := getFullYear date in
  let month := padStart (Number_toString (m ← getMonth date; Some (m + 1))) 2 "0" in
  let day := padStart (Number_toString (getDate date)) 2 "0" in
  Number_toString year +:+ "-" +:+ month +:+ "-" +:+ day.

Definition today : string := formatLocalDate Date_now.

Definition parseDate (value : string) : DateObj :=
  Date_parse (value +:+ "T00:00:00").

Definition diffDays (startDate endDate : string) : Z :=
  let start := parseDate startDate in
  let end_ := parseDate endDate in
  match start, end_ with
  | Some s, Some e => (e - s) / 86400000
  | _, _ => 0
  end.

(** [referenceDate = today()] is a default parameter: [None] stands for
    a call without it. After the guard the cadence is finite and
    positive. *)
Definition calculateMissedCount
    (nextDue : string) (cadenceDays : number) (referenceDate : option string) : Z :=
  let referenceDate := default today referenceDate in
  if String.eqb nextDue "" || negb (Number_isFinite cadenceDays)
     || number_le0 cadenceDays
  then 0 else
  match cadenceDays with
  | Num cadence =>
      let daysLate := diffDays nextDue referenceDate in
      if daysLate <=? 0 then 0
      else (daysLate - 1) / cadence + 1
  | Frac cadence =>
      let daysLate := diffDays nextDue referenceDate in
      if daysLate <=? 0 then 0
      else floorDiv (daysLate - 1) cadence + 1
  | _ => 0
  end.

Definition normalizeDate (value : option string) : string :=
  match value with
  | None => today
  | Some v =>
      if String.eqb v "" then today
      else if negb (matchesDatePattern v) then today
      else v
  end.

Definition toLocalDate (value : option string) : option string :=
  if negb (truthy value) then None else
  match value with
  | None => None
  | Some v =>
      let date := Date_parse v in
      match date with
      | None => None
      | Some _ => Some (formatLocalDate date)
      end
  end.

(** [addDays] with a whole number of days. *)
Definition addDays (dateString : string) (days : Z) : string :=
  let date := Date_parse (dateString +:+ "T00:00:00") in
  let date := setDate date (d ← getDate date; Some (d + days)) in
  formatLocalDate date.

(** [addDays] with a number of days that is a fraction: [setDate] cuts
    the sum [date.getDate() + days] to an integer. *)
Definition addDaysFrac (dateString : string) (days : QArith_base.Q) : string :=
  let date := Date_parse (dateString +:+ "T00:00:00") in
  let date :=
    setDate date
      (d ← getDate date;
       Some (truncate (QArith_base.Qplus (QArith_base.inject_Z d) days))) in
  formatLocalDate date.

(** [calculateNextDueDate]. After the guard the cadence is finite and
    positive; [%] is the remainder that takes the sign of the dividend. *)
Definition calculateNextDueDate
    (startDateInput : string) (cadenceDays : number)
    (lastCheckinDate : option string) : string :=
  let startDate := normalizeDate (Some startDateInput) in
  if negb (Number_isFinite cadenceDays) || number_le0 cadenceDays then startDate else
  match cadenceDays with
  | Num cadence =>
      if negb (truthy lastCheckinDate) then startDate else
      let lastDate := normalizeDate lastCheckinDate in
      let daysSinceStart := diffDays startDate lastDate in
      if daysSinceStart <? 0 then startDate else
      if Z.rem daysSinceStart cadence =? 0 then addDays lastDate cadence
      else
        let intervals := daysSinceStart / cadence + 1 in
        addDays startDate (intervals * cadence)
  | Frac cadence =>
      if negb (truthy lastCheckinDate) then startDate else
      let lastDate := normalizeDate lastCheckinDate in
      let daysSinceStart := diffDays startDate lastDate in
      if daysSinceStart <? 0 then startDate else
      if remainderIsZero daysSinceStart cadence then addDaysFrac lastDate cadence
      else
        let intervals := floorDiv daysSinceStart cadence + 1 in
        addDaysFrac startDate
          (QArith_base.Qmult (QArith_base.inject_Z intervals) cadence)
  | _ => startDate
  end.

End WithHost.

(** ** Arrays *)

Section Arrays.

Context {A : Type}.

(** Stable insertion: [x] goes before the first element it does not
    come after. *)
Fixpoint insertBy (cmp : A -> A -> Z) (x : A) (l : list A) : list A :=
  match l with
  | [] => [x]
  | y :: l' => if cmp x y <=? 0 then x :: y :: l' else y :: insertBy cmp x l'
  end.

(** [array.sort(cmp)]. The sort is stable, so for a comparator that is a
    total preorder the result does not depend on the algorithm; it is
    computed here by insertion. *)
Fixpoint Array_sort (cmp : A -> A -> Z) (l : list A) : list A :=
  match l with
  | [] => []
  | x :: l' => insertBy cmp x (Array_sort cmp l')
  end.

(** [array.slice(0, end)]: a negative [end] counts from the end. *)
Definition Array_slice0 (l : list A) (end_ : Z) : list A :=
  let len := Z.of_nat (length l) in
  let final := if end_ <? 0 then Z.max (len + end_) 0 else Z.min end_ len in
  firstn (Z.to_nat final) l.

End Arrays.

(** ** The record store

    The tables of [checked.db] that the scheduling code reads and writes.
    [checkin_schedules] has [team_id ... UNIQUE] and is looked up by team
    only, so it is a finite map from team id to the rest of the row. A
    NULL [start_date] (possible after the schema migration) behaves as the
    empty string everywhere it is read, and is represented by it.

    The writes are the writes of calls that complete. The schema has
    [team_id ... REFERENCES teams(id)] and [person_id ... REFERENCES
    people(id)] with foreign keys enforced, and NOT NULL columns, which
    take no [NaN]: an INSERT or UPDATE that breaks one of these raises,
    and the call writes nothing. [upsertSchedule] completes for a team of
    the store and a cadence that is not [NaN] ([upsertScheduleRaises]
    tells the other calls); [createCheckin] completes for a team and a
    person of the store and a rating that is not [NaN]. *)

Record team : Type := {
  team_name : string;
  team_created_at : string
}.

Record person : Type := {
  person_team_id : Z;
  person_name : string
}.

Record schedule : Type := {
  schedule_id : Z;
  cadence_days : number;
  start_date : string;
  next_due : string;
  schedule_created_at : string
}.

Record checkin : Type := {
  checkin_team_id : Z;
  checkin_person_id : Z;
  rating : number;
  notes : option string;
  checkin_created_at : string
}.

Record DB : Type := {
  teams : gmap Z team;
  people : gmap Z person;
  checkin_schedules : gmap Z schedule;
  schedule_seq : Z;
  checkins : list checkin
}.

(** The object [getSchedule] returns: the row with [start_date] and
    [next_due] replaced and [missed_count] added. *)
Record scheduleView : Type := {
  view_id : Z;
  view_team_id : Z;
  view_cadence_days : number;
  view_start_date : string;
  view_next_due : string;
  view_created_at : string;
  view_missed_count : Z
}.

(** A row of [listScheduledTeams]. *)
Record scheduledTeam : Type := {
  row_team_id : Z;
  row_team_name : string;
  row_start_date : string;
  row_cadence_days : number;
  row_people_count : Z;
  row_last_checkin_at : option string
}.

Record dueCheckin : Type := {
  due_row : scheduledTeam;
  due_next_due : string;
  due_missed_count : Z
}.

Record upcomingCheckin : Type := {
  upcoming_row : scheduledTeam;
  upcoming_next_due : string
}.

(** [MAX] of two TEXT values, NULL when there is none. *)
Definition sqlMax (acc : option string) (v : string) : option string :=
  match acc with
  | None => Some v
  | Some a => if String.ltb a v then Some v else Some a
  end.

(** [SELECT MAX(created_at) FROM checkins WHERE team_id = ?] *)
Definition maxCheckinCreatedAt (db : DB) (teamId : Z) : option string :=
  fold_left sqlMax
    (map checkin_created_at
       (List.filter (fun c => checkin_team_id c =? teamId) (checkins db)))
    None.

Definition setNextDue (nextDue : string) (s : schedule) : schedule :=
  {| schedule_id := schedule_id s;
     cadence_days := cadence_days s;
     start_date := start_date s;
     next_due := nextDue;
     schedule_created_at := schedule_created_at s |}.

(** The rows of [listScheduledTeams] before [ORDER BY]: one per schedule
    whose team exists. *)
Definition scheduledTeamRow (db : DB) (entry : Z * schedule) : option scheduledTeam :=
  let '(teamId, s) := entry in
  t ← teams db !! teamId;
  Some {| row_team_id := teamId;
          row_team_name := team_name t;
          row_start_date := start_date s;
          row_cadence_days := cadence_days s;
          row_people_count :=
            Z.of_nat (length (List.filter (fun p => person_team_id p.2 =? teamId)
                                     (map_to_list (people db))));
          row_last_checkin_at := maxCheckinCreatedAt db teamId |}.

(** [ORDER BY t.name], as a stable sort of the rows. *)
Definition listScheduledTeams (db : DB) : list scheduledTeam :=
  Array_sort (fun a b => compareText (row_team_name a) (row_team_name b))
    (omap (scheduledTeamRow db) (map_to_list (checkin_schedules db))).

(** The calls of [upsertSchedule] that raise: a [NaN] cadence is NULL in
    a NOT NULL column, and the INSERT of a row for a team that is not in
    [teams] breaks the foreign key. Nothing is written then. *)
Definition upsertScheduleRaises (db : DB) (teamId : Z) (cadenceDays : number) : bool :=
  match cadenceDays with
  | NaN => true
  | _ =>
      match checkin_schedules db !! teamId, teams db !! teamId with
      | None, None => true
      | _, _ => false
      end
  end.

Section Store.

Variable h : Host.

Definition getLastTeamCheckinDate (db : DB) (teamId : Z) : option string :=
  toLocalDate h (maxCheckinCreatedAt db teamId).

Definition getSchedule (db : DB) (teamId : Z) : option scheduleView :=
  schedule ← checkin_schedules db !! teamId;
  let startDate :=
    if truthy (Some (start_date schedule)) then start_date schedule
    else if truthy (Some (next_due schedule)) then next_due schedule
    else today h in
  let lastCheckinDate := getLastTeamCheckinDate db teamId in
  let nextDue :=
    calculateNextDueDate h startDate (cadence_days schedule) lastCheckinDate in
  Some {| view_id := schedule_id schedule;
          view_team_id := teamId;
          view_cadence_days := cadence_days schedule;
          view_start_date := startDate;
          view_next_due := nextDue;
          view_created_at := schedule_created_at schedule;
          view_missed_count :=
            calculateMissedCount h nextDue (cadence_days schedule) None |}.

(** [upsertSchedule]: the new store and the returned date, for a call
    that completes. *)
Definition upsertSchedule
    (db : DB) (teamId : Z) (cadenceDays : number)
    (startDateInput : option string) : DB * string :=
  let startDate := normalizeDate h startDateInput in
  let lastCheckinDate := getLastTeamCheckinDate db teamId in
  let nextDue := calculateNextDueDate h startDate cadenceDays lastCheckinDate in
  match checkin_schedules db !! teamId with
  | Some existing =>
      let row := {| schedule_id := schedule_id existing;
                    cadence_days := cadenceDays;
                    start_date := startDate;
                    next_due := nextDue;
                    schedule_created_at := schedule_created_at existing |} in
      ({| teams := teams db;
          people := people db;
          checkin_schedules := <[teamId := row]> (checkin_schedules db);
          schedule_seq := schedule_seq db;
          checkins := checkins db |},
       nextDue)
  | None =>
      let row := {| schedule_id := schedule_seq db + 1;
                    cadence_days := cadenceDays;
                    start_date := startDate;
                    next_due := startDate;
                    schedule_created_at := now h |} in
      ({| teams := teams db;
          people := people db;
          checkin_schedules := <[teamId := row]> (checkin_schedules db);
          schedule_seq := schedule_seq db + 1;
          checkins := checkins db |},
       startDate)
  end.

(** [createCheckin]: the new store and the returned date, [None] for
    null, for a call that completes. *)
Definition createCheckin
    (db : DB) (teamId personId : Z) (rating_ : number) (notes_ : option string)
    : DB * option string :=
  let db1 :=
    {| teams := teams db;
       people := people db;
       checkin_schedules := checkin_schedules db;
       schedule_seq := schedule_seq db;
       checkins :=
         checkins db ++
         [ {| checkin_team_id := teamId;
              checkin_person_id := personId;
              rating := rating_;
              notes := notes_;
              checkin_created_at := now h |} ] |} in
  match getSchedule db1 teamId with
  | Some schedule =>
      let nextDue :=
        calculateNextDueDate h (view_start_date schedule)
          (view_cadence_days schedule) (Some (today h)) in
      ({| teams := teams db1;
          people := people db1;
          checkin_schedules := alter (setNextDue nextDue) teamId (checkin_schedules db1);
          schedule_seq := schedule_seq db1;
          checkins := checkins db1 |},
       Some nextDue)
  | None => (db1, None)
  end.

Definition dueCheckinOf (referenceDate : string) (row : scheduledTeam) : dueCheckin :=
  let lastCheckinDate := toLocalDate h (row_last_checkin_at row) in
  let nextDue :=
    calculateNextDueDate h (row_start_date row) (row_cadence_days row) lastCheckinDate in
  {| due_row := row;
     due_next_due := nextDue;
     due_missed_count :=
       calculateMissedCount h nextDue (row_cadence_days row) (Some referenceDate) |}.

Definition listDueCheckins (db : DB) : list dueCheckin :=
  let referenceDate := today h in
  let rows := listScheduledTeams db in
  Array_sort (fun a b => localeCompare (due_next_due a) (due_next_due b))
    (List.filter (fun row => str_le (due_next_due row) referenceDate)
       (map (dueCheckinOf referenceDate) rows)).

Definition upcomingCheckinOf (row : scheduledTeam) : upcomingCheckin :=
  let lastCheckinDate := toLocalDate h (row_last_checkin_at row) in
  let nextDue :=
    calculateNextDueDate h (row_start_date row) (row_cadence_days row) lastCheckinDate in
  {| upcoming_row := row; upcoming_next_due := nextDue |}.

(** [limit = 3] is a default parameter: [None] stands for a call
    without it. *)
Definition listUpcomingCheckins (db : DB) (limit : option Z) : list upcomingCheckin :=
  let limit := default 3 limit in
  let referenceDate := today h in
  let rows := listScheduledTeams db in
  Array_slice0
    (Array_sort (fun a b => localeCompare (upcoming_next_due a) (upcoming_next_due b))
       (List.filter (fun row => str_gt (upcoming_next_due row) referenceDate)
          (map upcomingCheckinOf rows)))
    limit.

End Store.

(** ** Vocabulary of the specification *)

(** A string is in canonical form when it has the shape [YYYY-MM-DD]:
    this is the test of [normalizeDate]. *)
Definition canonicalForm (s : string) : Prop := matchesDatePattern s = true.

(** The civil date (year, month 1..12, day) that a string in canonical
    form denotes, when there is such a date. *)
Definition civilOf (s : string) : option (Z * Z * Z) :=
  '(y, s) ← scanDigits 4 0 s;
  s ← scanChar "-" s;
  '(mo, s) ← scanDigits 2 0 s;
  s ← scanChar "-" s;
  '(d, s) ← scanDigits 2 0 s;
  if String.eqb s "" && (1 <=? mo) && (mo <=? 12) && (1 <=? d)
     && (d <=? ES.daysInMonth y mo)
  then Some (y, mo, d) else None.

(** The day number (days since 1970-01-01) of a canonical date. *)
Definition dayOf (s : string) : option Z :=
  '(y, mo, d) ← civilOf s; Some (ES.MakeDay y (mo - 1) d).

(** A canonical date: canonical form, and a date of the calendar. *)
Definition canonicalDate (s : string) : Prop := is_Some (dayOf s).

(** The text [formatLocalDate] gives for the civil day with number [d]. *)
Definition dateOfDay (d : Z) : string :=
  let t := d * ES.msPerDay in
  Number_toString (Some (ES.YearFromTime t)) +:+ "-"
  +:+ padStart (Number_toString (Some (ES.MonthFromTime t + 1))) 2 "0" +:+ "-"
  +:+ padStart (Number_toString (Some (ES.DateFromTime t))) 2 "0".

(** Day numbers of 1000-01-01, the first date whose year prints with
    four digits, and of 9999-12-31, the last canonical date. *)
Definition firstFourDigitDay : Z := ES.DayFromYear 1000.
Definition lastCanonicalDay : Z := ES.DayFromYear 10000 - 1.

(** Lexicographic combination of comparisons. *)
Definition lex (c k : comparison) : comparison :=
  match c with Eq => k | _ => c end.

(** A host whose local time is at a constant offset from UTC. *)
Definition fixedOffset (h : Host) : Prop :=
  exists o, - ES.msPerDay < o < ES.msPerDay /\ forall t isUTC, LocalTZA h t isUTC = o.

(** A cadence length that is not a positive integer. *)
Definition notPositiveInteger (n : number) : Prop :=
  match number_toZ n with
  | Some z => z <= 0
  | None => True
  end.

(** A cadence length that is not a positive finite number: zero,
    negative, or not finite. *)
Definition notPositive (n : number) : Prop :=
  match n with
  | Num z => z <= 0
  | Frac q => QArith_base.Qnum q <= 0
  | _ => True
  end.

(** ** Hosts and stores used in examples *)

Definition hour : Z := ES.msPerHour.

(** Two forms outside the Date Time String Format that JavaScriptCore
    reads, in local time: [YYYY-MM-DDTHH:mm:ss] with a day up to 31 that
    the month does not have, which runs over into the next month, and the
    same with a space in place of [T]. The example hosts read these two
    and no other string outside the format. *)
Definition lenientParse (tza : Z -> bool -> Z) (s : string) : option Z :=
  '(y, s) ← scanDigits 4 0 s;
  s ← scanChar "-" s;
  '(mo, s) ← scanDigits 2 0 s;
  s ← scanChar "-" s;
  '(d, s) ← scanDigits 2 0 s;
  match s with
  | String c s =>
      if Ascii.eqb c "T" || Ascii.eqb c " " then
        '(hh, s) ← scanDigits 2 0 s;
        s ← scanChar ":" s;
        '(mi, s) ← scanDigits 2 0 s;
        s ← scanChar ":" s;
        '(ss, s) ← scanDigits 2 0 s;
        if String.eqb s "" && (1 <=? mo) && (mo <=? 12) && (1 <=? d) && (d <=? 31)
           && (hh <=? 23) && (mi <=? 59) && (ss <=? 59)
        then
          let t := ES.MakeDate (ES.MakeDay y (mo - 1) d) (ES.MakeTime hh mi ss 0) in
          Some (t - tza t false)
        else None
      else None
  | EmptyString => None
  end.

(** UTC, at 2024-06-01T12:00:00Z. *)
Definition utcHost : Host :=
  {| LocalTZA := fun _ _ => 0;
     clock := 1717243200000;
     parseFallback := lenientParse (fun _ _ => 0) |}.

(** The 2024 transitions of US Eastern time: UTC-5 until
    2024-03-10T07:00:00Z, UTC-4 until 2024-11-03T06:00:00Z, UTC-5 after.
    A local time that is skipped or repeated is read with the offset in
    force before the transition. *)
Definition easternTZA (t : Z) (isUTC : bool) : Z :=
  let spring := 1710054000000 in
  let autumn := 1730613600000 in
  if isUTC then
    if t <? spring then -5 * hour
    else if t <? autumn then -4 * hour
    else -5 * hour
  else
    if t <? spring - 4 * hour then -5 * hour
    else if t <? autumn - 4 * hour then -4 * hour
    else -5 * hour.

(** US Eastern time at 2024-03-11T16:00:00Z (noon on 11 March). *)
Definition easternHost : Host :=
  {| LocalTZA := easternTZA;
     clock := 1710172800000;
     parseFallback := lenientParse easternTZA |}.

(** [dateText s y mo d]: [s] is the ten characters [YYYY-MM-DD] whose
    digit groups read [y], [mo] and [d]. *)
Inductive dateText : string -> Z -> Z -> Z -> Prop :=
  | dateText_intro (c1 c2 c3 c4 c5 c6 c7 c8 : ascii) :
      isDigit c1 = true -> isDigit c2 = true ->
      isDigit c3 = true -> isDigit c4 = true ->
      isDigit c5 = true -> isDigit c6 = true ->
      isDigit c7 = true -> isDigit c8 = true ->
      dateText
        (String c1 (String c2 (String c3 (String c4 (String "-"
          (String c5 (String c6 (String "-" (String c7 (String c8 ""))))))))))
        (10 * (10 * (10 * (10 * 0 + digitVal c1) + digitVal c2) + digitVal c3)
           + digitVal c4)
        (10 * (10 * 0 + digitVal c5) + digitVal c6)
        (10 * (10 * 0 + digitVal c7) + digitVal c8).

(** Stores used in examples: one team with one member. *)
Definition emptyStore : DB :=
  {| teams := {[ 1 := {| team_name := "Platform"; team_created_at := "2023-12-01T09:00:00.000Z" |} ]};
     people := {[ 10 := {| person_team_id := 1; person_name := "Ada" |} ]};
     checkin_schedules := ∅;
     schedule_seq := 0;
     checkins := [] |}.

Definition withSchedule (db : DB) (teamId : Z) (s : schedule) : DB :=
  {| teams := teams db;
     people := people db;
     checkin_schedules := <[teamId := s]> (checkin_schedules db);
     schedule_seq := schedule_seq db + 1;
     checkins := checkins db |}.

Definition withCheckin (db : DB) (teamId personId : Z) (createdAt : string) : DB :=
  {| teams := teams db;
     people := people db;
     checkin_schedules := checkin_schedules db;
     schedule_seq := schedule_seq db;
     checkins := checkins db ++
       [ {| checkin_team_id := teamId; checkin_person_id := personId;
            rating := Num 4; notes := None; checkin_created_at := createdAt |} ] |}.

Definition scheduleRow (cadence : Z) (startDate nextDue : string) : schedule :=
  {| schedule_id := 1;
     cadence_days := Num cadence;
     start_date := startDate;
     next_due := nextDue;
     schedule_created_at := "2023-12-01T09:00:00.000Z" |}.

(** The team checked in on 2024-01-10 and has no schedule yet. *)
Definition checkedInStore : DB :=
  withCheckin emptyStore 1 10 "2024-01-10T09:00:00.000Z".

(** A weekly schedule anchored on 2024-01-01. *)
Definition weeklyStore : DB :=
  withSchedule emptyStore 1 (scheduleRow 7 "2024-01-01" "2024-01-01").

(** A weekly schedule anchored on Monday 2024-03-04. *)
Definition marchStore : DB :=
  withSchedule emptyStore 1 (scheduleRow 7 "2024-03-04" "2024-03-04").

(** A schedule with a cadence of three million days. *)
Definition longCadenceStore : DB :=
  withSchedule emptyStore 1 (scheduleRow 3000000 "2024-01-01" "2024-01-01").

(** Two rows without a start date that differ in [next_due] only. *)
Definition legacyStore (nextDue : string) : DB :=
  withSchedule emptyStore 1 (scheduleRow 7 "" nextDue).

(** Three teams: due on 2024-05-27, on 2024-06-01 and on 2024-06-03. *)
Definition threeTeams : DB :=
  {| teams := {[ 1 := {| team_name := "Platform"; team_created_at := "2023-12-01T09:00:00.000Z" |};
                 2 := {| team_name := "Design"; team_created_at := "2023-12-02T09:00:00.000Z" |};
                 3 := {| team_name := "Research"; team_created_at := "2023-12-03T09:00:00.000Z" |} ]};
     people := {[ 10 := {| person_team_id := 1; person_name := "Ada" |};
                  20 := {| person_team_id := 2; person_name := "Grace" |};
                  30 := {| person_team_id := 3; person_name := "Edsger" |} ]};
     checkin_schedules :=
       {[ 1 := scheduleRow 7 "2024-06-03" "2024-06-03";
          2 := scheduleRow 7 "2024-06-01" "2024-06-01";
          3 := scheduleRow 14 "2024-05-13" "2024-05-13" ]};
     schedule_seq := 3;
     checkins :=
       [ {| checkin_team_id := 3; checkin_person_id := 30; rating := Num 5;
            notes := None; checkin_created_at := "2024-05-13T10:00:00.000Z" |} ] |}.
(** ** Further vocabulary: digits, hosts, time stamps *)

(** The [n] low decimal digits of [v], most significant first, in front
    of [tail]: the text of a number padded to a fixed width. *)
Fixpoint fixedDigits (n : nat) (v : Z) (tail : string) : string :=
  match n with
  | O => tail
  | S n' => fixedDigits n' (v / 10) (String (digitChar (v mod 10)) tail)
  end.

(** The offset of local time is less than a day, at every instant. *)
Definition offsetsWithinDay (h : Host) : Prop :=
  forall t isUTC, - ES.msPerDay < LocalTZA h t isUTC < ES.msPerDay.

(** No transition of the zone removes a local midnight: the instant the
    host takes for 00:00 of a day reads 00:00 of that day. *)
Definition midnightsKept (h : Host) : Prop :=
  forall d, LocalTime h (UTC h (d * ES.msPerDay)) = d * ES.msPerDay.

(** Time values whose UTC year is in 0..9999: [toISOString] prints them
    with a four-digit year. *)
Definition firstPlainYearTime : Z := ES.DayFromYear 0 * ES.msPerDay.
Definition lastPlainYearTime : Z := ES.DayFromYear 10000 * ES.msPerDay - 1.

Definition plainYear (t : Z) : Prop :=
  firstPlainYearTime <= t <= lastPlainYearTime.

(** The local day (days since 1970-01-01) of a time value. *)
Definition localDay (h : Host) (t : Z) : Z := ES.Day (LocalTime h t).

(** ** Recent check-ins

    [ORDER BY created_at DESC LIMIT n]: the rows sorted by descending
    time stamp, cut to the first [n]. SQLite leaves the order of rows
    with equal time stamps open; the stable sort stands for one such
    order. The rows are the columns of [checkins] that the record has. *)

Definition newestFirst (a b : string) : Z := compareText b a.

(** [listCheckins] *)
Definition listCheckins (db : DB) (personId : Z) : list checkin :=
  firstn 8
    (Array_sort (fun a b => newestFirst (checkin_created_at a) (checkin_created_at b))
       (List.filter (fun c => checkin_person_id c =? personId) (checkins db))).

(** [listTeamCheckins]: each row with the name of its person. *)
Definition listTeamCheckins (db : DB) (teamId : Z) : list (checkin * string) :=
  firstn 10
    (Array_sort
       (fun a b => newestFirst (checkin_created_at a.1) (checkin_created_at b.1))
       (omap (fun c => p ← people db !! checkin_person_id c; Some (c, person_name p))
          (List.filter (fun c => checkin_team_id c =? teamId) (checkins db)))).

(** ** The request handler

    The parts of the [fetch] handler of the server that decide what is
    written: each definition is the body of one route from the point
    where the path parameter and the form fields have been converted
    with [Number]; a form field that is absent is [None], and [Number]
    of it is [NaN]. *)

(** [a <= b] on numbers. *)
Definition number_leb (a b : number) : bool :=
  match a, b with
  | NaN, _ => false
  | _, NaN => false
  | NegInfinity, _ => true
  | _, PosInfinity => true
  | Num x, Num y => x <=? y
  | Num x, Frac q => QArith_base.Qle_bool (QArith_base.inject_Z x) q
  | Frac p, Num y => QArith_base.Qle_bool p (QArith_base.inject_Z y)
  | Frac p, Frac q => QArith_base.Qle_bool p q
  | PosInfinity, _ => false
  | _, NegInfinity => false
  end.

(** [n > 0] on numbers. *)
Definition number_gt0 (n : number) : bool :=
  match n with
  | Num z => 0 <? z
  | Frac q => 0 <? QArith_base.Qnum q
  | PosInfinity => true
  | _ => false
  end.

Definition Math_max (a b : number) : number :=
  match a, b with
  | NaN, _ => NaN
  | _, NaN => NaN
  | _, _ => if number_leb a b then b else a
  end.

Definition Math_min (a b : number) : number :=
  match a, b with
  | NaN, _ => NaN
  | _, NaN => NaN
  | _, _ => if number_leb a b then a else b
  end.

(** [getPerson]: the row of the person joined with the name of the
    team. *)
Definition getPerson (db : DB) (personId : Z) : option (person * string) :=
  p ← people db !! personId;
  t ← teams db !! person_team_id p;
  Some (p, team_name t).

Section Server.

Variable h : Host.

(** [data.notes ? data.notes : null] *)
Definition notesOf (notes_ : option string) : option string :=
  if truthy notes_ then notes_ else None.

(** POST /people/:id/checkins. [createCheckin] is called for a person of
    the store, whose team is in the store, and with a finite rating: the
    call completes. *)
Definition postPersonCheckin
    (db : DB) (personId : Z) (rating_ : number) (notes_ : option string) : DB :=
  let rating_ := Math_min (Num 5) (Math_max (Num 1) rating_) in
  let notes_ := notesOf notes_ in
  if Number_isFinite rating_ then
    match getPerson db personId with
    | Some (person, _) =>
        (createCheckin h db (person_team_id person) personId rating_ notes_).1
    | None => db
    end
  else db.

(** POST /teams/:id/checkins. No person has an id that is not an
    integer. *)
Definition postTeamCheckin
    (db : DB) (teamId : Z) (personId rating_ : number) (notes_ : option string) : DB :=
  let rating_ := Math_min (Num 5) (Math_max (Num 1) rating_) in
  let notes_ := notesOf notes_ in
  if Number_isFinite personId && Number_isFinite rating_ then
    match number_toZ personId with
    | Some pid =>
        match getPerson db pid with
        | Some (person, _) =>
            if person_team_id person =? teamId
            then (createCheckin h db teamId pid rating_ notes_).1
            else db
        | None => db
        end
    | None => db
    end
  else db.

(** POST /teams/:id/schedule. The route does not look the team up: for
    a team that is not there [upsertSchedule] raises, and the store stays
    as it is. *)
Definition postTeamSchedule
    (db : DB) (teamId : Z) (cadenceDays : number) (startDate : option string) : DB :=
  if Number_isFinite cadenceDays && number_gt0 cadenceDays
  then
    if upsertScheduleRaises db teamId cadenceDays then db
    else (upsertSchedule h db teamId cadenceDays startDate).1
  else db.


End Server.

(** Every schedule row has a start date of the form [YYYY-MM-DD] and a
    cadence that is finite and positive. *)
Definition schedulesWellFormed (db : DB) : Prop :=
  forall teamId s,
    checkin_schedules db !! teamId = Some s ->
    canonicalForm (start_date s)
    /\ Number_isFinite (cadence_days s) = true
    /\ number_gt0 (cadence_days s) = true.

(** Every check-in has a rating between 1 and 5 and is recorded for the
    team of a person of the store. *)
Definition checkinsWellFormed (db : DB) : Prop :=
  forall c,
    In c (checkins db) ->
    number_leb (Num 1) (rating c) = true
    /\ number_leb (rating c) (Num 5) = true
    /\ exists p, people db !! checkin_person_id c = Some p
                 /\ person_team_id p = checkin_team_id c.

(** The order of a list sorted by [key] whose ties keep the order [R]:
    ascending keys, and [R] among equal keys. *)
Definition byKeyThen {A : Type} (key : A -> string) (R : A -> A -> Prop)
    (a b : A) : Prop :=
  str_le (key a) (key b) = true /\ (key a = key b -> R a b).

(** * Checks of the model against known values *)

Example day_numbers :
  ES.DayFromYear 1970 = 0 /\ dayOf "2024-01-01" = Some 19723
  /\ dayOf "1969-12-31" = Some (-1) /\ dayOf "2023-02-29" = None.
Proof. repeat split; reflexivity. Qed.

(** [addDays] across the end of a month, of a leap February and of a
    year, and backwards. *)
Example addDays_rolls_over :
  addDays utcHost "2024-01-31" 1 = "2024-02-01"
  /\ addDays utcHost "2024-02-28" 1 = "2024-02-29"
  /\ addDays utcHost "2023-02-28" 1 = "2023-03-01"
  /\ addDays utcHost "2023-12-31" 1 = "2024-01-01"
  /\ addDays utcHost "2024-03-01" (-1) = "2024-02-29".
Proof. repeat split; reflexivity. Qed.

(** [addDays] works on local calendar dates: the days around both
    transitions of US Eastern time come out right. *)
Example addDays_across_transitions :
  addDays easternHost "2024-03-09" 1 = "2024-03-10"
  /\ addDays easternHost "2024-03-10" 1 = "2024-03-11"
  /\ addDays easternHost "2024-11-02" 2 = "2024-11-04".
Proof. repeat split; reflexivity. Qed.

Example clock_readings :
  now utcHost = "2024-06-01T12:00:00.000Z" /\ today utcHost = "2024-06-01"
  /\ now easternHost = "2024-03-11T16:00:00.000Z" /\ today easternHost = "2024-03-11"
  /\ toLocalDate easternHost (Some "2024-03-11T03:30:00.000Z") = Some "2024-03-10".
Proof. repeat split; reflexivity. Qed.

(** The scenarios of the specification (section 8). *)
Example spec_scenarios :
  calculateNextDueDate utcHost "2024-01-01" (Num 7) None = "2024-01-01"
  /\ calculateMissedCount utcHost "2024-01-01" (Num 7) (Some "2024-01-01") = 0
  /\ calculateNextDueDate utcHost "2024-01-01" (Num 7) (Some "2024-01-15") = "2024-01-22"
  /\ calculateNextDueDate utcHost "2024-01-01" (Num 7) (Some "2024-01-10") = "2024-01-15"
  /\ calculateMissedCount utcHost "2024-01-15" (Num 7) (Some "2024-01-30") = 3
  /\ diffDays utcHost "not-a-date" "2024-01-01" = 0.
Proof. repeat split; reflexivity. Qed.

(** What the example hosts read outside the format: a day that the month
    does not have runs over into the next month, and a space may stand
    for [T]; a string that is no date at all is invalid. *)
Example engine_formats :
  parseDate utcHost "2024-02-30" = parseDate utcHost "2024-03-01"
  /\ diffDays utcHost "2024-02-30" "2024-03-05" = 4
  /\ toLocalDate easternHost (Some "2024-01-10 09:00:00") = Some "2024-01-10"
  /\ parseDate utcHost "not-a-date" = None
  /\ parseDate easternHost "2024-13-45" = None.
Proof. repeat split; reflexivity. Qed.

(** A cadence of two and a half days: one day after the anchor the next
    due date is the anchor plus 2.5 days, which [setDate] cuts to the
    third of the month; 2.5 days after the second is the fourth. *)
Example fractional_cadence :
  calculateNextDueDate utcHost "2024-01-01" (Frac (QArith_base.Qmake 5 2))
    (Some "2024-01-02") = "2024-01-03"
  /\ calculateNextDueDate utcHost "2024-01-01" (Frac (QArith_base.Qmake 5 2))
       (Some "2024-01-06") = "2024-01-08"
  /\ calculateMissedCount utcHost "2024-01-01" (Frac (QArith_base.Qmake 5 2))
       (Some "2024-01-07") = 3.
Proof. repeat split; reflexivity. Qed.

(** A date of the format is the date [new Date] reads, on every host. *)
Lemma Date_parse_format (h : Host) (s : string) (t : Z) :
  Date_parseFormat h s = Some t -> Date_parse h s = Some t.
Proof. unfold Date_parse. now intros ->. Qed.

(** * Lemmas *)

(** ** The calendar *)

Module ESFacts.
Import ES.

Lemma div_succ (a n : Z) :
  0 < n -> (a + 1) / n = a / n + (if (a + 1) mod n =? 0 then 1 else 0).
Proof.
  intros Hn. destruct ((a + 1) mod n =? 0) eqn:E.
  - apply Z.eqb_eq in E. Z.to_euclidean_division_equations. nia.
  - apply Z.eqb_neq in E. Z.to_euclidean_division_equations. nia.
Qed.

Lemma DayFromYear_step (y : Z) :
  DayFromYear (y + 1) = DayFromYear y + DaysInYear y.
Proof.
  unfold DayFromYear, DaysInYear, isLeapYear.
  replace (y + 1 - 1969) with (y - 1969 + 1) by lia.
  replace (y + 1 - 1901) with (y - 1901 + 1) by lia.
  replace (y + 1 - 1601) with (y - 1601 + 1) by lia.
  rewrite !div_succ by lia.
  replace ((y - 1969 + 1) mod 4) with (y mod 4)
    by (replace (y - 1969 + 1) with (y + (-492) * 4) by lia; now rewrite Z.mod_add).
  replace ((y - 1901 + 1) mod 100) with (y mod 100)
    by (replace (y - 1901 + 1) with (y + (-19) * 100) by lia; now rewrite Z.mod_add).
  replace ((y - 1601 + 1) mod 400) with (y mod 400)
    by (replace (y - 1601 + 1) with (y + (-4) * 400) by lia; now rewrite Z.mod_add).
  assert (M1 : y mod 100 = 0 -> y mod 4 = 0).
  { intros E. rewrite <- (Z.mod_mod_divide y 100 4) by (exists 25; lia).
    now rewrite E. }
  assert (M2 : y mod 400 = 0 -> y mod 100 = 0).
  { intros E. rewrite <- (Z.mod_mod_divide y 400 100) by (exists 4; lia).
    now rewrite E. }
  destruct (y mod 4 =? 0) eqn:E4; destruct (y mod 100 =? 0) eqn:E100;
    destruct (y mod 400 =? 0) eqn:E400; cbn [negb];
    rewrite ?Z.eqb_eq, ?Z.eqb_neq in *; lia.
Qed.

Lemma DaysInYear_range (y : Z) : 365 <= DaysInYear y <= 366.
Proof. unfold DaysInYear. destruct (isLeapYear y); lia. Qed.

Lemma DayFromYear_lt (y : Z) : DayFromYear y < DayFromYear (y + 1).
Proof. rewrite DayFromYear_step. pose proof (DaysInYear_range y). lia. Qed.

Lemma DayFromYear_mono (y1 y2 : Z) :
  y1 <= y2 -> DayFromYear y1 <= DayFromYear y2.
Proof.
  intros H. replace y2 with (y1 + Z.of_nat (Z.to_nat (y2 - y1))) by lia.
  induction (Z.to_nat (y2 - y1)) as [|k IH]; [rewrite Z.add_0_r; lia|].
  rewrite Nat2Z.inj_succ.
  replace (y1 + Z.succ (Z.of_nat k)) with (y1 + Z.of_nat k + 1) by lia.
  pose proof (DayFromYear_lt (y1 + Z.of_nat k)). lia.
Qed.

Lemma YearFromDay_bracket (d : Z) :
  DayFromYear (YearFromDay d) <= d < DayFromYear (YearFromDay d + 1).
Proof.
  unfold YearFromDay.
  set (y := 1970 + (400 * d) / 146097).
  destruct (DayFromYear (y + 1) <=? d) eqn:E1.
  - apply Z.leb_le in E1. split; [exact E1|].
    unfold DayFromYear in *. subst y. Z.to_euclidean_division_equations; lia.
  - apply Z.leb_gt in E1. destruct (DayFromYear y <=? d) eqn:E2.
    + apply Z.leb_le in E2. lia.
    + apply Z.leb_gt in E2. replace (y - 1 + 1) with y by lia. split; [|lia].
      unfold DayFromYear in *. subst y. Z.to_euclidean_division_equations; lia.
Qed.

Lemma YearFromDay_unique (d y : Z) :
  DayFromYear y <= d < DayFromYear (y + 1) -> YearFromDay d = y.
Proof.
  intros [Hlo Hhi]. pose proof (YearFromDay_bracket d) as [Blo Bhi].
  destruct (Z.lt_trichotomy (YearFromDay d) y) as [Hlt | [Heq | Hgt]]; [|exact Heq|].
  - pose proof (DayFromYear_mono (YearFromDay d + 1) y). lia.
  - pose proof (DayFromYear_mono (y + 1) (YearFromDay d)). lia.
Qed.

Lemma YearFromDay_mono (d1 d2 : Z) : d1 <= d2 -> YearFromDay d1 <= YearFromDay d2.
Proof.
  intros H. pose proof (YearFromDay_bracket d1) as [B1 _].
  pose proof (YearFromDay_bracket d2) as [_ B2].
  destruct (Z.le_gt_cases (YearFromDay d1) (YearFromDay d2)) as [|Hgt]; [assumption|].
  pose proof (DayFromYear_mono (YearFromDay d2 + 1) (YearFromDay d1)). lia.
Qed.

End ESFacts.

(** ** Digits and scanning *)

Lemma isDigit_inv (c : ascii) :
  isDigit c = true -> 0 <= digitVal c <= 9 /\ digitChar (digitVal c) = c.
Proof.
  destruct c as [[] [] [] [] [] [] [] []]; cbv; intros H;
    try discriminate H; split; try split; congruence.
Qed.

Lemma digitChar_ok (d : Z) :
  0 <= d <= 9 -> isDigit (digitChar d) = true /\ digitVal (digitChar d) = d.
Proof.
  intros H.
  assert (E : d = 0 \/ d = 1 \/ d = 2 \/ d = 3 \/ d = 4 \/ d = 5 \/ d = 6
              \/ d = 7 \/ d = 8 \/ d = 9) by lia.
  repeat (destruct E as [E | E]; [subst d; split; reflexivity|]).
  subst d; split; reflexivity.
Qed.

Lemma digit_compare (c1 c2 : ascii) :
  Ascii.compare c1 c2 = (digitVal c1 ?= digitVal c2).
Proof.
  unfold Ascii.compare, digitVal.
  rewrite <- N2Z.inj_compare.
  destruct (Z.compare_spec (Z.of_N (N_of_ascii c1)) (Z.of_N (N_of_ascii c2)));
    symmetry; [apply Z.compare_eq_iff | apply Z.compare_lt_iff | apply Z.compare_gt_iff]; lia.
Qed.

Lemma scanDigits_app (n : nat) (acc : Z) (s tail : string) (v : Z) (rest : string) :
  scanDigits n acc s = Some (v, rest) ->
  scanDigits n acc (s +:+ tail) = Some (v, rest +:+ tail).
Proof.
  revert acc s. induction n as [|n IH]; intros acc s H; cbn in *.
  - now inversion H.
  - destruct s as [|c s']; [discriminate|].
    change (String c s' +:+ tail) with (String c (s' +:+ tail)).
    cbn [scanDigits]. destruct (isDigit c); [|discriminate]. now apply IH.
Qed.

Lemma scanChar_app (c : ascii) (s tail rest : string) :
  scanChar c s = Some rest -> scanChar c (s +:+ tail) = Some (rest +:+ tail).
Proof.
  destruct s as [|c' s']; cbn; [discriminate|].
  change (String c' s' +:+ tail) with (String c' (s' +:+ tail)).
  cbn [scanChar]. destruct (Ascii.eqb c c'); [|discriminate]. now inversion 1.
Qed.

Lemma scanChar_inv (c : ascii) (s rest : string) :
  scanChar c s = Some rest -> s = String c rest.
Proof.
  destruct s as [|c' s']; cbn; [discriminate|].
  destruct (Ascii.eqb c c') eqn:E; [|discriminate].
  apply Ascii.eqb_eq in E. inversion 1. now subst.
Qed.

Lemma scanDigits2_inv (s : string) (v : Z) (rest : string) :
  scanDigits 2 0 s = Some (v, rest) ->
  exists c1 c2, s = String c1 (String c2 rest)
    /\ isDigit c1 = true /\ isDigit c2 = true
    /\ v = 10 * (10 * 0 + digitVal c1) + digitVal c2.
Proof.
  cbn. destruct s as [|c1 [|c2 s']]; try discriminate;
    destruct (isDigit c1) eqn:D1; try discriminate.
  destruct (isDigit c2) eqn:D2; try discriminate.
  inversion 1. subst. now exists c1, c2.
Qed.

Lemma scanDigits4_inv (s : string) (v : Z) (rest : string) :
  scanDigits 4 0 s = Some (v, rest) ->
  exists c1 c2 c3 c4, s = String c1 (String c2 (String c3 (String c4 rest)))
    /\ isDigit c1 = true /\ isDigit c2 = true
    /\ isDigit c3 = true /\ isDigit c4 = true
    /\ v = 10 * (10 * (10 * (10 * 0 + digitVal c1) + digitVal c2) + digitVal c3)
           + digitVal c4.
Proof.
  cbn. destruct s as [|c1 [|c2 [|c3 [|c4 s']]]]; try discriminate;
    destruct (isDigit c1) eqn:D1; try discriminate;
    destruct (isDigit c2) eqn:D2; try discriminate;
    destruct (isDigit c3) eqn:D3; try discriminate.
  destruct (isDigit c4) eqn:D4; try discriminate.
  inversion 1. subst. now exists c1, c2, c3, c4.
Qed.

(** ** Canonical dates as text *)

Lemma civilOf_text (s : string) (y mo d : Z) :
  civilOf s = Some (y, mo, d) ->
  dateText s y mo d /\ 1 <= mo <= 12 /\ 1 <= d <= ES.daysInMonth y mo.
Proof.
  unfold civilOf. intros H.
  apply bind_Some in H as ([y' s1] & E1 & H).
  apply bind_Some in H as (s2 & E2 & H).
  apply bind_Some in H as ([mo' s3] & E3 & H).
  apply bind_Some in H as (s4 & E4 & H).
  apply bind_Some in H as ([d' s5] & E5 & H).
  destruct (String.eqb s5 "" && (1 <=? mo') && (mo' <=? 12) && (1 <=? d')
            && (d' <=? ES.daysInMonth y' mo')) eqn:G; [|discriminate].
  inversion H; subst y' mo' d'; clear H.
  repeat (apply andb_prop in G; destruct G as [G ?]).
  apply String.eqb_eq in G. subst s5.
  apply scanDigits4_inv in E1 as (c1 & c2 & c3 & c4 & -> & D1 & D2 & D3 & D4 & ->).
  apply scanChar_inv in E2 as ->.
  apply scanDigits2_inv in E3 as (c5 & c6 & -> & D5 & D6 & ->).
  apply scanChar_inv in E4 as ->.
  apply scanDigits2_inv in E5 as (c7 & c8 & -> & D7 & D8 & ->).
  split; [now constructor | lia].
Qed.

Lemma text_civilOf (s : string) (y mo d : Z) :
  dateText s y mo d -> 1 <= mo <= 12 -> 1 <= d <= ES.daysInMonth y mo ->
  civilOf s = Some (y, mo, d).
Proof.
  intros T Hmo Hd. destruct T. unfold civilOf.
  repeat (cbn; match goal with
               | H : isDigit ?c = true |- context [isDigit ?c] => rewrite H
               end).
  cbn.
  replace (1 <=? _) with true by (symmetry; apply Z.leb_le; lia).
  replace (_ <=? 12) with true by (symmetry; apply Z.leb_le; lia).
  cbn.
  replace (1 <=? _) with true by (symmetry; apply Z.leb_le; lia).
  replace (_ <=? ES.daysInMonth _ _) with true by (symmetry; apply Z.leb_le; lia).
  reflexivity.
Qed.

Lemma text_pattern (s : string) (y mo d : Z) :
  dateText s y mo d -> matchesDatePattern s = true.
Proof.
  intros T. destruct T. unfold matchesDatePattern.
  repeat (cbn; match goal with
               | H : isDigit ?c = true |- context [isDigit ?c] => rewrite H
               end).
  reflexivity.
Qed.

Lemma text_range (s : string) (y mo d : Z) :
  dateText s y mo d -> 0 <= y <= 9999 /\ 0 <= mo <= 99 /\ 0 <= d <= 99.
Proof.
  intros T. destruct T.
  repeat match goal with
         | H : isDigit _ = true |- _ => apply isDigit_inv in H; destruct H as [? _]
         end.
  lia.
Qed.

Lemma text_unique (s s' : string) (y mo d : Z) :
  dateText s y mo d -> dateText s' y mo d -> s = s'.
Proof.
  intros T T'. destruct T. inversion T'; subst.
  repeat match goal with
         | H : isDigit _ = true |- _ =>
             apply isDigit_inv in H; destruct H as [? ?]
         end.
  assert (digitVal c1 = digitVal c0 /\ digitVal c2 = digitVal c9
          /\ digitVal c3 = digitVal c10 /\ digitVal c4 = digitVal c11
          /\ digitVal c5 = digitVal c12 /\ digitVal c6 = digitVal c13
          /\ digitVal c7 = digitVal c14 /\ digitVal c8 = digitVal c15)
    as (E1 & E2 & E3 & E4 & E5 & E6 & E7 & E8) by lia.
  repeat match goal with
         | H : digitChar (digitVal ?c) = ?c |- _ => rewrite <- H; clear H
         end.
  now rewrite E1, E2, E3, E4, E5, E6, E7, E8.
Qed.

(** ** Canonical dates in the Date Time String Format *)

Lemma digit_not_sign (c : ascii) :
  isDigit c = true -> Ascii.eqb c "+" = false /\ Ascii.eqb c "-" = false.
Proof.
  destruct c as [[] [] [] [] [] [] [] []]; cbv; intros H;
    try discriminate H; split; reflexivity.
Qed.

Lemma scanDate_text (s tail : string) (y mo d : Z) :
  dateText s y mo d -> scanDate (s +:+ tail) = Some (y, mo, d, tail).
Proof.
  intros T. destruct T. unfold scanDate, scanYear, scanGroup.
  cbv [String.append].
  destruct (digit_not_sign c1 ltac:(assumption)) as [-> ->].
  repeat (cbn; match goal with
               | H : isDigit ?c = true |- context [isDigit ?c] => rewrite H
               end).
  reflexivity.
Qed.

(** ** Months and days of the month *)

Module ESMonth.
Import ES ESFacts.

Ltac Zbool :=
  rewrite ?Z.ltb_lt, ?Z.ltb_ge, ?Z.leb_le, ?Z.leb_gt, ?Z.eqb_eq, ?Z.eqb_neq in *.

Ltac split_if :=
  match goal with
  | |- context [if ?b then _ else _] => let E := fresh "E" in destruct b eqn:E
  end.

Ltac is_literal a :=
  match a with 0 => idtac | Zpos _ => idtac | Zneg _ => idtac end.

Ltac add_consts :=
  repeat match goal with
         | |- context [Z.add ?a ?b] =>
             is_literal a; is_literal b;
             let v := eval vm_compute in (Z.add a b) in
             change (Z.add a b) with v
         | |- context [Z.sub ?a ?b] =>
             is_literal a; is_literal b;
             let v := eval vm_compute in (Z.sub a b) in
             change (Z.sub a b) with v
         end.

Ltac split_ltb :=
  match goal with
  | |- context [if (?a <? ?b) then _ else _] =>
      let E := fresh "E" in destruct (a <? b) eqn:E
  end.

Lemma Day_midnight (d : Z) : Day (d * msPerDay) = d.
Proof. unfold Day. apply Z.div_mul. discriminate. Qed.

Lemma TimeWithinDay_midnight (d : Z) : TimeWithinDay (d * msPerDay) = 0.
Proof. unfold TimeWithinDay. apply Z_mod_mult. Qed.

Lemma DayWithinYear_range (t : Z) :
  0 <= DayWithinYear t < DaysInYear (YearFromTime t).
Proof.
  unfold DayWithinYear, YearFromTime.
  pose proof (YearFromDay_bracket (Day t)) as [Hlo Hhi].
  rewrite DayFromYear_step in Hhi. lia.
Qed.

Lemma monthOfYearDay_range (dw leap : Z) : 0 <= monthOfYearDay dw leap <= 11.
Proof. unfold monthOfYearDay. repeat split_if; lia. Qed.

Lemma MonthFromTime_range (t : Z) : 0 <= MonthFromTime t <= 11.
Proof. apply monthOfYearDay_range. Qed.

(** Within a year, the day of the month is in the month. *)
Lemma monthOfYearDay_date (y dw : Z) :
  0 <= dw < DaysInYear y ->
  let leap := if isLeapYear y then 1 else 0 in
  let m := monthOfYearDay dw leap in
  1 <= dw - daysBeforeMonth m leap + 1 <= daysInMonth y (m + 1).
Proof.
  unfold DaysInYear, daysInMonth. intros H; cbv zeta.
  destruct (isLeapYear y); unfold monthOfYearDay;
    repeat (split_ltb; Zbool; [add_consts; cbn; lia|]); add_consts; cbn; lia.
Qed.

Lemma DateFromTime_range (t : Z) :
  1 <= DateFromTime t <= daysInMonth (YearFromTime t) (MonthFromTime t + 1).
Proof.
  unfold DateFromTime, MonthFromTime, InLeapYear.
  apply monthOfYearDay_date, DayWithinYear_range.
Qed.

(** From the fields of a time back to its day: [setDate] with the day of
    the month moved by [n] lands [n] days away. *)
Lemma MakeDay_fields (t n : Z) :
  MakeDay (YearFromTime t) (MonthFromTime t) (DateFromTime t + n) = Day t + n.
Proof.
  pose proof (MonthFromTime_range t) as Hm.
  unfold MakeDay. rewrite Z.div_small, Z.mod_small, Z.add_0_r by lia.
  unfold DateFromTime, DayWithinYear, InLeapYear. lia.
Qed.

(** The day within the year of month [mo], day [d] determines both. *)
Lemma monthOfYearDay_MakeDay (y mo d : Z) :
  1 <= mo <= 12 -> 1 <= d <= daysInMonth y mo ->
  let leap := if isLeapYear y then 1 else 0 in
  let dw := daysBeforeMonth (mo - 1) leap + d - 1 in
  0 <= dw < DaysInYear y /\ monthOfYearDay dw leap = mo - 1.
Proof.
  intros Hmo Hd; cbv zeta. unfold DaysInYear, daysInMonth in *.
  assert (E : mo = 1 \/ mo = 2 \/ mo = 3 \/ mo = 4 \/ mo = 5 \/ mo = 6 \/ mo = 7
              \/ mo = 8 \/ mo = 9 \/ mo = 10 \/ mo = 11 \/ mo = 12) by lia.
  destruct (isLeapYear y);
    repeat (destruct E as [E | E];
            [subst mo; cbn in Hd; add_consts; cbn; unfold monthOfYearDay;
             split; [lia|]; repeat (split_ltb; Zbool; try lia); reflexivity|]);
    subst mo; cbn in Hd; add_consts; cbn; unfold monthOfYearDay;
    (split; [lia|]); repeat (split_ltb; Zbool; try lia); reflexivity.
Qed.

(** From a day of the calendar to its fields. *)
Lemma fields_MakeDay (y mo d t : Z) :
  1 <= mo <= 12 -> 1 <= d <= daysInMonth y mo ->
  Day t = MakeDay y (mo - 1) d ->
  YearFromTime t = y /\ MonthFromTime t = mo - 1 /\ DateFromTime t = d.
Proof.
  intros Hmo Hd Ht.
  pose proof (monthOfYearDay_MakeDay y mo d Hmo Hd) as [Hdw Hm]; cbv zeta in *.
  unfold MakeDay in Ht. rewrite Z.div_small, Z.mod_small, Z.add_0_r in Ht by lia.
  assert (Hy : YearFromTime t = y).
  { unfold YearFromTime. apply YearFromDay_unique.
    rewrite DayFromYear_step. lia. }
  assert (Hw : DayWithinYear t
               = daysBeforeMonth (mo - 1) (if isLeapYear y then 1 else 0) + d - 1).
  { unfold DayWithinYear. rewrite Hy. lia. }
  assert (Hmonth : MonthFromTime t = mo - 1).
  { unfold MonthFromTime, InLeapYear. now rewrite Hy, Hw. }
  repeat split; [exact Hy | exact Hmonth |].
  unfold DateFromTime, InLeapYear. rewrite Hmonth, Hy, Hw. lia.
Qed.

(** Days of the calendar are ordered as (year, month, day) triples. *)
Lemma MakeDay_lt (y1 mo1 d1 y2 mo2 d2 : Z) :
  1 <= mo1 <= 12 -> 1 <= d1 <= daysInMonth y1 mo1 ->
  1 <= mo2 <= 12 -> 1 <= d2 <= daysInMonth y2 mo2 ->
  y1 < y2 \/ (y1 = y2 /\ (mo1 < mo2 \/ (mo1 = mo2 /\ d1 < d2))) ->
  MakeDay y1 (mo1 - 1) d1 < MakeDay y2 (mo2 - 1) d2.
Proof.
  intros Hmo1 Hd1 Hmo2 Hd2 Hlt.
  pose proof (monthOfYearDay_MakeDay y1 mo1 d1 Hmo1 Hd1) as [Hdw1 _].
  pose proof (monthOfYearDay_MakeDay y2 mo2 d2 Hmo2 Hd2) as [Hdw2 _].
  cbv zeta in *. unfold MakeDay.
  rewrite !Z.div_small, !Z.mod_small, !Z.add_0_r by lia.
  destruct Hlt as [Hy | [-> Hlt]].
  - pose proof (DayFromYear_mono (y1 + 1) y2). rewrite DayFromYear_step in *. lia.
  - destruct Hlt as [Hm | [-> Hd]]; [|lia].
    unfold daysInMonth, DaysInYear in *.
    assert (E1 : mo1 = 1 \/ mo1 = 2 \/ mo1 = 3 \/ mo1 = 4 \/ mo1 = 5 \/ mo1 = 6
                 \/ mo1 = 7 \/ mo1 = 8 \/ mo1 = 9 \/ mo1 = 10 \/ mo1 = 11) by lia.
    destruct (isLeapYear y2);
      repeat (destruct E1 as [E1 | E1];
              [subst mo1; cbn in Hd1; add_consts; cbn;
               unfold daysBeforeMonth; repeat (split_if; Zbool; try lia)|]);
      subst mo1; cbn in Hd1; add_consts; cbn;
      unfold daysBeforeMonth; repeat (split_if; Zbool; try lia).
Qed.

End ESMonth.

(** ** Printing numbers *)

Lemma decimalFuel_lt10 (fuel : nat) (n : Z) (acc : string) :
  0 <= n < 10 -> decimalFuel (S fuel) n acc = String (digitChar n) acc.
Proof.
  intros H. cbn [decimalFuel].
  replace (n <? 10) with true by (symmetry; apply Z.ltb_lt; lia).
  now rewrite Z.mod_small by lia.
Qed.

Lemma decimalFuel_ge10 (fuel : nat) (n : Z) (acc : string) :
  10 <= n ->
  decimalFuel (S fuel) n acc
  = decimalFuel fuel (n / 10) (String (digitChar (n mod 10)) acc).
Proof.
  intros H. cbn [decimalFuel].
  now replace (n <? 10) with false by (symmetry; apply Z.ltb_ge; lia).
Qed.

Lemma decimal_4digits (y : Z) :
  1000 <= y <= 9999 ->
  decimal y
  = String (digitChar (y / 10 / 10 / 10))
      (String (digitChar (y / 10 / 10 mod 10))
         (String (digitChar (y / 10 mod 10))
            (String (digitChar (y mod 10)) ""))).
Proof.
  intros H. unfold decimal.
  assert (L : 9 <= Z.log2 y) by (apply (Z.log2_le_mono 1000 y); lia).
  destruct (Z.to_nat (Z.log2 y)) as [|[|[|k]]] eqn:E; try lia.
  do 3 (rewrite decimalFuel_ge10 by (Z.to_euclidean_division_equations; lia)).
  now rewrite decimalFuel_lt10 by (Z.to_euclidean_division_equations; lia).
Qed.

Lemma padStart2_decimal (n : Z) :
  0 <= n <= 99 ->
  padStart (decimal n) 2 "0"
  = String (digitChar (n / 10)) (String (digitChar (n mod 10)) "").
Proof.
  intros H. unfold decimal. destruct (Z_lt_le_dec n 10) as [Hs | Hb].
  - rewrite decimalFuel_lt10 by lia.
    rewrite Z.div_small, Z.mod_small by lia. reflexivity.
  - assert (L : 3 <= Z.log2 n) by (apply (Z.log2_le_mono 10 n); lia).
    destruct (Z.to_nat (Z.log2 n)) as [|k] eqn:E; try lia.
    rewrite decimalFuel_ge10 by lia.
    now rewrite decimalFuel_lt10 by (Z.to_euclidean_division_equations; lia).
Qed.

(** The text of a date whose year prints with four digits. *)
Lemma format_text (y mo d : Z) :
  1000 <= y <= 9999 -> 0 <= mo <= 99 -> 0 <= d <= 99 ->
  dateText
    (Number_toString (Some y) +:+ "-"
     +:+ padStart (Number_toString (Some mo)) 2 "0" +:+ "-"
     +:+ padStart (Number_toString (Some d)) 2 "0")
    y mo d.
Proof.
  intros Hy Hmo Hd. unfold Number_toString.
  replace (y <? 0) with false by (symmetry; apply Z.ltb_ge; lia).
  replace (mo <? 0) with false by (symmetry; apply Z.ltb_ge; lia).
  replace (d <? 0) with false by (symmetry; apply Z.ltb_ge; lia).
  rewrite decimal_4digits, !padStart2_decimal by assumption.
  cbv [String.append].
  assert (Dy1 : 0 <= y / 10 / 10 / 10 <= 9) by (Z.to_euclidean_division_equations; lia).
  assert (Dy2 : 0 <= y / 10 / 10 mod 10 <= 9) by (Z.to_euclidean_division_equations; lia).
  assert (Dy3 : 0 <= y / 10 mod 10 <= 9) by (Z.to_euclidean_division_equations; lia).
  assert (Dy4 : 0 <= y mod 10 <= 9) by (Z.to_euclidean_division_equations; lia).
  assert (Dm1 : 0 <= mo / 10 <= 9) by (Z.to_euclidean_division_equations; lia).
  assert (Dm2 : 0 <= mo mod 10 <= 9) by (Z.to_euclidean_division_equations; lia).
  assert (Dd1 : 0 <= d / 10 <= 9) by (Z.to_euclidean_division_equations; lia).
  assert (Dd2 : 0 <= d mod 10 <= 9) by (Z.to_euclidean_division_equations; lia).
  apply digitChar_ok in Dy1 as [Iy1 Vy1], Dy2 as [Iy2 Vy2], Dy3 as [Iy3 Vy3],
      Dy4 as [Iy4 Vy4], Dm1 as [Im1 Vm1], Dm2 as [Im2 Vm2],
      Dd1 as [Id1 Vd1], Dd2 as [Id2 Vd2].
  pose proof (dateText_intro _ _ _ _ _ _ _ _ Iy1 Iy2 Iy3 Iy4 Im1 Im2 Id1 Id2) as T.
  rewrite Vy1, Vy2, Vy3, Vy4, Vm1, Vm2, Vd1, Vd2 in T.
  replace y with (10 * (10 * (10 * (10 * 0 + y / 10 / 10 / 10) + y / 10 / 10 mod 10)
                        + y / 10 mod 10) + y mod 10) at 5
    by (Z.to_euclidean_division_equations; lia).
  replace mo with (10 * (10 * 0 + mo / 10) + mo mod 10) at 3
    by (Z.to_euclidean_division_equations; lia).
  replace d with (10 * (10 * 0 + d / 10) + d mod 10) at 3
    by (Z.to_euclidean_division_equations; lia).
  exact T.
Qed.

(** ** Canonical dates and day numbers *)

Section Days.
Import ES ESFacts ESMonth.

Lemma dayOf_civil (s : string) (d : Z) :
  dayOf s = Some d ->
  exists y mo dd,
    civilOf s = Some (y, mo, dd) /\ d = MakeDay y (mo - 1) dd
    /\ dateText s y mo dd /\ 0 <= y <= 9999
    /\ 1 <= mo <= 12 /\ 1 <= dd <= daysInMonth y mo.
Proof.
  unfold dayOf. intros H.
  apply bind_Some in H as ([[y mo] dd] & Hc & H). inversion H; subst d.
  destruct (civilOf_text _ _ _ _ Hc) as (T & Hmo & Hdd).
  destruct (text_range _ _ _ _ T) as (Hy & _).
  now exists y, mo, dd.
Qed.

Lemma canonicalDate_form (s : string) : canonicalDate s -> canonicalForm s.
Proof.
  intros [d H]. apply dayOf_civil in H as (y & mo & dd & _ & _ & T & _).
  exact (text_pattern _ _ _ _ T).
Qed.

Lemma MakeDay_year_bounds (y mo dd : Z) :
  1 <= mo <= 12 -> 1 <= dd <= daysInMonth y mo ->
  DayFromYear y <= MakeDay y (mo - 1) dd < DayFromYear (y + 1).
Proof.
  intros Hmo Hdd.
  pose proof (monthOfYearDay_MakeDay y mo dd Hmo Hdd) as [Hdw _]; cbv zeta in *.
  unfold MakeDay. rewrite Z.div_small, Z.mod_small, Z.add_0_r by lia.
  rewrite DayFromYear_step. lia.
Qed.

Lemma dayOf_range (s : string) (d : Z) :
  dayOf s = Some d -> DayFromYear 0 <= d <= lastCanonicalDay.
Proof.
  intros H. apply dayOf_civil in H as (y & mo & dd & _ & -> & _ & Hy & Hmo & Hdd).
  pose proof (MakeDay_year_bounds y mo dd Hmo Hdd).
  pose proof (DayFromYear_mono 0 y). pose proof (DayFromYear_mono (y + 1) 10000).
  unfold lastCanonicalDay. lia.
Qed.

Lemma four_digit_year (d : Z) :
  firstFourDigitDay <= d <= lastCanonicalDay -> 1000 <= YearFromDay d <= 9999.
Proof.
  unfold firstFourDigitDay, lastCanonicalDay. intros H.
  pose proof (YearFromDay_bracket d) as [Hlo Hhi]. split.
  - destruct (Z_lt_le_dec (YearFromDay d) 1000) as [Hlt|]; [|assumption].
    pose proof (DayFromYear_mono (YearFromDay d + 1) 1000). lia.
  - destruct (Z_lt_le_dec 9999 (YearFromDay d)) as [Hlt|]; [|assumption].
    pose proof (DayFromYear_mono 10000 (YearFromDay d)). lia.
Qed.

(** A day in the years 1000..9999 prints as a canonical date, which
    reads back as that day. *)
Lemma dayOf_dateOfDay (d : Z) :
  firstFourDigitDay <= d <= lastCanonicalDay -> dayOf (dateOfDay d) = Some d.
Proof.
  intros H. pose proof (four_digit_year d H) as Hy.
  set (t := d * msPerDay).
  assert (Ht : Day t = d) by apply Day_midnight.
  pose proof (MonthFromTime_range t) as Hm.
  pose proof (DateFromTime_range t) as Hd.
  assert (Hd31 : daysInMonth (YearFromTime t) (MonthFromTime t + 1) <= 31).
  { unfold daysInMonth. repeat split_if; lia. }
  assert (Y : YearFromTime t = YearFromDay d) by (unfold YearFromTime; now rewrite Ht).
  assert (T : dateText (dateOfDay d) (YearFromTime t) (MonthFromTime t + 1)
                       (DateFromTime t)).
  { apply format_text; lia. }
  unfold dayOf. rewrite (text_civilOf _ _ _ _ T) by lia. cbn.
  f_equal. replace (MonthFromTime t + 1 - 1) with (MonthFromTime t) by lia.
  rewrite <- (Z.add_0_r (DateFromTime t)), MakeDay_fields. lia.
Qed.

(** A canonical date from year 1000 on is the text of its day. *)
Lemma dateOfDay_dayOf (s : string) (d : Z) :
  dayOf s = Some d -> firstFourDigitDay <= d -> dateOfDay d = s.
Proof.
  intros H Hlo. pose proof (dayOf_range _ _ H) as [_ Hhi].
  pose proof (four_digit_year d (conj Hlo Hhi)) as Hy.
  apply dayOf_civil in H as (y & mo & dd & _ & Hd & T & _ & Hmo & Hdd).
  set (t := d * msPerDay).
  assert (Ht : Day t = MakeDay y (mo - 1) dd) by (unfold t; now rewrite Day_midnight).
  destruct (fields_MakeDay y mo dd t Hmo Hdd Ht) as (Ey & Em & Ed).
  assert (Y : YearFromTime t = YearFromDay d)
    by (unfold YearFromTime, t; now rewrite Day_midnight).
  assert (Hd31 : daysInMonth y mo <= 31).
  { unfold daysInMonth. repeat split_if; lia. }
  apply (text_unique _ _ y mo dd); [|exact T].
  unfold dateOfDay. fold t. rewrite Ey, Em, Ed.
  replace (mo - 1 + 1) with mo by lia.
  apply format_text; lia.
Qed.

Lemma text_compare (s1 s2 : string) (y1 mo1 d1 y2 mo2 d2 : Z) :
  dateText s1 y1 mo1 d1 -> dateText s2 y2 mo2 d2 ->
  String.compare s1 s2 = lex (y1 ?= y2) (lex (mo1 ?= mo2) (d1 ?= d2)).
Proof.
  intros T1 T2. destruct T1, T2.
  repeat match goal with
         | H : isDigit _ = true |- _ =>
             apply isDigit_inv in H; destruct H as [H _]
         end.
  cbn [String.compare]. rewrite !digit_compare.
  change (digitVal "-" ?= digitVal "-") with Eq. cbv iota.
  repeat match goal with
         | |- context [match (digitVal ?a ?= digitVal ?b) with _ => _ end] =>
             destruct (Z.compare_spec (digitVal a) (digitVal b));
             [ | unfold lex;
                 repeat match goal with
                        | |- context [?x ?= ?y] => destruct (Z.compare_spec x y)
                        end; try reflexivity; lia .. ]
         end.
  unfold lex.
  repeat match goal with
         | |- context [?x ?= ?y] => destruct (Z.compare_spec x y)
         end; try reflexivity; lia.
Qed.

Lemma civil_compare (y1 mo1 d1 y2 mo2 d2 : Z) :
  1 <= mo1 <= 12 -> 1 <= d1 <= daysInMonth y1 mo1 ->
  1 <= mo2 <= 12 -> 1 <= d2 <= daysInMonth y2 mo2 ->
  lex (y1 ?= y2) (lex (mo1 ?= mo2) (d1 ?= d2))
  = (MakeDay y1 (mo1 - 1) d1 ?= MakeDay y2 (mo2 - 1) d2).
Proof.
  intros Hm1 Hd1 Hm2 Hd2. unfold lex. symmetry.
  destruct (Z.compare_spec y1 y2) as [-> | Hy | Hy];
    [ destruct (Z.compare_spec mo1 mo2) as [-> | Hm | Hm];
      [ destruct (Z.compare_spec d1 d2) as [-> | Hd | Hd] | | ] | | ].
  - apply Z.compare_refl.
  - apply Z.compare_lt_iff, MakeDay_lt; auto.
  - apply Z.compare_gt_iff, MakeDay_lt; auto.
  - apply Z.compare_lt_iff, MakeDay_lt; auto.
  - apply Z.compare_gt_iff, MakeDay_lt; auto.
  - apply Z.compare_lt_iff, MakeDay_lt; auto.
  - apply Z.compare_gt_iff, MakeDay_lt; auto.
Qed.

(** Canonical dates compare as strings the way their days compare. *)
Lemma compare_dayOf (s1 s2 : string) (d1 d2 : Z) :
  dayOf s1 = Some d1 -> dayOf s2 = Some d2 ->
  String.compare s1 s2 = (d1 ?= d2).
Proof.
  intros H1 H2.
  apply dayOf_civil in H1 as (y1 & mo1 & dd1 & _ & -> & T1 & _ & Hm1 & Hd1).
  apply dayOf_civil in H2 as (y2 & mo2 & dd2 & _ & -> & T2 & _ & Hm2 & Hd2).
  rewrite (text_compare _ _ _ _ _ _ _ _ T1 T2). now apply civil_compare.
Qed.

Lemma str_gt_dayOf (s1 s2 : string) (d1 d2 : Z) :
  dayOf s1 = Some d1 -> dayOf s2 = Some d2 ->
  str_gt s1 s2 = true <-> d2 < d1.
Proof.
  intros H1 H2. unfold str_gt, String.ltb.
  rewrite (compare_dayOf _ _ _ _ H2 H1).
  destruct (Z.compare_spec d2 d1); split; intros; try lia; try discriminate; reflexivity.
Qed.


(** A number never prints with a leading zero, except 0 itself. *)
Lemma decimalFuel_head (fuel : nat) (n : Z) (acc : string) :
  0 < n < 2 ^ Z.of_nat fuel ->
  exists c rest, decimalFuel fuel n acc = String c rest /\ c <> "0"%char.
Proof.
  revert n acc. induction fuel as [|fuel IH]; intros n acc H.
  - cbn in H. lia.
  - rewrite Nat2Z.inj_succ, Z.pow_succ_r in H by lia.
    destruct (Z_lt_le_dec n 10) as [Hs | Hb].
    + rewrite decimalFuel_lt10 by lia. eexists _, _. split; [reflexivity|].
      intros E. destruct (digitChar_ok n ltac:(lia)) as [_ V].
      rewrite E in V. cbv in V. lia.
    + rewrite decimalFuel_ge10 by lia. apply IH.
      Z.to_euclidean_division_equations; lia.
Qed.

Lemma Number_toString_head (y : Z) :
  exists c rest,
    Number_toString (Some y) = String c rest /\ (c = "0"%char -> rest = "").
Proof.
  unfold Number_toString. destruct (y <? 0) eqn:E.
  - eexists _, _. split; [reflexivity|]. discriminate.
  - apply Z.ltb_ge in E. destruct (Z.eq_dec y 0) as [-> | Hne].
    + exists "0"%char, "". split; reflexivity.
    + destruct (decimalFuel_head (S (Z.to_nat (Z.log2 y))) y "") as (c & rest & Hd & Hc).
      { split; [lia|]. rewrite Nat2Z.inj_succ, Z2Nat.id by apply Z.log2_nonneg.
        apply Z.log2_spec. lia. }
      exists c, rest. split; [exact Hd | contradiction].
Qed.

(** A canonical date printed by [formatLocalDate] is of year 1000 or
    later: earlier years print with fewer than four digits. *)
Lemma formatted_four_digit (year : Z) (tail : string) (d : Z) :
  dayOf (Number_toString (Some year) +:+ String "-" tail) = Some d ->
  firstFourDigitDay <= d.
Proof.
  intros H. apply dayOf_civil in H as (y & mo & dd & _ & -> & T & _ & Hmo & Hdd).
  destruct (Number_toString_head year) as (c & rest & Hn & Hz).
  rewrite Hn in T.
  change (String c rest +:+ String "-" tail)
    with (String c (rest +:+ String "-" tail)) in T.
  inversion T as [c1 c2 c3 c4 c5 c6 c7 c8 D1 D2 D3 D4 D5 D6 D7 D8 Es Ey Em Ed].
  subst c1.
  assert (Hc : c <> "0"%char).
  { intros E. specialize (Hz E). subst rest.
    change ("" +:+ String "-" tail) with (String "-" tail) in *.
    match goal with
    | H0 : String c2 _ = String "-" tail |- _ => inversion H0; subst c2
    end.
    discriminate D2. }
  apply isDigit_inv in D1 as [R1 C1], D2 as [R2 _], D3 as [R3 _], D4 as [R4 _].
  assert (digitVal c <> 0).
  { intros E0. apply Hc. rewrite <- C1, E0. reflexivity. }
  pose proof (MakeDay_year_bounds y mo dd Hmo Hdd) as B.
  rewrite Ey, Em, Ed.
  pose proof (DayFromYear_mono 1000 y ltac:(lia)).
  unfold firstFourDigitDay. lia.
Qed.

End Days.

(** ** Hosts at a constant offset from UTC *)

Section FixedOffset.
Import ES ESFacts ESMonth.

Variable h : Host.
Variable o : Z.
Hypothesis o_range : - msPerDay < o < msPerDay.
Hypothesis o_const : forall t isUTC, LocalTZA h t isUTC = o.

Lemma LocalTime_fixed (t : Z) : LocalTime h t = t + o.
Proof. unfold LocalTime. now rewrite o_const. Qed.

Lemma UTC_fixed (t : Z) : UTC h t = t - o.
Proof. unfold UTC. now rewrite o_const. Qed.

Lemma midnight_in_range (d : Z) :
  DayFromYear 0 <= d <= lastCanonicalDay ->
  TimeClip (d * msPerDay - o) = Some (d * msPerDay - o).
Proof.
  unfold lastCanonicalDay, TimeClip, maxTime, msPerDay in *. intros H.
  change (DayFromYear 0) with (-719528) in H.
  change (DayFromYear 10000) with 2932897 in H.
  replace (Z.abs _ <=? _) with true; [reflexivity|].
  symmetry. apply Z.leb_le. lia.
Qed.

Lemma timeOnDay_midnight (day : Z) :
  timeOnDay h day "T00:00:00" = TimeClip (UTC h (MakeDate day 0)).
Proof. reflexivity. Qed.

Lemma parseDate_fixed (s : string) (d : Z) :
  dayOf s = Some d -> parseDate h s = Some (d * msPerDay - o).
Proof.
  intros H. pose proof (dayOf_range _ _ H) as R.
  apply dayOf_civil in H as (y & mo & dd & _ & -> & T & _ & Hmo & Hdd).
  unfold parseDate. apply Date_parse_format. unfold Date_parseFormat.
  rewrite (scanDate_text _ "T00:00:00" _ _ _ T). cbn [mbind option_bind].
  assert (V : validDate y mo dd = true).
  { unfold validDate.
    repeat (apply andb_true_intro; split); apply Z.leb_le; lia. }
  rewrite V, timeOnDay_midnight, UTC_fixed.
  unfold MakeDate. rewrite Z.add_0_r.
  now apply midnight_in_range.
Qed.

(** On such a host [diffDays] is the difference of the day numbers. *)
Lemma diffDays_fixed (s1 s2 : string) (d1 d2 : Z) :
  dayOf s1 = Some d1 -> dayOf s2 = Some d2 -> diffDays h s1 s2 = d2 - d1.
Proof.
  intros H1 H2. unfold diffDays.
  rewrite (parseDate_fixed _ _ H1), (parseDate_fixed _ _ H2).
  replace (d2 * msPerDay - o - (d1 * msPerDay - o)) with ((d2 - d1) * 86400000)
    by (unfold msPerDay; lia).
  apply Z.div_mul. discriminate.
Qed.

Lemma formatLocalDate_midnight (d : Z) :
  formatLocalDate h (Some (d * msPerDay - o)) = dateOfDay d.
Proof.
  unfold formatLocalDate, getFullYear, getMonth, getDate, dateOfDay.
  cbn [mbind option_bind]. rewrite LocalTime_fixed.
  now replace (d * msPerDay - o + o) with (d * msPerDay) by lia.
Qed.

(** On such a host [addDays] moves a canonical date by whole days; a
    result outside the range of time values is an invalid date. *)
Lemma addDays_fixed (s : string) (d n : Z) :
  dayOf s = Some d ->
  addDays h s n
  = match TimeClip ((d + n) * msPerDay - o) with
    | Some _ => dateOfDay (d + n)
    | None => "NaN-NaN-NaN"
    end.
Proof.
  intros H. unfold addDays. fold (parseDate h s). rewrite (parseDate_fixed _ _ H).
  unfold getDate, setDate. cbn [mbind option_bind].
  rewrite LocalTime_fixed.
  replace (d * msPerDay - o + o) with (d * msPerDay) by lia.
  rewrite MakeDay_fields, Day_midnight, TimeWithinDay_midnight, UTC_fixed.
  unfold MakeDate. rewrite Z.add_0_r.
  destruct (TimeClip ((d + n) * msPerDay - o)) as [t|] eqn:E; [|reflexivity].
  unfold TimeClip in E. destruct (Z.abs _ <=? maxTime); [|discriminate].
  inversion E; subst t. apply formatLocalDate_midnight.
Qed.

Lemma addDays_canonical (s : string) (d n : Z) :
  dayOf s = Some d -> DayFromYear 0 <= d + n <= lastCanonicalDay ->
  addDays h s n = dateOfDay (d + n).
Proof.
  intros H R. rewrite (addDays_fixed _ _ n H).
  now rewrite (midnight_in_range _ R).
Qed.

End FixedOffset.

(** ** The scheduler *)

Section Scheduler.
Import ES ESFacts ESMonth.

Variable h : Host.

Lemma canonicalForm_nonempty (s : string) :
  canonicalForm s -> String.eqb s "" = false.
Proof. destruct s; [discriminate | reflexivity]. Qed.

Lemma normalizeDate_canonical (s : string) :
  canonicalForm s -> normalizeDate h (Some s) = s.
Proof.
  intros H. unfold normalizeDate.
  rewrite (canonicalForm_nonempty s H). unfold canonicalForm in H. now rewrite H.
Qed.

Lemma truthy_canonical (s : string) : canonicalForm s -> truthy (Some s) = true.
Proof. intros H. unfold truthy. now rewrite (canonicalForm_nonempty s H). Qed.

(** The body of [calculateNextDueDate] once the guards on the cadence
    and on the presence of the last check-in are passed. *)
Lemma nextDue_unfold (anchor last : string) (p : Z) :
  canonicalForm anchor -> canonicalForm last -> 0 < p ->
  calculateNextDueDate h anchor (Num p) (Some last)
  = let elapsed := diffDays h anchor last in
    if elapsed <? 0 then anchor
    else if Z.rem elapsed p =? 0 then addDays h last p
    else addDays h anchor ((elapsed / p + 1) * p).
Proof.
  intros Ha Hl Hp. unfold calculateNextDueDate.
  rewrite (normalizeDate_canonical _ Ha), (normalizeDate_canonical _ Hl).
  rewrite (truthy_canonical _ Hl). cbn [Number_isFinite number_le0 negb orb].
  now replace (p <=? 0) with false by (symmetry; apply Z.leb_gt; lia).
Qed.

(** The guard of both functions: a cadence that is not finite or not
    positive. *)
Lemma notPositive_guard (cadence : number) :
  notPositive cadence ->
  negb (Number_isFinite cadence) || number_le0 cadence = true.
Proof.
  destruct cadence as [z|q| | |]; cbn; intros H; try reflexivity;
    apply Z.leb_le; exact H.
Qed.

Lemma nextDue_disabled (anchor : string) (cadence : number) (last : option string) :
  canonicalForm anchor -> notPositive cadence ->
  calculateNextDueDate h anchor cadence last = anchor.
Proof.
  intros Ha Hc. unfold calculateNextDueDate.
  rewrite (normalizeDate_canonical _ Ha).
  now rewrite (notPositive_guard _ Hc).
Qed.

Lemma missedCount_disabled (nextDue : string) (cadence : number) (ref : option string) :
  notPositive cadence -> calculateMissedCount h nextDue cadence ref = 0.
Proof.
  intros Hc. unfold calculateMissedCount.
  destruct (String.eqb nextDue ""); [reflexivity|]. cbn [orb].
  now rewrite (notPositive_guard _ Hc).
Qed.

Lemma missedCount_unfold (nextDue ref : string) (p : Z) :
  nextDue <> "" -> 0 < p ->
  calculateMissedCount h nextDue (Num p) (Some ref)
  = let daysLate := diffDays h nextDue ref in
    if daysLate <=? 0 then 0 else (daysLate - 1) / p + 1.
Proof.
  intros Hn Hp. unfold calculateMissedCount. cbn [default].
  apply String.eqb_neq in Hn. rewrite Hn. cbn [Number_isFinite number_le0 negb orb].
  now replace (p <=? 0) with false by (symmetry; apply Z.leb_gt; lia).
Qed.



(** A canonical date printed by [formatLocalDate], today's for one, is
    of year 1000 or later. *)
Lemma formatLocalDate_four_digit (date : DateObj) (t : Z) :
  dayOf (formatLocalDate h date) = Some t -> firstFourDigitDay <= t.
Proof.
  destruct date as [tv|]; [|discriminate].
  unfold formatLocalDate, getFullYear. cbn [mbind option_bind].
  apply formatted_four_digit.
Qed.

End Scheduler.

Section SchedulerFixed.
Import ES ESFacts ESMonth.

Variable h : Host.
Hypothesis fixed : fixedOffset h.

(** On a host at a constant offset, when the later of the anchor and the
    last check-in is in year 1000 or later and the dates stay canonical,
    the next due date is the first point of the anchor's grid after the
    last check-in. *)
Lemma nextDue_fixed (anchor last : string) (p a l : Z) :
  dayOf anchor = Some a -> dayOf last = Some l -> 0 < p ->
  firstFourDigitDay <= Z.max a l -> (a <= l -> l + p <= lastCanonicalDay) ->
  exists n,
    0 <= n /\ l < a + n * p /\ (a <= l -> a + n * p <= l + p)
    /\ (l < a -> n = 0)
    /\ calculateNextDueDate h anchor (Num p) (Some last) = addDays h anchor (n * p)
    /\ dayOf (calculateNextDueDate h anchor (Num p) (Some last)) = Some (a + n * p).
Proof.
  intros Ha Hl Hp Hfirst Hlast.
  destruct fixed as (o & Ho & Hc).
  pose proof (dayOf_range _ _ Ha) as Ra. pose proof (dayOf_range _ _ Hl) as Rl.
  assert (F0 : DayFromYear 0 <= firstFourDigitDay) by (vm_compute; discriminate).
  rewrite nextDue_unfold
    by (try apply canonicalDate_form; try (eexists; eassumption); assumption).
  cbv zeta. rewrite (diffDays_fixed h o Ho Hc _ _ _ _ Ha Hl).
  destruct (l - a <? 0) eqn:E; Zbool.
  - exists 0. rewrite Z.mul_0_l, Z.add_0_r.
    rewrite (addDays_canonical h o Ho Hc _ _ 0 Ha) by lia.
    rewrite Z.add_0_r, (dateOfDay_dayOf _ _ Ha) by lia.
    repeat split; try lia; assumption.
  - rewrite Z.rem_mod_nonneg by lia.
    pose proof (Z.div_mod (l - a) p ltac:(lia)) as Hdm.
    pose proof (Z.mod_pos_bound (l - a) p Hp) as Hm.
    exists ((l - a) / p + 1).
    assert (0 <= (l - a) / p) by (apply Z.div_pos; lia).
    destruct ((l - a) mod p =? 0) eqn:E2; Zbool.
    + rewrite (addDays_canonical h o Ho Hc _ _ p Hl) by lia.
      rewrite (addDays_canonical h o Ho Hc _ _ _ Ha) by nia.
      replace (a + ((l - a) / p + 1) * p) with (l + p) by nia.
      rewrite dayOf_dateOfDay by lia.
      repeat split; try lia; reflexivity.
    + rewrite (addDays_canonical h o Ho Hc _ _ _ Ha) by nia.
      rewrite dayOf_dateOfDay by nia.
      repeat split; try nia; reflexivity.
Qed.

End SchedulerFixed.

(** ** Sorting and slicing *)

Section Sorting.

Context {A : Type}.
Variable cmp : A -> A -> Z.
Hypothesis cmp_total : forall a b, cmp a b <= 0 \/ cmp b a <= 0.

Lemma insertBy_perm (x : A) (l : list A) : Permutation (insertBy cmp x l) (x :: l).
Proof.
  induction l as [|y l IH]; cbn; [reflexivity|].
  destruct (cmp x y <=? 0); [reflexivity|].
  rewrite IH. apply perm_swap.
Qed.

Lemma Array_sort_perm (l : list A) : Permutation (Array_sort cmp l) l.
Proof.
  induction l as [|x l IH]; cbn; [reflexivity|].
  rewrite insertBy_perm. now constructor.
Qed.

Lemma insertBy_hd (x z : A) (l : list A) :
  cmp z x <= 0 ->
  HdRel (fun a b => cmp a b <= 0) z l ->
  HdRel (fun a b => cmp a b <= 0) z (insertBy cmp x l).
Proof.
  intros Hzx Hz. destruct l as [|y l]; cbn; [now constructor|].
  destruct (cmp x y <=? 0); constructor; [assumption|].
  now inversion Hz.
Qed.

Lemma insertBy_sorted (x : A) (l : list A) :
  Sorted (fun a b => cmp a b <= 0) l ->
  Sorted (fun a b => cmp a b <= 0) (insertBy cmp x l).
Proof.
  induction 1 as [|y l Hs IH Hy]; cbn; [repeat constructor|].
  destruct (cmp x y <=? 0) eqn:E.
  - apply Z.leb_le in E. repeat constructor; assumption.
  - apply Z.leb_gt in E. constructor; [assumption|].
    apply insertBy_hd; [|assumption].
    destruct (cmp_total y x); [assumption | lia].
Qed.

Lemma Array_sort_sorted (l : list A) :
  Sorted (fun a b => cmp a b <= 0) (Array_sort cmp l).
Proof.
  induction l as [|x l IH]; cbn; [constructor|]. now apply insertBy_sorted.
Qed.

Lemma Array_slice0_firstn (l : list A) (n : Z) :
  0 <= n -> Array_slice0 l n = firstn (Z.to_nat n) l.
Proof.
  intros Hn. unfold Array_slice0.
  replace (n <? 0) with false by (symmetry; apply Z.ltb_ge; lia).
  destruct (Z.min_spec n (Z.of_nat (length l))) as [[_ ->] | [Hle ->]];
    [reflexivity|].
  rewrite Nat2Z.id, firstn_all. symmetry. apply firstn_all2. lia.
Qed.

End Sorting.

(** Strings are totally ordered by code units, and [localeCompare] is
    not positive exactly when the first string is not after the second. *)
Lemma localeCompare_le (a b : string) :
  localeCompare a b <= 0 <-> str_le a b = true.
Proof.
  unfold localeCompare, str_le, String.leb.
  destruct (String.compare a b); split; intros; try lia; try discriminate; reflexivity.
Qed.

Lemma localeCompare_total (a b : string) :
  localeCompare a b <= 0 \/ localeCompare b a <= 0.
Proof.
  rewrite !localeCompare_le. apply String.leb_total.
Qed.

Lemma sort_by_key_sorted {A : Type} (key : A -> string) (l : list A) :
  Sorted (fun a b => str_le (key a) (key b) = true)
         (Array_sort (fun a b => localeCompare (key a) (key b)) l).
Proof.
  eapply Sorted_ind with
    (P := fun l => Sorted (fun a b => str_le (key a) (key b) = true) l)
    (l := Array_sort (fun a b => localeCompare (key a) (key b)) l).
  - constructor.
  - intros a l' _ IH Hd. constructor; [assumption|].
    destruct Hd as [|b l'' Hab]; constructor. apply localeCompare_le. exact Hab.
  - apply Array_sort_sorted. intros a b. apply localeCompare_total.
Qed.

Lemma str_le_trans (a b c : string) :
  str_le a b = true -> str_le b c = true -> str_le a c = true.
Proof.
  unfold str_le, String.leb. revert b c.
  induction a as [|x a IH]; intros [|y b] [|z c]; cbn;
    try reflexivity; try discriminate.
  unfold Ascii.compare.
  destruct (N.compare_spec (N_of_ascii x) (N_of_ascii y));
    destruct (N.compare_spec (N_of_ascii y) (N_of_ascii z));
    destruct (N.compare_spec (N_of_ascii x) (N_of_ascii z));
    try reflexivity; try discriminate; try lia.
  apply IH.
Qed.

Lemma sort_by_key_strongly_sorted {A : Type} (key : A -> string) (l : list A) :
  StronglySorted (fun a b => str_le (key a) (key b) = true)
                 (Array_sort (fun a b => localeCompare (key a) (key b)) l).
Proof.
  apply Sorted_StronglySorted; [|apply sort_by_key_sorted].
  intros a b c. apply str_le_trans.
Qed.

(** ** The record store *)

Section StoreFacts.

Variable h : Host.

Lemma getSchedule_lookup (db : DB) (teamId : Z) (s : schedule) :
  checkin_schedules db !! teamId = Some s -> start_date s <> "" ->
  exists v,
    getSchedule h db teamId = Some v
    /\ view_start_date v = start_date s
    /\ view_cadence_days v = cadence_days s
    /\ view_next_due v
       = calculateNextDueDate h (start_date s) (cadence_days s)
           (getLastTeamCheckinDate h db teamId)
    /\ view_missed_count v
       = calculateMissedCount h (view_next_due v) (cadence_days s) None.
Proof.
  intros Hs Hne. unfold getSchedule. rewrite Hs. cbn [mbind option_bind].
  assert (Ht : truthy (Some (start_date s)) = true).
  { unfold truthy. apply String.eqb_neq in Hne. now rewrite Hne. }
  cbv zeta. rewrite !Ht.
  eexists. split; [reflexivity|]. cbn [view_start_date view_cadence_days view_next_due view_missed_count].
  repeat split; reflexivity.
Qed.

Lemma upsertSchedule_insert (db : DB) (teamId : Z) (cadence : number)
    (start : option string) :
  checkin_schedules db !! teamId = None ->
  (upsertSchedule h db teamId cadence start).2 = normalizeDate h start
  /\ next_due <$> checkin_schedules (upsertSchedule h db teamId cadence start).1 !! teamId
     = Some (normalizeDate h start).
Proof.
  intros Hn. unfold upsertSchedule. rewrite Hn. cbn.
  split; [reflexivity|]. now rewrite lookup_insert_eq.
Qed.

Lemma upsertSchedule_update (db : DB) (teamId : Z) (cadence : number)
    (start : option string) (existing : schedule) :
  checkin_schedules db !! teamId = Some existing ->
  let recomputed :=
    calculateNextDueDate h (normalizeDate h start) cadence
      (getLastTeamCheckinDate h db teamId) in
  (upsertSchedule h db teamId cadence start).2 = recomputed
  /\ next_due <$> checkin_schedules (upsertSchedule h db teamId cadence start).1 !! teamId
     = Some recomputed.
Proof.
  intros Hs. unfold upsertSchedule. rewrite Hs. cbn.
  split; [reflexivity|]. now rewrite lookup_insert_eq.
Qed.

(** What [createCheckin] persists and returns for a team with a
    schedule. *)
Lemma createCheckin_scheduled (db : DB) (teamId personId : Z) (rating_ : number)
    (notes_ : option string) (s : schedule) :
  checkin_schedules db !! teamId = Some s -> start_date s <> "" ->
  let nextDue :=
    calculateNextDueDate h (start_date s) (cadence_days s) (Some (today h)) in
  (createCheckin h db teamId personId rating_ notes_).2 = Some nextDue
  /\ next_due <$> checkin_schedules (createCheckin h db teamId personId rating_ notes_).1
                    !! teamId
     = Some nextDue.
Proof.
  intros Hs Hne. unfold createCheckin.
  match goal with
  | |- context [getSchedule h ?db1 teamId] =>
      destruct (getSchedule_lookup db1 teamId s Hs Hne) as (v & -> & Hsd & Hcd & _)
  end.
  cbn. rewrite Hsd, Hcd. split; [reflexivity|].
  now rewrite lookup_alter_eq, Hs.
Qed.

End StoreFacts.

(** * The claims *)

(** ** Next due date *)

(** C1. For an anchor in canonical form, a positive integer period and a
    present last activity in canonical form with
    [elapsed = diffDays anchor last >= 0]: when [elapsed] is a multiple
    of the period (zero included) the next due date is
    [addDays last period]; otherwise it is [addDays anchor (k * period)]
    with [k = floor (elapsed / period) + 1]. *)
Theorem nextDueDate_branches (h : Host) (anchor last : string) (p : Z) :
  canonicalForm anchor -> canonicalForm last -> 0 < p ->
  0 <= diffDays h anchor last ->
  let elapsed := diffDays h anchor last in
  ((p | elapsed) ->
     calculateNextDueDate h anchor (Num p) (Some last) = addDays h last p)
  /\ (~ (p | elapsed) ->
     calculateNextDueDate h anchor (Num p) (Some last)
     = addDays h anchor ((elapsed / p + 1) * p)).
Proof.
  intros Ha Hl Hp He elapsed. rewrite nextDue_unfold by assumption.
  cbv zeta. fold elapsed.
  replace (elapsed <? 0) with false by (symmetry; apply Z.ltb_ge; exact He).
  rewrite Z.rem_mod_nonneg by (assumption || lia).
  destruct (elapsed mod p =? 0) eqn:E.
  - apply Z.eqb_eq in E. split; [reflexivity|].
    intros Hn. exfalso. apply Hn. apply Z.mod_divide; [lia | exact E].
  - apply Z.eqb_neq in E. split; [|reflexivity].
    intros Hd. exfalso. apply E. apply Z.mod_divide; [lia | exact Hd].
Qed.

Lemma nextDueDate_branches_witness :
  canonicalForm "2024-01-01" /\ canonicalForm "2024-01-10" /\ 0 < 7
  /\ 0 <= diffDays utcHost "2024-01-01" "2024-01-10"
  /\ calculateNextDueDate utcHost "2024-01-01" (Num 7) (Some "2024-01-10")
     = addDays utcHost "2024-01-01"
         ((diffDays utcHost "2024-01-01" "2024-01-10" / 7 + 1) * 7).
Proof.
  assert (H1 : canonicalForm "2024-01-01") by reflexivity.
  assert (H2 : canonicalForm "2024-01-10") by reflexivity.
  assert (H3 : 0 < 7) by reflexivity.
  assert (H4 : 0 <= diffDays utcHost "2024-01-01" "2024-01-10")
    by (vm_compute; discriminate).
  split; [exact H1|]. split; [exact H2|]. split; [exact H3|]. split; [exact H4|].
  apply (proj2 (nextDueDate_branches utcHost "2024-01-01" "2024-01-10" 7 H1 H2 H3 H4)).
  intros [k Hk].
  change (diffDays utcHost "2024-01-01" "2024-01-10") with 9 in Hk. lia.
Defined.

(** C2, as amended. On a host at a constant offset from UTC, for a
    canonical anchor date, a positive integer period and a present
    canonical last activity, when the later of the two dates is in year
    1000 or later and, the last activity being not before the anchor,
    last activity plus one period is not after 9999-12-31: the next due
    date is a canonical date strictly greater than the last activity, and
    it is the anchor moved by [n] periods for some non-negative
    integer [n]. *)
Theorem nextDueDate_after_last (h : Host) (anchor last : string) (p a l : Z) :
  fixedOffset h ->
  dayOf anchor = Some a -> dayOf last = Some l -> 0 < p ->
  firstFourDigitDay <= Z.max a l -> (a <= l -> l + p <= lastCanonicalDay) ->
  let next := calculateNextDueDate h anchor (Num p) (Some last) in
  str_gt next last = true
  /\ exists n, 0 <= n /\ next = addDays h anchor (n * p)
               /\ dayOf next = Some (a + n * p) /\ l < a + n * p.
Proof.
  intros F Ha Hl Hp Hfirst Hlast next.
  destruct (nextDue_fixed h F anchor last p a l Ha Hl Hp Hfirst Hlast)
    as (n & Hn & Hgt & _ & _ & Hadd & Hday).
  fold next in Hadd, Hday. split.
  - apply (str_gt_dayOf _ _ _ _ Hday Hl). exact Hgt.
  - exists n. repeat split; assumption.
Qed.

Lemma nextDueDate_after_last_witness :
  fixedOffset utcHost
  /\ dayOf "2024-01-01" = Some 19723 /\ dayOf "2024-01-10" = Some 19732
  /\ (let next :=
        calculateNextDueDate utcHost "2024-01-01" (Num 7) (Some "2024-01-10") in
      str_gt next "2024-01-10" = true
      /\ exists n, 0 <= n /\ next = addDays utcHost "2024-01-01" (n * 7)
                   /\ dayOf next = Some (19723 + n * 7) /\ 19732 < 19723 + n * 7).
Proof.
  assert (F : fixedOffset utcHost).
  { exists 0. split; [split; reflexivity | intros; reflexivity]. }
  assert (Ha : dayOf "2024-01-01" = Some 19723) by reflexivity.
  assert (Hl : dayOf "2024-01-10" = Some 19732) by reflexivity.
  assert (Hp : 0 < 7) by reflexivity.
  assert (Hfirst : firstFourDigitDay <= Z.max 19723 19732)
    by (vm_compute; discriminate).
  assert (Hlast : 19723 <= 19732 -> 19732 + 7 <= lastCanonicalDay)
    by (intros _; vm_compute; discriminate).
  split; [exact F|]. split; [exact Ha|]. split; [exact Hl|].
  exact (nextDueDate_after_last utcHost "2024-01-01" "2024-01-10" 7 19723 19732
           F Ha Hl Hp Hfirst Hlast).
Defined.

(** C2 fails as stated. With a period of three million days the next due
    date is in year 10237: its text is not a canonical date and is not
    greater than the last activity. With a period of 10^9 days the date
    is outside the range of time values and the result is "NaN-NaN-NaN",
    which is not a date. With the anchor in year 0 the year prints
    without padding, and the text is not greater than the last activity
    either. *)
Lemma nextDueDate_after_last_counterexample :
  (canonicalDate "2024-01-01" /\ canonicalDate "0000-01-01")
  /\ (calculateNextDueDate utcHost "2024-01-01" (Num 3000000) (Some "2024-01-01")
       = "10237-09-21"
      /\ str_gt "10237-09-21" "2024-01-01" = false
      /\ dayOf "10237-09-21" = None)
  /\ (calculateNextDueDate utcHost "2024-01-01" (Num 1000000000) (Some "2024-01-01")
       = "NaN-NaN-NaN"
      /\ dayOf "NaN-NaN-NaN" = None)
  /\ (calculateNextDueDate utcHost "0000-01-01" (Num 7) (Some "0000-01-01")
       = "0-01-08"
      /\ str_gt "0-01-08" "0000-01-01" = false
      /\ dayOf "0-01-08" = None).
Proof.
  split; [split; eexists; reflexivity|]. repeat split; reflexivity.
Qed.

(** C7, as amended. On a host at a constant offset from UTC, for a
    canonical anchor date from year 1000 on and a positive integer period
    such that anchor plus one period is not after 9999-12-31:
    [diffDays anchor (nextDueDate anchor period anchor) = period]. *)
Theorem roll_forward_one_period (h : Host) (anchor : string) (p a : Z) :
  fixedOffset h ->
  dayOf anchor = Some a -> 0 < p ->
  firstFourDigitDay <= a -> a + p <= lastCanonicalDay ->
  diffDays h anchor (calculateNextDueDate h anchor (Num p) (Some anchor)) = p.
Proof.
  intros F Ha Hp Hfirst Hlast.
  assert (Hmax : firstFourDigitDay <= Z.max a a) by lia.
  destruct (nextDue_fixed h F anchor anchor p a a Ha Ha Hp Hmax (fun _ => Hlast))
    as (n & Hn & Hgt & Hle & _ & _ & Hday).
  destruct F as (o & Ho & Hc).
  rewrite (diffDays_fixed h o Ho Hc _ _ _ _ Ha Hday).
  specialize (Hle (Z.le_refl a)).
  assert (n <> 0) by (intros ->; lia).
  assert (n < 2).
  { destruct (Z_lt_le_dec n 2) as [|H2]; [assumption|].
    assert (2 * p <= n * p) by (apply Z.mul_le_mono_nonneg_r; lia). lia. }
  replace n with 1 by lia. lia.
Qed.

Lemma roll_forward_one_period_witness :
  fixedOffset utcHost /\ dayOf "2024-01-01" = Some 19723 /\ 0 < 7
  /\ diffDays utcHost "2024-01-01"
       (calculateNextDueDate utcHost "2024-01-01" (Num 7) (Some "2024-01-01")) = 7.
Proof.
  assert (F : fixedOffset utcHost).
  { exists 0. split; [split; reflexivity | intros; reflexivity]. }
  assert (Ha : dayOf "2024-01-01" = Some 19723) by reflexivity.
  split; [exact F|]. split; [exact Ha|]. split; [reflexivity|].
  apply (roll_forward_one_period utcHost "2024-01-01" 7 19723 F Ha).
  - reflexivity.
  - vm_compute; discriminate.
  - vm_compute; discriminate.
Defined.

(** C7 fails as stated. With a period of 10^9 days the date is outside
    the range of time values: [addDays] returns "NaN-NaN-NaN", which does
    not parse, and [diffDays] gives 0. *)
Lemma roll_forward_one_period_counterexample :
  canonicalDate "2024-01-01" /\ 0 < 1000000000
  /\ calculateNextDueDate utcHost "2024-01-01" (Num 1000000000) (Some "2024-01-01")
     = "NaN-NaN-NaN"
  /\ diffDays utcHost "2024-01-01"
       (calculateNextDueDate utcHost "2024-01-01" (Num 1000000000) (Some "2024-01-01"))
     <> 1000000000.
Proof.
  repeat split; try reflexivity; [exists 19723; reflexivity | vm_compute; discriminate].
Qed.

(** C5 fails as stated. A period of 2.5 days is not a positive integer,
    yet the cadence is in force: the guard of [calculateNextDueDate] and
    [calculateMissedCount] tests [Number.isFinite] and [<= 0], which 2.5
    passes. One day after the anchor the next due date is the anchor plus
    2.5 days, cut by [setDate] to the third of the month, not the anchor;
    and six days after that date the missed count is 3, not 0. *)
Lemma disabled_cadence_counterexample :
  canonicalForm "2024-01-01"
  /\ notPositiveInteger (Frac (QArith_base.Qmake 5 2))
  /\ calculateNextDueDate utcHost "2024-01-01" (Frac (QArith_base.Qmake 5 2))
       (Some "2024-01-02") = "2024-01-03"
  /\ calculateNextDueDate utcHost "2024-01-01" (Frac (QArith_base.Qmake 5 2))
       (Some "2024-01-02") <> "2024-01-01"
  /\ calculateMissedCount utcHost
       (calculateNextDueDate utcHost "2024-01-01" (Frac (QArith_base.Qmake 5 2))
          (Some "2024-01-02"))
       (Frac (QArith_base.Qmake 5 2)) (Some "2024-01-09") = 3.
Proof.
  split; [reflexivity|]. split; [exact I|]. split; [reflexivity|].
  split; [|reflexivity]. vm_compute. discriminate.
Qed.

(** C5, as amended. For an anchor in canonical form and a period that is
    not a positive finite number (zero, negative, a negative fraction
    included, NaN, +Infinity or -Infinity), whatever the last activity
    and the reference date: the next due date is the anchor, unchanged,
    and the missed count of the resolved schedule is 0. *)
Theorem disabled_cadence (h : Host) (anchor : string) (cadence : number)
    (last reference : option string) :
  canonicalForm anchor -> notPositive cadence ->
  calculateNextDueDate h anchor cadence last = anchor
  /\ calculateMissedCount h (calculateNextDueDate h anchor cadence last)
       cadence reference = 0.
Proof.
  intros Ha Hc. split.
  - now apply nextDue_disabled.
  - now apply missedCount_disabled.
Qed.

Lemma disabled_cadence_witness :
  canonicalForm "2024-01-01" /\ notPositive (Frac (QArith_base.Qmake (-5) 2))
  /\ calculateNextDueDate utcHost "2024-01-01" (Frac (QArith_base.Qmake (-5) 2))
       (Some "2024-02-02")
     = "2024-01-01"
  /\ calculateMissedCount utcHost
       (calculateNextDueDate utcHost "2024-01-01" (Frac (QArith_base.Qmake (-5) 2))
          (Some "2024-02-02"))
       (Frac (QArith_base.Qmake (-5) 2)) (Some "2024-03-03") = 0.
Proof.
  assert (H1 : canonicalForm "2024-01-01") by reflexivity.
  assert (H2 : notPositive (Frac (QArith_base.Qmake (-5) 2))) by (cbn; lia).
  split; [exact H1|]. split; [exact H2|].
  exact (disabled_cadence utcHost "2024-01-01" (Frac (QArith_base.Qmake (-5) 2))
           (Some "2024-02-02") (Some "2024-03-03") H1 H2).
Defined.

(** ** Missed count *)

(** The formula of [calculateMissedCount], on every host. *)
Lemma missedCount_formula (h : Host) (nextDue reference : string) (p : Z) :
  canonicalForm nextDue -> 0 < p ->
  let daysLate := diffDays h nextDue reference in
  (daysLate <= 0 -> calculateMissedCount h nextDue (Num p) (Some reference) = 0)
  /\ (0 < daysLate ->
      calculateMissedCount h nextDue (Num p) (Some reference)
      = (daysLate - 1) / p + 1).
Proof.
  intros Hn Hp daysLate.
  assert (Hne : nextDue <> "").
  { intros ->. discriminate Hn. }
  rewrite (missedCount_unfold h _ _ _ Hne Hp). cbv zeta. fold daysLate.
  split; intros H.
  - now replace (daysLate <=? 0) with true by (symmetry; apply Z.leb_le; lia).
  - now replace (daysLate <=? 0) with false by (symmetry; apply Z.leb_gt; lia).
Qed.

(** On a host at a constant offset from UTC the weekly boundary cases
    hold for canonical dates. *)
Lemma missedCount_weekly_boundary (h : Host) (nextDue reference : string) (d k : Z) :
  fixedOffset h -> dayOf nextDue = Some d -> dayOf reference = Some (d + k) ->
  (k = 0 -> calculateMissedCount h nextDue (Num 7) (Some reference) = 0)
  /\ (k = 1 -> calculateMissedCount h nextDue (Num 7) (Some reference) = 1)
  /\ (k = 7 -> calculateMissedCount h nextDue (Num 7) (Some reference) = 1)
  /\ (k = 8 -> calculateMissedCount h nextDue (Num 7) (Some reference) = 2).
Proof.
  intros (o & Ho & Hc) Hn Hr.
  assert (Hf : canonicalForm nextDue) by (apply canonicalDate_form; now exists d).
  destruct (missedCount_formula h nextDue reference 7 Hf ltac:(lia)) as [H0 H1].
  cbv zeta in H0, H1.
  rewrite (diffDays_fixed h o Ho Hc _ _ _ _ Hn Hr) in H0, H1.
  replace (d + k - d) with k in H0, H1 by lia.
  repeat split; intros ->; first [apply H0; lia | rewrite H1 by lia; reflexivity].
Qed.

(** C3 at a spring-forward date. In US Eastern time 2024-03-10 has 23
    hours: its midnight is 05:00 UTC and the next midnight 04:00 UTC.
    The reference date one day after the due date is 0 whole days late,
    and the missed count is 0 where the claim has 1. *)
Theorem missedCount_spring_forward :
  addDays easternHost "2024-03-10" 1 = "2024-03-11"
  /\ parseDate easternHost "2024-03-10" = Some 1710046800000
  /\ parseDate easternHost "2024-03-11" = Some 1710129600000
  /\ diffDays easternHost "2024-03-10" "2024-03-11" = 0
  /\ calculateMissedCount easternHost "2024-03-10" (Num 7) (Some "2024-03-11") = 0.
Proof. repeat split; reflexivity. Qed.

(** The same transition breaks the roll-forward identity and the
    position of the next due date after the last check-in. *)
Lemma nextDue_spring_forward :
  diffDays easternHost "2024-03-04"
    (calculateNextDueDate easternHost "2024-03-04" (Num 7) (Some "2024-03-04")) = 6
  /\ calculateNextDueDate easternHost "2024-03-04" (Num 7) (Some "2024-03-11")
     = "2024-03-11".
Proof. split; reflexivity. Qed.

(** ** Reading a schedule *)

(** C4, as amended. For a stored schedule row with a non-empty start
    date, the next due date and the missed count that [getSchedule]
    returns are determined by the stored start date, the stored cadence
    length, the team's latest check-in date and the host's current date:
    two stores that agree on these return the same pair, whatever their
    stored [next_due]. *)
Theorem getSchedule_ignores_next_due (h : Host) (db1 db2 : DB) (teamId : Z)
    (s1 s2 : schedule) :
  checkin_schedules db1 !! teamId = Some s1 ->
  checkin_schedules db2 !! teamId = Some s2 ->
  start_date s1 <> "" ->
  start_date s1 = start_date s2 ->
  cadence_days s1 = cadence_days s2 ->
  getLastTeamCheckinDate h db1 teamId = getLastTeamCheckinDate h db2 teamId ->
  exists v1 v2,
    getSchedule h db1 teamId = Some v1 /\ getSchedule h db2 teamId = Some v2
    /\ view_next_due v1 = view_next_due v2
    /\ view_missed_count v1 = view_missed_count v2.
Proof.
  intros H1 H2 Hne Hs Hc Hl.
  destruct (getSchedule_lookup h db1 teamId s1 H1 Hne) as (v1 & G1 & _ & _ & N1 & M1).
  assert (Hne2 : start_date s2 <> "") by (now rewrite <- Hs).
  destruct (getSchedule_lookup h db2 teamId s2 H2 Hne2) as (v2 & G2 & _ & _ & N2 & M2).
  exists v1, v2. split; [exact G1|]. split; [exact G2|].
  assert (N : view_next_due v1 = view_next_due v2)
    by (rewrite N1, N2, Hs, Hc, Hl; reflexivity).
  split; [exact N|]. now rewrite M1, M2, N, Hc.
Qed.

Lemma getSchedule_ignores_next_due_witness :
  exists v1 v2,
    getSchedule utcHost weeklyStore 1 = Some v1
    /\ getSchedule utcHost
         (withSchedule emptyStore 1 (scheduleRow 7 "2024-01-01" "1999-09-09")) 1
       = Some v2
    /\ view_next_due v1 = view_next_due v2
    /\ view_missed_count v1 = view_missed_count v2.
Proof.
  apply (getSchedule_ignores_next_due utcHost weeklyStore
           (withSchedule emptyStore 1 (scheduleRow 7 "2024-01-01" "1999-09-09")) 1
           (scheduleRow 7 "2024-01-01" "2024-01-01")
           (scheduleRow 7 "2024-01-01" "1999-09-09")).
  - reflexivity.
  - reflexivity.
  - discriminate.
  - reflexivity.
  - reflexivity.
  - reflexivity.
Defined.

(** Two stores that differ only in the stored [next_due] of a row
    without a start date: [getSchedule] falls back on [next_due], and
    both the next due date and the missed count differ. *)
Lemma getSchedule_ignores_next_due_counterexample :
  (view_next_due <$> getSchedule utcHost (legacyStore "2024-01-01") 1) = Some "2024-01-01"
  /\ (view_next_due <$> getSchedule utcHost (legacyStore "2024-02-01") 1) = Some "2024-02-01"
  /\ (view_missed_count <$> getSchedule utcHost (legacyStore "2024-01-01") 1) = Some 22
  /\ (view_missed_count <$> getSchedule utcHost (legacyStore "2024-02-01") 1) = Some 18.
Proof. repeat split; reflexivity. Qed.

(** ** Writing a schedule *)

(** C9. For a team without a schedule row, [upsertSchedule] inserts a
    row whose [next_due] is the normalized start date and returns that
    date, without regard to the team's earlier check-ins, also when the
    next due date recomputed from them is another date; when a row
    exists, it stores and returns the recomputed next due date. *)
Theorem upsertSchedule_insert_and_update :
  (forall (h : Host) (db : DB) (teamId : Z) (cadence : number) (start : option string),
     let result := upsertSchedule h db teamId cadence start in
     let recomputed :=
       calculateNextDueDate h (normalizeDate h start) cadence
         (getLastTeamCheckinDate h db teamId) in
     (checkin_schedules db !! teamId = None ->
        result.2 = normalizeDate h start
        /\ next_due <$> checkin_schedules result.1 !! teamId
           = Some (normalizeDate h start))
     /\ (is_Some (checkin_schedules db !! teamId) ->
        result.2 = recomputed
        /\ next_due <$> checkin_schedules result.1 !! teamId = Some recomputed))
  /\ (checkin_schedules checkedInStore !! 1 = None
      /\ (upsertSchedule utcHost checkedInStore 1 (Num 7) (Some "2024-01-01")).2
         = "2024-01-01"
      /\ calculateNextDueDate utcHost "2024-01-01" (Num 7)
           (getLastTeamCheckinDate utcHost checkedInStore 1) = "2024-01-15").
Proof.
  split.
  - intros h db teamId cadence start; cbv zeta. split.
    + apply upsertSchedule_insert.
    + intros [existing He]. now apply (upsertSchedule_update h db teamId cadence start existing).
  - repeat split; reflexivity.
Qed.

Lemma upsertSchedule_insert_and_update_witness :
  checkin_schedules checkedInStore !! 1 = None
  /\ is_Some (checkin_schedules weeklyStore !! 1)
  /\ next_due <$> checkin_schedules
       (upsertSchedule utcHost checkedInStore 1 (Num 7) (Some "2024-01-01")).1 !! 1
     = Some "2024-01-01"
  /\ (upsertSchedule utcHost (withCheckin weeklyStore 1 10 "2024-01-10T09:00:00.000Z")
        1 (Num 7) (Some "2024-01-01")).2
     = "2024-01-15".
Proof.
  assert (H1 : checkin_schedules checkedInStore !! 1 = None) by reflexivity.
  assert (H2 : is_Some (checkin_schedules weeklyStore !! 1)) by (eexists; reflexivity).
  split; [exact H1|]. split; [exact H2|]. split.
  - exact (proj2 (proj1 (proj1 upsertSchedule_insert_and_update utcHost checkedInStore
                           1 (Num 7) (Some "2024-01-01")) H1)).
  - exact (proj1 (proj2 (proj1 upsertSchedule_insert_and_update utcHost
                           (withCheckin weeklyStore 1 10 "2024-01-10T09:00:00.000Z")
                           1 (Num 7) (Some "2024-01-01")) H2)).
Defined.

(** ** Recording a check-in *)

(** C10, as amended. On a host at a constant offset from UTC whose
    current date is a canonical date, for a team whose schedule row has a
    canonical start date and a positive integer cadence such that today
    plus one cadence is not after 9999-12-31: [createCheckin] stores and
    returns a next due date that is a canonical date strictly greater
    than today. *)
Theorem createCheckin_next_due_future (h : Host) (db : DB)
    (teamId personId : Z) (rating_ : number) (notes_ : option string)
    (s : schedule) (p a t : Z) :
  fixedOffset h ->
  checkin_schedules db !! teamId = Some s ->
  dayOf (start_date s) = Some a -> cadence_days s = Num p -> 0 < p ->
  dayOf (today h) = Some t -> (a <= t -> t + p <= lastCanonicalDay) ->
  exists nextDue d,
    (createCheckin h db teamId personId rating_ notes_).2 = Some nextDue
    /\ next_due <$> checkin_schedules
                      (createCheckin h db teamId personId rating_ notes_).1 !! teamId
       = Some nextDue
    /\ str_gt nextDue (today h) = true
    /\ dayOf nextDue = Some d /\ t < d.
Proof.
  intros F Hs Ha Hc Hp Ht Hlast.
  assert (Hne : start_date s <> "").
  { intros E. rewrite E in Ha. discriminate Ha. }
  destruct (createCheckin_scheduled h db teamId personId rating_ notes_ s Hs Hne)
    as [Hr Hrow]; cbv zeta in Hr, Hrow.
  rewrite Hc in Hr, Hrow.
  assert (Hfirst : firstFourDigitDay <= Z.max a t).
  { pose proof (formatLocalDate_four_digit h _ _ Ht). lia. }
  destruct (nextDue_fixed h F (start_date s) (today h) p a t Ha Ht Hp Hfirst Hlast)
    as (n & _ & Hgt & _ & _ & _ & Hday).
  eexists _, _. split; [exact Hr|]. split; [exact Hrow|].
  split; [|split; [exact Hday | exact Hgt]].
  apply (str_gt_dayOf _ _ _ _ Hday Ht). exact Hgt.
Qed.

Lemma createCheckin_next_due_future_witness :
  fixedOffset utcHost
  /\ checkin_schedules weeklyStore !! 1 = Some (scheduleRow 7 "2024-01-01" "2024-01-01")
  /\ dayOf (today utcHost) = Some 19875
  /\ exists nextDue d,
       (createCheckin utcHost weeklyStore 1 10 (Num 4) None).2 = Some nextDue
       /\ next_due <$> checkin_schedules
                         (createCheckin utcHost weeklyStore 1 10 (Num 4) None).1 !! 1
          = Some nextDue
       /\ str_gt nextDue (today utcHost) = true
       /\ dayOf nextDue = Some d /\ 19875 < d.
Proof.
  assert (F : fixedOffset utcHost).
  { exists 0. split; [split; reflexivity | intros; reflexivity]. }
  assert (Hs : checkin_schedules weeklyStore !! 1
               = Some (scheduleRow 7 "2024-01-01" "2024-01-01")) by reflexivity.
  assert (Ht : dayOf (today utcHost) = Some 19875) by reflexivity.
  split; [exact F|]. split; [exact Hs|]. split; [exact Ht|].
  apply (createCheckin_next_due_future utcHost weeklyStore 1 10 (Num 4) None
           (scheduleRow 7 "2024-01-01" "2024-01-01") 7 19723 19875 F Hs).
  - reflexivity.
  - reflexivity.
  - reflexivity.
  - exact Ht.
  - intros _. vm_compute; discriminate.
Defined.

(** C10 fails as stated. With a cadence of three million days the stored
    next due date is in year 10237: its text is not greater than today's,
    and the team still counts as due. With a cadence of 10^9 days the
    stored value is "NaN-NaN-NaN", which is no date. *)
Lemma createCheckin_next_due_future_counterexample :
  today utcHost = "2024-06-01"
  /\ (checkin_schedules longCadenceStore !! 1
       = Some (scheduleRow 3000000 "2024-01-01" "2024-01-01")
      /\ next_due <$> checkin_schedules
                        (createCheckin utcHost longCadenceStore 1 10 (Num 4) None).1 !! 1
         = Some "10237-09-21"
      /\ str_gt "10237-09-21" (today utcHost) = false)
  /\ (next_due <$> checkin_schedules
                     (createCheckin utcHost
                        (withSchedule emptyStore 1
                           (scheduleRow 1000000000 "2024-01-01" "2024-01-01"))
                        1 10 (Num 4) None).1 !! 1
       = Some "NaN-NaN-NaN"
      /\ dayOf "NaN-NaN-NaN" = None).
Proof. repeat split; reflexivity. Qed.

(** After the spring-forward transition a weekly check-in recorded on
    the cadence boundary leaves the team due on the same day. *)
Lemma createCheckin_spring_forward :
  today easternHost = "2024-03-11"
  /\ next_due <$> checkin_schedules
                    (createCheckin easternHost marchStore 1 10 (Num 4) None).1 !! 1
     = Some "2024-03-11".
Proof. split; reflexivity. Qed.
(** * Further lemmas *)

(** ** Digits of fixed width *)

Lemma repeatChar_shift (j : nat) (c : ascii) (tail : string) :
  repeatChar j c +:+ String c tail = String c (repeatChar j c +:+ tail).
Proof.
  induction j as [|j IH]; [reflexivity|].
  cbn [repeatChar]. change (String c (repeatChar j c) +:+ String c tail)
    with (String c (repeatChar j c +:+ String c tail)).
  now rewrite IH.
Qed.

Lemma fixedDigits_app (n : nat) (v : Z) (s tail : string) :
  fixedDigits n v s +:+ tail = fixedDigits n v (s +:+ tail).
Proof.
  revert v s. induction n as [|n IH]; intros v s; cbn [fixedDigits]; [reflexivity|].
  now rewrite IH.
Qed.

Lemma fixedDigits_length (n : nat) (v : Z) (s : string) :
  String.length (fixedDigits n v s) = (n + String.length s)%nat.
Proof.
  revert v s. induction n as [|n IH]; intros v s; cbn [fixedDigits]; [reflexivity|].
  rewrite IH. cbn [String.length]. lia.
Qed.

Lemma pow10_succ (k : nat) : 10 ^ Z.of_nat (S k) = 10 * 10 ^ Z.of_nat k.
Proof. rewrite Nat2Z.inj_succ. apply Z.pow_succ_r. lia. Qed.

Lemma pow10_pos (k : nat) : 0 < 10 ^ Z.of_nat k.
Proof. apply Z.pow_pos_nonneg; lia. Qed.

Lemma fixedDigits_zero (j : nat) (tail : string) :
  fixedDigits j 0 tail = repeatChar j "0" +:+ tail.
Proof.
  revert tail. induction j as [|j IH]; intros tail; [reflexivity|].
  cbn [fixedDigits repeatChar]. rewrite IH.
  change (digitChar (0 mod 10)) with "0"%char.
  apply repeatChar_shift.
Qed.

(** Leading zeros: a number below [10 ^ k] printed on [k + j] digits. *)
Lemma fixedDigits_pad (k j : nat) (v : Z) (tail : string) :
  0 <= v < 10 ^ Z.of_nat k ->
  fixedDigits (j + k) v tail = repeatChar j "0" +:+ fixedDigits k v tail.
Proof.
  revert v tail. induction k as [|k IH]; intros v tail H.
  - change (10 ^ Z.of_nat 0) with 1 in H. replace v with 0 by lia.
    rewrite Nat.add_0_r. apply fixedDigits_zero.
  - rewrite pow10_succ in H.
    replace (j + S k)%nat with (S (j + k)) by lia. cbn [fixedDigits].
    apply IH. Z.to_euclidean_division_equations; lia.
Qed.

Lemma decimalFuel_fixed (k : nat) (fuel : nat) (v : Z) (acc : string) :
  (S k <= fuel)%nat -> 0 <= v < 10 ^ Z.of_nat (S k) ->
  (k = O \/ 10 ^ Z.of_nat k <= v) ->
  decimalFuel fuel v acc = fixedDigits (S k) v acc.
Proof.
  revert fuel v acc. induction k as [|k IH]; intros fuel v acc Hf Hv Hk.
  - change (10 ^ Z.of_nat 1) with 10 in Hv.
    destruct fuel as [|fuel]; [lia|].
    rewrite decimalFuel_lt10 by lia. cbn [fixedDigits].
    now rewrite Z.mod_small by lia.
  - destruct Hk as [Hk | Hk]; [discriminate|].
    rewrite pow10_succ in Hv.
    pose proof (pow10_succ k) as E. pose proof (pow10_pos k) as P.
    destruct fuel as [|fuel]; [lia|].
    rewrite decimalFuel_ge10 by lia.
    change (fixedDigits (S (S k)) v acc)
      with (fixedDigits (S k) (v / 10) (String (digitChar (v mod 10)) acc)).
    apply IH; [lia | |].
    + Z.to_euclidean_division_equations; lia.
    + right. Z.to_euclidean_division_equations; lia.
Qed.

Lemma digit_count (n : nat) (v : Z) :
  0 <= v < 10 ^ Z.of_nat (S n) ->
  exists k, (k <= n)%nat /\ v < 10 ^ Z.of_nat (S k)
            /\ (k = O \/ 10 ^ Z.of_nat k <= v).
Proof.
  induction n as [|n IH]; intros H.
  - exists O. repeat split; [lia | lia | now left].
  - destruct (Z_lt_le_dec v (10 ^ Z.of_nat (S n))) as [Hs | Hb].
    + destruct IH as (k & Hk & Hv & Hl); [lia|].
      exists k. repeat split; [lia | assumption | assumption].
    + exists (S n). repeat split; [lia | lia | now right].
Qed.

Lemma decimal_fixed (k : nat) (v : Z) :
  0 <= v < 10 ^ Z.of_nat (S k) -> (k = O \/ 10 ^ Z.of_nat k <= v) ->
  decimal v = fixedDigits (S k) v "".
Proof.
  intros Hv Hk. unfold decimal. apply decimalFuel_fixed; [|assumption|assumption].
  destruct Hk as [-> | Hk]; [lia|].
  assert (L : Z.of_nat k <= Z.log2 v).
  { pose proof (pow10_pos k).
    apply Z.log2_le_pow2; [lia|].
    transitivity (10 ^ Z.of_nat k); [|assumption].
    apply Z.pow_le_mono_l. lia. }
  lia.
Qed.

(** [String(v).padStart(n, "0")] for a number of at most [n] digits. *)
Lemma padStart_decimal (n : nat) (v : Z) :
  0 <= v < 10 ^ Z.of_nat (S n) ->
  padStart (decimal v) (S n) "0" = fixedDigits (S n) v "".
Proof.
  intros H. destruct (digit_count n v H) as (k & Hk & Hv & Hl).
  rewrite (decimal_fixed k v) by (try assumption; lia).
  unfold padStart. rewrite fixedDigits_length. cbn [String.length].
  replace (S n - (S k + 0))%nat with (n - k)%nat by lia.
  rewrite <- fixedDigits_pad by lia. f_equal. lia.
Qed.

Lemma scanDigits_fixed (k j : nat) (acc w : Z) (rest : string) :
  0 <= w < 10 ^ Z.of_nat k ->
  scanDigits (k + j) acc (fixedDigits k w rest)
  = scanDigits j (acc * 10 ^ Z.of_nat k + w) rest.
Proof.
  revert j acc w rest. induction k as [|k IH]; intros j acc w rest H.
  - change (10 ^ Z.of_nat 0) with 1 in *. cbn [fixedDigits Nat.add].
    f_equal. lia.
  - rewrite pow10_succ in *. cbn [fixedDigits].
    replace (S k + j)%nat with (k + S j)%nat by lia.
    rewrite IH by (Z.to_euclidean_division_equations; lia).
    cbn [scanDigits].
    assert (D : 0 <= w mod 10 <= 9) by (Z.to_euclidean_division_equations; lia).
    apply digitChar_ok in D as [D1 D2]. rewrite D1, D2.
    f_equal. Z.to_euclidean_division_equations; lia.
Qed.

Lemma scanDigits_fixed_all (k : nat) (w : Z) (rest : string) :
  0 <= w < 10 ^ Z.of_nat k ->
  scanDigits k 0 (fixedDigits k w rest) = Some (w, rest).
Proof.
  intros H. pose proof (scanDigits_fixed k 0 0 w rest H) as E.
  rewrite Nat.add_0_r in E. rewrite E. cbn [scanDigits]. f_equal.
Qed.

Lemma lex_digits (a b : Z) (c : comparison) :
  lex (a / 10 ?= b / 10) (lex (a mod 10 ?= b mod 10) c) = lex (a ?= b) c.
Proof.
  destruct (Z.compare_spec (a / 10) (b / 10)) as [E | E | E]; cbn [lex].
  - destruct (Z.compare_spec (a mod 10) (b mod 10)) as [E2 | E2 | E2]; cbn [lex].
    + replace (a ?= b) with Eq; [reflexivity|].
      symmetry. apply Z.compare_eq_iff. Z.to_euclidean_division_equations; lia.
    + replace (a ?= b) with Lt; [reflexivity|].
      symmetry. apply Z.compare_lt_iff. Z.to_euclidean_division_equations; lia.
    + replace (a ?= b) with Gt; [reflexivity|].
      symmetry. apply Z.compare_gt_iff. Z.to_euclidean_division_equations; lia.
  - replace (a ?= b) with Lt; [reflexivity|].
    symmetry. apply Z.compare_lt_iff. Z.to_euclidean_division_equations; lia.
  - replace (a ?= b) with Gt; [reflexivity|].
    symmetry. apply Z.compare_gt_iff. Z.to_euclidean_division_equations; lia.
Qed.

(** Texts of the same fixed width compare as the numbers do. *)
Lemma compare_fixed (n : nat) (a b : Z) (s1 s2 : string) :
  0 <= a < 10 ^ Z.of_nat n -> 0 <= b < 10 ^ Z.of_nat n ->
  String.compare (fixedDigits n a s1) (fixedDigits n b s2)
  = lex (a ?= b) (String.compare s1 s2).
Proof.
  revert a b s1 s2. induction n as [|n IH]; intros a b s1 s2 Ha Hb.
  - change (10 ^ Z.of_nat 0) with 1 in *. cbn [fixedDigits].
    replace a with 0 by lia. replace b with 0 by lia. reflexivity.
  - rewrite pow10_succ in *. cbn [fixedDigits].
    rewrite IH by (Z.to_euclidean_division_equations; lia).
    cbn [String.compare]. rewrite digit_compare.
    assert (Da : 0 <= a mod 10 <= 9) by (Z.to_euclidean_division_equations; lia).
    assert (Db : 0 <= b mod 10 <= 9) by (Z.to_euclidean_division_equations; lia).
    apply digitChar_ok in Da as [_ ->], Db as [_ ->].
    rewrite <- (lex_digits a b). unfold lex.
    destruct (a / 10 ?= b / 10); try reflexivity.
    now destruct (a mod 10 ?= b mod 10).
Qed.

(** ** Time stamps *)

Lemma lex_assoc (a b c : comparison) : lex (lex a b) c = lex a (lex b c).
Proof. now destruct a. Qed.

Lemma lex_Eq_r (a : comparison) : lex a Eq = a.
Proof. now destruct a. Qed.

Lemma lex_divmod (n a b : Z) :
  0 < n -> lex (a / n ?= b / n) (a mod n ?= b mod n) = (a ?= b).
Proof.
  intros Hn.
  pose proof (Z.div_mod a n ltac:(lia)) as Ea.
  pose proof (Z.div_mod b n ltac:(lia)) as Eb.
  pose proof (Z.mod_pos_bound a n Hn) as Ra.
  pose proof (Z.mod_pos_bound b n Hn) as Rb.
  destruct (Z.compare_spec (a / n) (b / n)) as [E | E | E]; cbn [lex].
  - rewrite E in Ea.
    destruct (Z.compare_spec (a mod n) (b mod n)) as [E2 | E2 | E2]; symmetry;
      [apply Z.compare_eq_iff | apply Z.compare_lt_iff | apply Z.compare_gt_iff]; lia.
  - symmetry. apply Z.compare_lt_iff. nia.
  - symmetry. apply Z.compare_gt_iff. nia.
Qed.

Section TimeStamps.
Import ES ESFacts ESMonth.

Lemma plainYear_year (t : Z) : plainYear t -> 0 <= YearFromTime t <= 9999.
Proof.
  unfold plainYear, firstPlainYearTime, lastPlainYearTime, YearFromTime. intros H.
  assert (D : DayFromYear 0 <= Day t < DayFromYear 10000).
  { unfold Day, msPerDay in *. Z.to_euclidean_division_equations; lia. }
  pose proof (YearFromDay_bracket (Day t)) as B.
  destruct (Z_lt_le_dec (YearFromDay (Day t)) 0) as [N | N].
  - pose proof (DayFromYear_mono (YearFromDay (Day t) + 1) 0 ltac:(lia)). lia.
  - destruct (Z_lt_le_dec 9999 (YearFromDay (Day t))) as [M | M]; [|lia].
    pose proof (DayFromYear_mono 10000 (YearFromDay (Day t)) ltac:(lia)). lia.
Qed.

Lemma plainYear_clip (t : Z) : plainYear t -> TimeClip t = Some t.
Proof.
  unfold plainYear, firstPlainYearTime, lastPlainYearTime, TimeClip, maxTime, msPerDay.
  change (DayFromYear 0) with (-719528). change (DayFromYear 10000) with 2932897.
  intros H. replace (Z.abs t <=? _) with true; [reflexivity|].
  symmetry. apply Z.leb_le. lia.
Qed.

(** The fields of the time within the day. *)
Lemma time_fields (w : Z) :
  0 <= w < msPerDay ->
  0 <= w / msPerHour <= 23 /\ 0 <= w / msPerMinute mod 60 <= 59
  /\ 0 <= w / msPerSecond mod 60 <= 59 /\ 0 <= w mod 1000 <= 999
  /\ MakeTime (w / msPerHour) (w / msPerMinute mod 60) (w / msPerSecond mod 60)
       (w mod 1000) = w.
Proof.
  unfold MakeTime, msPerDay, msPerHour, msPerMinute, msPerSecond. intros H.
  replace (w / 3600000) with (w / 1000 / 60 / 60) by (rewrite !Z.div_div by lia; reflexivity).
  replace (w / 60000) with (w / 1000 / 60) by (rewrite !Z.div_div by lia; reflexivity).
  repeat split; Z.to_euclidean_division_equations; lia.
Qed.

Lemma TimeWithinDay_range (t : Z) : 0 <= TimeWithinDay t < msPerDay.
Proof. apply Z.mod_pos_bound. reflexivity. Qed.

Lemma Day_TimeWithinDay (t : Z) : MakeDate (Day t) (TimeWithinDay t) = t.
Proof.
  unfold MakeDate, Day, TimeWithinDay.
  pose proof (Z.div_mod t msPerDay ltac:(discriminate)). lia.
Qed.

(** [toISOString] of a time value of the years 0..9999, field by
    field. *)
Lemma toISOString_fixed (t : Z) :
  plainYear t ->
  toISOString t
  = let w := TimeWithinDay t in
    fixedDigits 4 (YearFromTime t) (String "-"
      (fixedDigits 2 (MonthFromTime t + 1) (String "-"
        (fixedDigits 2 (DateFromTime t) (String "T"
          (fixedDigits 2 (w / msPerHour) (String ":"
            (fixedDigits 2 (w / msPerMinute mod 60) (String ":"
              (fixedDigits 2 (w / msPerSecond mod 60) (String "."
                (fixedDigits 3 (w mod 1000) "Z")))))))))))).
Proof.
  intros H. pose proof (plainYear_year t H) as Hy.
  pose proof (MonthFromTime_range t) as Hm.
  pose proof (DateFromTime_range t) as Hd.
  assert (Hd' : DateFromTime t <= 31).
  { destruct Hd as [_ Hd]. revert Hd. unfold daysInMonth.
    repeat match goal with |- context [if ?b then _ else _] => destruct b end; lia. }
  destruct (time_fields _ (TimeWithinDay_range t)) as (Hh & Hmi & Hs & Hms & _).
  unfold toISOString, pad2, pad3. cbv zeta.
  replace ((0 <=? YearFromTime t) && (YearFromTime t <=? 9999)) with true
    by (symmetry; apply andb_true_intro; split; apply Z.leb_le; lia).
  rewrite (padStart_decimal 3) by (change (10 ^ Z.of_nat 4) with 10000; lia).
  rewrite !(padStart_decimal 1) by (change (10 ^ Z.of_nat 2) with 100; lia).
  rewrite (padStart_decimal 2) by (change (10 ^ Z.of_nat 3) with 1000; lia).
  rewrite !fixedDigits_app. reflexivity.
Qed.

Lemma scanYear_fixed (y : Z) (rest : string) :
  0 <= y <= 9999 -> scanYear (fixedDigits 4 y rest) = Some (y, rest).
Proof.
  intros H. unfold scanYear.
  destruct (fixedDigits 4 y rest) as [|c s'] eqn:E; [discriminate E|].
  assert (D : isDigit c = true).
  { cbn [fixedDigits] in E. injection E as <- _.
    apply digitChar_ok. Z.to_euclidean_division_equations; lia. }
  destruct (digit_not_sign c D) as [-> ->].
  rewrite <- E. apply scanDigits_fixed_all. change (10 ^ Z.of_nat 4) with 10000. lia.
Qed.

Lemma scanGroup_fixed (sep : ascii) (v : Z) (rest : string) :
  0 <= v <= 99 ->
  scanGroup sep (String sep (fixedDigits 2 v rest)) = Some (Some v, rest).
Proof.
  intros H. unfold scanGroup. rewrite Ascii.eqb_refl.
  rewrite scanDigits_fixed_all by (change (10 ^ Z.of_nat 2) with 100; lia).
  reflexivity.
Qed.

Lemma scanTime_fixed (hh mi ss ms : Z) (rest : string) :
  0 <= hh <= 99 -> 0 <= mi <= 99 -> 0 <= ss <= 99 -> 0 <= ms <= 999 ->
  scanTime (fixedDigits 2 hh (String ":" (fixedDigits 2 mi (String ":"
              (fixedDigits 2 ss (String "." (fixedDigits 3 ms rest)))))))
  = Some (hh, mi, ss, ms, rest).
Proof.
  intros Hh Hmi Hs Hms. unfold scanTime.
  rewrite scanDigits_fixed_all by (change (10 ^ Z.of_nat 2) with 100; lia).
  cbn [mbind option_bind scanChar]. rewrite Ascii.eqb_refl. cbn [mbind option_bind].
  rewrite scanDigits_fixed_all by (change (10 ^ Z.of_nat 2) with 100; lia).
  cbn [mbind option_bind]. rewrite scanGroup_fixed by lia.
  cbn [mbind option_bind]. rewrite Ascii.eqb_refl.
  rewrite scanDigits_fixed_all by (change (10 ^ Z.of_nat 3) with 1000; lia).
  reflexivity.
Qed.

(** A time stamp written by [toISOString] is read back by [new Date] as
    the same time value, on every host. *)
Lemma Date_parse_toISOString (h : Host) (t : Z) :
  plainYear t -> Date_parse h (toISOString t) = Some t.
Proof.
  intros H. pose proof (plainYear_year t H) as Hy.
  pose proof (MonthFromTime_range t) as Hm.
  pose proof (DateFromTime_range t) as Hd.
  assert (Hd' : DateFromTime t <= 31).
  { destruct Hd as [_ Hd]. revert Hd. unfold daysInMonth.
    repeat match goal with |- context [if ?b then _ else _] => destruct b end; lia. }
  destruct (time_fields _ (TimeWithinDay_range t)) as (Hh & Hmi & Hs & Hms & Ht).
  rewrite (toISOString_fixed t H). cbv zeta.
  apply Date_parse_format. unfold Date_parseFormat, scanDate.
  rewrite scanYear_fixed by lia. cbn [mbind option_bind].
  rewrite scanGroup_fixed by lia. cbn [mbind option_bind].
  rewrite scanGroup_fixed by lia. cbn [mbind option_bind default].
  assert (V : validDate (YearFromTime t) (MonthFromTime t + 1) (DateFromTime t) = true).
  { unfold validDate.
    repeat (apply andb_true_intro; split); apply Z.leb_le; lia. }
  unfold id. rewrite V. unfold timeOnDay.
  change (Ascii.eqb "T" "T") with true. cbv iota.
  rewrite scanTime_fixed by lia. cbn [mbind option_bind].
  assert (W : validTime (TimeWithinDay t / msPerHour) (TimeWithinDay t / msPerMinute mod 60)
                (TimeWithinDay t / msPerSecond mod 60) (TimeWithinDay t mod 1000) = true).
  { unfold validTime.
    repeat (apply andb_true_intro; split); try (apply Z.leb_le; lia).
    apply orb_true_intro. left. apply Z.leb_le. lia. }
  rewrite W. change (scanOffset "Z") with (Some (Some 0)). cbn [mbind option_bind].
  rewrite Ht.
  replace (MonthFromTime t + 1 - 1) with (MonthFromTime t) by lia.
  pose proof (MakeDay_fields t 0) as F. rewrite !Z.add_0_r in F. rewrite F.
  rewrite Day_TimeWithinDay, Z.sub_0_r. now apply plainYear_clip.
Qed.

(** The fields of the time within the day compare as the times do. *)
Lemma time_compare (w1 w2 : Z) :
  0 <= w1 < msPerDay -> 0 <= w2 < msPerDay ->
  lex (w1 / msPerHour ?= w2 / msPerHour)
    (lex (w1 / msPerMinute mod 60 ?= w2 / msPerMinute mod 60)
       (lex (w1 / msPerSecond mod 60 ?= w2 / msPerSecond mod 60)
          (w1 mod 1000 ?= w2 mod 1000)))
  = (w1 ?= w2).
Proof.
  unfold msPerDay, msPerHour, msPerMinute, msPerSecond. intros Hw1 Hw2.
  rewrite <- (lex_divmod 1000 w1 w2) by lia.
  rewrite <- (lex_divmod 60 (w1 / 1000) (w2 / 1000)) by lia.
  rewrite <- (lex_divmod 60 (w1 / 1000 / 60) (w2 / 1000 / 60)) by lia.
  rewrite !lex_assoc.
  replace (w1 / 3600000) with (w1 / 1000 / 60 / 60) by (rewrite !Z.div_div by lia; reflexivity).
  replace (w2 / 3600000) with (w2 / 1000 / 60 / 60) by (rewrite !Z.div_div by lia; reflexivity).
  replace (w1 / 60000) with (w1 / 1000 / 60) by (rewrite !Z.div_div by lia; reflexivity).
  replace (w2 / 60000) with (w2 / 1000 / 60) by (rewrite !Z.div_div by lia; reflexivity).
  reflexivity.
Qed.

(** Time stamps of the years 0..9999 compare, as strings, in the order
    of time. *)
Lemma toISOString_compare (t1 t2 : Z) :
  plainYear t1 -> plainYear t2 ->
  String.compare (toISOString t1) (toISOString t2) = (t1 ?= t2).
Proof.
  intros H1 H2.
  pose proof (plainYear_year t1 H1) as Hy1. pose proof (plainYear_year t2 H2) as Hy2.
  pose proof (MonthFromTime_range t1) as Hm1. pose proof (MonthFromTime_range t2) as Hm2.
  pose proof (DateFromTime_range t1) as Hd1. pose proof (DateFromTime_range t2) as Hd2.
  assert (Hd1' : DateFromTime t1 <= 31).
  { destruct Hd1 as [_ Hd]. revert Hd. unfold daysInMonth.
    repeat match goal with |- context [if ?b then _ else _] => destruct b end; lia. }
  assert (Hd2' : DateFromTime t2 <= 31).
  { destruct Hd2 as [_ Hd]. revert Hd. unfold daysInMonth.
    repeat match goal with |- context [if ?b then _ else _] => destruct b end; lia. }
  pose proof (TimeWithinDay_range t1) as Hw1. pose proof (TimeWithinDay_range t2) as Hw2.
  destruct (time_fields _ Hw1) as (Hh1 & Hmi1 & Hs1 & Hms1 & _).
  destruct (time_fields _ Hw2) as (Hh2 & Hmi2 & Hs2 & Hms2 & _).
  rewrite (toISOString_fixed t1 H1), (toISOString_fixed t2 H2). cbv zeta.
  repeat (rewrite compare_fixed
            by (first [ change (10 ^ Z.of_nat 4) with 10000
                      | change (10 ^ Z.of_nat 3) with 1000
                      | change (10 ^ Z.of_nat 2) with 100 ]; lia);
          cbn [String.compare];
          try change (Ascii.compare "-" "-") with Eq;
          try change (Ascii.compare "T" "T") with Eq;
          try change (Ascii.compare ":" ":") with Eq;
          try change (Ascii.compare "." ".") with Eq;
          try change (Ascii.compare "Z" "Z") with Eq;
          cbv iota).
  rewrite lex_Eq_r.
  (* the date *)
  rewrite <- !lex_assoc.
  rewrite (lex_assoc (YearFromTime t1 ?= YearFromTime t2)).
  rewrite civil_compare by lia.
  replace (MonthFromTime t1 + 1 - 1) with (MonthFromTime t1) by lia.
  replace (MonthFromTime t2 + 1 - 1) with (MonthFromTime t2) by lia.
  pose proof (MakeDay_fields t1 0) as F1. rewrite !Z.add_0_r in F1. rewrite F1.
  pose proof (MakeDay_fields t2 0) as F2. rewrite !Z.add_0_r in F2. rewrite F2.
  (* the time *)
  rewrite !lex_assoc.
  rewrite (time_compare _ _ Hw1 Hw2).
  unfold Day, TimeWithinDay.
  apply lex_divmod. reflexivity.
Qed.

End TimeStamps.

(** ** Local dates on every host *)

Lemma fixedDigits_head (k : nat) (v : Z) (tail : string) :
  exists c, fixedDigits (S k) v tail = String c (fixedDigits k v tail)
            /\ isDigit c = true.
Proof.
  revert v tail. induction k as [|k IH]; intros v tail.
  - exists (digitChar (v mod 10)). split; [reflexivity|].
    apply digitChar_ok. Z.to_euclidean_division_equations; lia.
  - destruct (IH (v / 10) (String (digitChar (v mod 10)) tail)) as (c & E & D).
    exists c. split; [|exact D].
    change (fixedDigits (S (S k)) v tail)
      with (fixedDigits (S k) (v / 10) (String (digitChar (v mod 10)) tail)).
    rewrite E. reflexivity.
Qed.

Section LocalDates.
Import ES ESFacts ESMonth.

Variable h : Host.

(** [formatLocalDate] prints the local day of the time value. *)
Lemma formatLocalDate_day (tv : Z) :
  formatLocalDate h (Some tv) = dateOfDay (localDay h tv).
Proof.
  unfold formatLocalDate, getFullYear, getMonth, getDate, dateOfDay, localDay.
  cbn [mbind option_bind].
  unfold DateFromTime, MonthFromTime, DayWithinYear, InLeapYear, YearFromTime.
  now rewrite !Day_midnight.
Qed.

Lemma YearFromDay_range (d lo hi : Z) :
  DayFromYear lo <= d < DayFromYear (hi + 1) -> lo <= YearFromDay d <= hi.
Proof.
  intros H. pose proof (YearFromDay_bracket d) as B. split.
  - destruct (Z_lt_le_dec (YearFromDay d) lo) as [N | N]; [|lia].
    pose proof (DayFromYear_mono (YearFromDay d + 1) lo ltac:(lia)). lia.
  - destruct (Z_lt_le_dec hi (YearFromDay d)) as [N | N]; [|lia].
    pose proof (DayFromYear_mono (hi + 1) (YearFromDay d) ltac:(lia)). lia.
Qed.

Lemma dateOfDay_year (d : Z) :
  exists tail,
    dateOfDay d = Number_toString (Some (YearFromDay d)) +:+ String "-" tail.
Proof.
  unfold dateOfDay, YearFromTime. rewrite Day_midnight. eexists. reflexivity.
Qed.

(** The text of a day is a canonical date only for the years
    1000..9999, and then it denotes that day. *)
Lemma dayOf_dateOfDay_inv (d x : Z) :
  dayOf (dateOfDay d) = Some x ->
  x = d /\ firstFourDigitDay <= d <= lastCanonicalDay.
Proof.
  intros H.
  destruct (Z_lt_le_dec (YearFromDay d) 10000) as [Hy | Hy].
  - (* at most four digits: the year is 1000 or later *)
    pose proof (YearFromDay_bracket d) as B.
    destruct (dateOfDay_year d) as (tail & E).
    assert (F : firstFourDigitDay <= d).
    { destruct (Z_lt_le_dec d firstFourDigitDay) as [N | N]; [|lia]. exfalso.
      assert (Y : YearFromDay d <= 999).
      { destruct (Z_lt_le_dec 999 (YearFromDay d)) as [M | M]; [|lia].
        pose proof (DayFromYear_mono 1000 (YearFromDay d) ltac:(lia)).
        unfold firstFourDigitDay in N. lia. }
      pose proof H as H'. rewrite E in H'.
      apply dayOf_civil in H' as (y & mo & dd & _ & _ & T & _ & _ & _).
      destruct (Z_lt_le_dec (YearFromDay d) 0) as [Neg | Pos].
      { unfold Number_toString in T.
        replace (YearFromDay d <? 0) with true in T by (symmetry; apply Z.ltb_lt; lia).
        inversion T as [c1 c2 c3 c4 c5 c6 c7 c8 D1]. subst. discriminate D1. }
      unfold Number_toString in T.
      replace (YearFromDay d <? 0) with false in T by (symmetry; apply Z.ltb_ge; lia).
      destruct (digit_count 2 (YearFromDay d)) as (k & Hk & Hv & Hl).
      { change (10 ^ Z.of_nat 3) with 1000. lia. }
      rewrite (decimal_fixed k) in T by (try assumption; lia).
      rewrite fixedDigits_app in T.
      change ("" +:+ String "-" tail) with (String "-" tail) in T.
      destruct k as [|[|[|k]]]; [| | |lia]; cbn [fixedDigits] in T;
        inversion T as [c1 c2 c3 c4 c5 c6 c7 c8 D1 D2 D3 D4]; subst;
        first [discriminate D2 | discriminate D3 | discriminate D4]. }
    assert (L : d <= lastCanonicalDay).
    { pose proof (DayFromYear_mono (YearFromDay d + 1) 10000 ltac:(lia)).
      unfold lastCanonicalDay. lia. }
    rewrite dayOf_dateOfDay in H by lia. inversion H. lia.
  - (* five digits or more *)
    exfalso. destruct (dateOfDay_year d) as (tail & E). rewrite E in H.
    apply dayOf_civil in H as (y & mo & dd & _ & _ & T & _ & _ & _).
    unfold Number_toString in T.
    replace (YearFromDay d <? 0) with false in T by (symmetry; apply Z.ltb_ge; lia).
    assert (P : exists k, decimal (YearFromDay d) = fixedDigits (5 + k) (YearFromDay d) "").
    { unfold decimal.
      assert (G : forall fuel v acc, 10000 <= v < 2 ^ Z.of_nat fuel ->
                  exists k, decimalFuel fuel v acc = fixedDigits (5 + k) v acc).
      { clear. induction fuel as [|fuel IH]; intros v acc Hv.
        - change (2 ^ Z.of_nat 0) with 1 in Hv. lia.
        - rewrite Nat2Z.inj_succ, Z.pow_succ_r in Hv by lia.
          rewrite decimalFuel_ge10 by lia.
          destruct (Z_lt_le_dec v 100000) as [Hs | Hb].
          + exists O. destruct fuel as [|[|[|[|fuel]]]];
              try (cbn in Hv; lia).
            do 3 (rewrite decimalFuel_ge10 by (Z.to_euclidean_division_equations; lia)).
            rewrite decimalFuel_lt10 by (Z.to_euclidean_division_equations; lia).
            cbn [fixedDigits Nat.add].
            do 2 f_equal. f_equal. f_equal. f_equal.
            Z.to_euclidean_division_equations; lia.
          + destruct (IH (v / 10) (String (digitChar (v mod 10)) acc)) as (k & Ek).
            { Z.to_euclidean_division_equations; lia. }
            exists (S k). rewrite Ek. reflexivity. }
      apply G. split; [lia|].
      rewrite Nat2Z.inj_succ, Z2Nat.id by apply Z.log2_nonneg.
      apply Z.log2_spec. lia. }
    destruct P as (k & P). rewrite P, fixedDigits_app in T.
    change (5 + k)%nat with (S (S (S (S (S k))))) in T.
    destruct (fixedDigits_head (4 + k) (YearFromDay d) ("" +:+ String "-" tail))
      as (c1 & E1 & _).
    destruct (fixedDigits_head (3 + k) (YearFromDay d) ("" +:+ String "-" tail))
      as (c2 & E2 & _).
    destruct (fixedDigits_head (2 + k) (YearFromDay d) ("" +:+ String "-" tail))
      as (c3 & E3 & _).
    destruct (fixedDigits_head (1 + k) (YearFromDay d) ("" +:+ String "-" tail))
      as (c4 & E4 & _).
    destruct (fixedDigits_head k (YearFromDay d) ("" +:+ String "-" tail))
      as (c5 & E5 & D5).
    cbn [Nat.add] in E1, E2, E3, E4.
    rewrite E1, E2, E3, E4, E5 in T.
    inversion T. subst. discriminate D5.
Qed.

Lemma dayOf_NaN : dayOf "NaN-NaN-NaN" = None.
Proof. reflexivity. Qed.

(** [today] is the local day of the clock. *)
Lemma today_day : today h = dateOfDay (localDay h (clock h)).
Proof. apply formatLocalDate_day. Qed.

Lemma string_app_nonempty (a b : string) : a +:+ String "-" b <> "".
Proof. destruct a; discriminate. Qed.

Lemma today_nonempty : today h <> "".
Proof.
  rewrite today_day.
  destruct (dateOfDay_year (localDay h (clock h))) as (tail & ->).
  apply string_app_nonempty.
Qed.

Lemma toLocalDate_toISOString (t : Z) :
  plainYear t ->
  toLocalDate h (Some (toISOString t)) = Some (formatLocalDate h (Some t)).
Proof.
  intros P. pose proof (Date_parse_toISOString h t P) as E.
  unfold toLocalDate. rewrite E.
  destruct (toISOString t) as [|c r] eqn:S; [|reflexivity].
  rewrite (toISOString_fixed t P) in S. cbv zeta in S.
  match type of S with
  | fixedDigits 4 ?v ?tail = _ => destruct (fixedDigits_head 3 v tail) as (c & Ec & _)
  end.
  rewrite Ec in S. discriminate S.
Qed.

(** ** Hosts with offsets of less than a day *)

Hypothesis offsets : offsetsWithinDay h.

Lemma UTC_in_range (d : Z) :
  DayFromYear 0 <= d <= lastCanonicalDay ->
  TimeClip (UTC h (d * msPerDay)) = Some (UTC h (d * msPerDay)).
Proof.
  unfold UTC. pose proof (offsets (d * msPerDay) false) as O.
  unfold lastCanonicalDay, TimeClip, maxTime, msPerDay in *. intros H.
  change (DayFromYear 0) with (-719528) in H.
  change (DayFromYear 10000) with 2932897 in H.
  replace (Z.abs _ <=? _) with true; [reflexivity|].
  symmetry. apply Z.leb_le. lia.
Qed.

(** A canonical date is read as the instant of its local midnight. *)
Lemma parseDate_canonical (s : string) (d : Z) :
  dayOf s = Some d -> parseDate h s = Some (UTC h (d * msPerDay)).
Proof.
  intros H. pose proof (dayOf_range _ _ H) as R.
  apply dayOf_civil in H as (y & mo & dd & _ & -> & T & _ & Hmo & Hdd).
  unfold parseDate. apply Date_parse_format. unfold Date_parseFormat.
  rewrite (scanDate_text _ "T00:00:00" _ _ _ T). cbn [mbind option_bind].
  assert (V : validDate y mo dd = true).
  { unfold validDate.
    repeat (apply andb_true_intro; split); apply Z.leb_le; lia. }
  rewrite V, timeOnDay_midnight.
  unfold MakeDate. rewrite Z.add_0_r.
  now apply UTC_in_range.
Qed.

(** ** Hosts whose transitions keep every midnight *)

Hypothesis midnights : midnightsKept h.

Lemma localDay_midnight (d : Z) : localDay h (UTC h (d * msPerDay)) = d.
Proof. unfold localDay. rewrite midnights. apply Day_midnight. Qed.

Lemma addDays_steady (s : string) (d n : Z) :
  dayOf s = Some d ->
  addDays h s n
  = match TimeClip (UTC h ((d + n) * msPerDay)) with
    | Some _ => dateOfDay (d + n)
    | None => "NaN-NaN-NaN"
    end.
Proof.
  intros H. unfold addDays. fold (parseDate h s). rewrite (parseDate_canonical _ _ H).
  unfold getDate, setDate. cbn [mbind option_bind].
  rewrite midnights.
  rewrite MakeDay_fields, Day_midnight, TimeWithinDay_midnight.
  unfold MakeDate. rewrite Z.add_0_r.
  destruct (TimeClip (UTC h ((d + n) * msPerDay))) as [t|] eqn:E; [|reflexivity].
  unfold TimeClip in E. destruct (Z.abs _ <=? maxTime); [|discriminate].
  inversion E; subst t. rewrite formatLocalDate_day. now rewrite localDay_midnight.
Qed.

Lemma addDays_steady_canonical (s : string) (d n : Z) :
  dayOf s = Some d -> DayFromYear 0 <= d + n <= lastCanonicalDay ->
  addDays h s n = dateOfDay (d + n).
Proof.
  intros H R. rewrite (addDays_steady _ _ n H).
  now rewrite (UTC_in_range _ R).
Qed.

Lemma addDays_steady_day (s : string) (d n : Z) :
  dayOf s = Some d -> firstFourDigitDay <= d + n <= lastCanonicalDay ->
  dayOf (addDays h s n) = Some (d + n).
Proof.
  intros H R.
  assert (F0 : DayFromYear 0 <= firstFourDigitDay) by (vm_compute; discriminate).
  rewrite (addDays_steady_canonical _ _ n H) by lia.
  now apply dayOf_dateOfDay.
Qed.

End LocalDates.

(** A host at a constant offset keeps every midnight. *)
Lemma fixedOffset_steady (h : Host) :
  fixedOffset h -> offsetsWithinDay h /\ midnightsKept h.
Proof.
  intros (o & Ho & Hc). split.
  - intros t b. now rewrite Hc.
  - intros d. unfold LocalTime, UTC. rewrite !Hc. lia.
Qed.

(** US Eastern time changes at 02:00: its offsets are of four and five
    hours and no midnight is removed. *)
Lemma eastern_offsets : offsetsWithinDay easternHost.
Proof.
  intros t b. cbn [LocalTZA easternHost]. unfold easternTZA, hour, ES.msPerHour, ES.msPerDay.
  destruct b; repeat match goal with |- context [if ?c then _ else _] => destruct c end; lia.
Qed.

Lemma eastern_midnights : midnightsKept easternHost.
Proof.
  intros d. unfold LocalTime, UTC. cbn [LocalTZA easternHost].
  unfold easternTZA, hour, ES.msPerHour, ES.msPerDay.
  repeat match goal with
         | |- context [if ?a <? ?b then _ else _] =>
             let E := fresh "E" in destruct (Z.ltb_spec a b) as [E | E]
         end; lia.
Qed.

(** ** The latest check-in *)

Lemma str_gt_le (a b : string) : str_gt a b = negb (str_le a b).
Proof.
  unfold str_gt, str_le, String.ltb, String.leb.
  rewrite (String.compare_antisym a b). now destruct (String.compare b a).
Qed.



Lemma fold_sqlMax_times (ts : list Z) (t : Z) :
  plainYear t -> Forall plainYear ts ->
  fold_left sqlMax (map toISOString ts) (Some (toISOString t))
  = Some (toISOString (fold_left Z.max ts t)).
Proof.
  revert t. induction ts as [|u ts IH]; intros t Pt Pts; [reflexivity|].
  inversion Pts as [|? ? Pu Pts']; subst. cbn [map fold_left sqlMax].
  unfold String.ltb. rewrite (toISOString_compare t u Pt Pu).
  destruct (Z.compare_spec t u) as [E | E | E].
  - subst. rewrite Z.max_id. now apply IH.
  - rewrite Z.max_r by lia. now apply IH.
  - rewrite Z.max_l by lia. now apply IH.
Qed.

Lemma maxCheckinCreatedAt_none (db : DB) (teamId : Z) :
  (forall c, In c (checkins db) -> checkin_team_id c <> teamId) ->
  maxCheckinCreatedAt db teamId = None.
Proof.
  intros H. unfold maxCheckinCreatedAt.
  replace (List.filter _ (checkins db)) with (@nil checkin); [reflexivity|].
  symmetry. induction (checkins db) as [|c l IH]; [reflexivity|].
  cbn [List.filter].
  replace (checkin_team_id c =? teamId) with false.
  - apply IH. intros c' Hc'. apply H. now right.
  - symmetry. apply Z.eqb_neq. apply H. now left.
Qed.

Section NextDueFacts.

Variable h : Host.

Lemma normalizeDate_cases (v : option string) :
  normalizeDate h v = today h
  \/ exists s, v = Some s /\ normalizeDate h v = s
               /\ String.eqb s "" = false /\ matchesDatePattern s = true.
Proof.
  destruct v as [v|]; [|now left]. unfold normalizeDate.
  destruct (String.eqb v "") eqn:E1; [now left|].
  destruct (matchesDatePattern v) eqn:E2; cbn [negb]; [|now left].
  right. now exists v.
Qed.

Lemma normalizeDate_idem (v : option string) :
  normalizeDate h (Some (normalizeDate h v)) = normalizeDate h v.
Proof.
  assert (T : normalizeDate h (Some (today h)) = today h).
  { unfold normalizeDate. destruct (String.eqb (today h) ""); [reflexivity|].
    now destruct (matchesDatePattern (today h)). }
  destruct (normalizeDate_cases v) as [-> | (s & _ & -> & E1 & E2)]; [exact T|].
  unfold normalizeDate. now rewrite E1, E2.
Qed.

Lemma normalizeDate_nonempty (v : option string) : normalizeDate h v <> "".
Proof.
  destruct (normalizeDate_cases v) as [-> | (s & _ & -> & E1 & _)].
  - apply today_nonempty.
  - now apply String.eqb_neq.
Qed.

Lemma normalizeDate_form (v : option string) :
  canonicalForm (today h) -> canonicalForm (normalizeDate h v).
Proof.
  intros T. now destruct (normalizeDate_cases v) as [-> | (s & _ & -> & _ & E2)].
Qed.

(** Without a last check-in the next due date is the anchor. *)
Lemma nextDue_no_checkin (anchor : string) (cadence : number) :
  calculateNextDueDate h anchor cadence None = normalizeDate h (Some anchor).
Proof.
  unfold calculateNextDueDate.
  destruct (negb (Number_isFinite cadence) || number_le0 cadence); [reflexivity|].
  now destruct cadence.
Qed.

End NextDueFacts.

(** ** The record store, continued *)

Lemma compareText_total (a b : string) : compareText a b <= 0 \/ compareText b a <= 0.
Proof. apply localeCompare_total. Qed.

Lemma perm_in_iff {A : Type} (l l' : list A) (x : A) :
  Permutation l l' -> (In x l <-> In x l').
Proof.
  intros P. split; apply Permutation_in; [exact P | now symmetry].
Qed.

Lemma firstn_incl {A : Type} (n : nat) (l : list A) (x : A) :
  In x (firstn n l) -> In x l.
Proof.
  revert l. induction n as [|n IH]; intros [|y l]; cbn; try tauto.
  intros [-> | H]; [now left | right; now apply IH].
Qed.

Lemma filter_split {A : Type} (f : A -> bool) (l : list A) :
  Permutation (List.filter f l ++ List.filter (fun x => negb (f x)) l) l.
Proof.
  induction l as [|x l IH]; [constructor|].
  cbn [List.filter]. destruct (f x); cbn [negb app].
  - now constructor.
  - rewrite <- Permutation_middle. now constructor.
Qed.

Lemma map_filter_map {A B : Type} (k : A -> B) (g : B -> A) (f : B -> bool)
    (l : list A) :
  (forall x, g (k x) = x) ->
  map g (List.filter f (map k l)) = List.filter (fun x => f (k x)) l.
Proof.
  intros H. induction l as [|x l IH]; [reflexivity|].
  cbn [map List.filter]. destruct (f (k x)); cbn [map]; now rewrite ?H, IH.
Qed.

Lemma omap_fst_sublist (db : DB) (l : list (Z * schedule)) :
  sublist (map row_team_id (omap (scheduledTeamRow db) l)) (map fst l).
Proof.
  induction l as [|[id s] l IH]; [constructor|].
  cbn [omap list_omap map fst]. unfold scheduledTeamRow at 1.
  destruct (teams db !! id) as [t|]; cbn [mbind option_bind].
  - cbn [map row_team_id]. now constructor.
  - now constructor.
Qed.

(** The rows of [listScheduledTeams]. *)
Lemma scheduledTeams_elem (db : DB) (r : scheduledTeam) :
  In r (listScheduledTeams db)
  <-> exists s, checkin_schedules db !! row_team_id r = Some s
                /\ scheduledTeamRow db (row_team_id r, s) = Some r.
Proof.
  unfold listScheduledTeams.
  rewrite (perm_in_iff _ _ r (Array_sort_perm _ _)).
  rewrite <- list_elem_of_In, list_elem_of_omap. split.
  - intros ([id s] & Hin & Hr). apply elem_of_map_to_list in Hin.
    assert (E : row_team_id r = id).
    { unfold scheduledTeamRow in Hr. destruct (teams db !! id); [|discriminate].
      cbn in Hr. now inversion Hr. }
    rewrite E. now exists s.
  - intros (s & Hs & Hr). exists (row_team_id r, s). split; [|exact Hr].
    now apply elem_of_map_to_list.
Qed.

Section StoreFacts2.

Variable h : Host.


Lemma dueCheckins_elem (db : DB) (r : dueCheckin) :
  In r (listDueCheckins h db)
  <-> exists row, In row (listScheduledTeams db)
                  /\ r = dueCheckinOf h (today h) row
                  /\ str_le (due_next_due r) (today h) = true.
Proof.
  unfold listDueCheckins.
  rewrite (perm_in_iff _ _ r (Array_sort_perm _ _)).
  rewrite filter_In, in_map_iff. split.
  - intros ((row & <- & Hin) & Hle). now exists row.
  - intros (row & Hin & -> & Hle). split; [now exists row | exact Hle].
Qed.

Lemma upcomingCheckins_elem (db : DB) (limit : option Z) (r : upcomingCheckin) :
  In r (listUpcomingCheckins h db limit) ->
  exists row, In row (listScheduledTeams db)
              /\ r = upcomingCheckinOf h row
              /\ str_gt (upcoming_next_due r) (today h) = true.
Proof.
  unfold listUpcomingCheckins, Array_slice0. intros H.
  apply firstn_incl in H.
  apply (Permutation_in r (Array_sort_perm _ _)) in H.
  apply filter_In in H as [H Hgt]. apply in_map_iff in H as (row & <- & Hin).
  now exists row.
Qed.

(** The row of a scheduled team and what [getSchedule] reads for it. *)
Lemma scheduledTeam_getSchedule (db : DB) (row : scheduledTeam) :
  In row (listScheduledTeams db) -> row_start_date row <> "" ->
  exists v,
    getSchedule h db (row_team_id row) = Some v
    /\ view_next_due v = due_next_due (dueCheckinOf h (today h) row)
    /\ view_missed_count v = due_missed_count (dueCheckinOf h (today h) row).
Proof.
  intros Hin Hne. apply scheduledTeams_elem in Hin as (s & Hs & Hr).
  unfold scheduledTeamRow in Hr.
  destruct (teams db !! row_team_id row) as [t|]; [|discriminate].
  cbn [mbind option_bind] in Hr. injection Hr as E.
  assert (Es : row_start_date row = start_date s) by (rewrite <- E; reflexivity).
  assert (Ec : row_cadence_days row = cadence_days s) by (rewrite <- E; reflexivity).
  assert (El : row_last_checkin_at row = maxCheckinCreatedAt db (row_team_id row)).
  { rewrite <- E at 1. reflexivity. }
  rewrite Es in Hne.
  destruct (getSchedule_lookup h db _ s Hs Hne) as (v & Hv & _ & _ & Hn & Hm).
  exists v. split; [exact Hv|].
  unfold dueCheckinOf. cbn [due_next_due due_missed_count].
  rewrite Es, Ec, El. fold (getLastTeamCheckinDate h db (row_team_id row)).
  split; [exact Hn|]. now rewrite Hm, Hn.
Qed.

Lemma getLastTeamCheckinDate_none (db : DB) (teamId : Z) :
  (forall c, In c (checkins db) -> checkin_team_id c <> teamId) ->
  getLastTeamCheckinDate h db teamId = None.
Proof.
  intros H. unfold getLastTeamCheckinDate.
  now rewrite (maxCheckinCreatedAt_none db teamId H).
Qed.


Lemma fold_max_plainYear (ts : list Z) (t : Z) :
  plainYear t -> List.Forall plainYear ts -> plainYear (fold_left Z.max ts t).
Proof.
  intros Pt Pts. revert t Pt.
  induction Pts as [|u ts Pu Pts IH]; intros t Pt; [exact Pt|].
  cbn [fold_left]. apply IH. now destruct (Z.max_spec t u) as [[_ ->] | [_ ->]].
Qed.

(** The latest check-in of a team whose time stamps were written by
    [toISOString]. *)
Lemma getLastTeamCheckinDate_latest (db : DB) (teamId t : Z) (ts : list Z) :
  List.Forall plainYear (t :: ts) ->
  map checkin_created_at
    (List.filter (fun c => checkin_team_id c =? teamId) (checkins db))
  = map toISOString (t :: ts) ->
  getLastTeamCheckinDate h db teamId
  = Some (formatLocalDate h (Some (fold_left Z.max ts t))).
Proof.
  intros P E. inversion P as [|? ? Pt Pts]; subst.
  unfold getLastTeamCheckinDate, maxCheckinCreatedAt. rewrite E.
  cbn [map fold_left sqlMax]. rewrite (fold_sqlMax_times ts t Pt Pts).
  apply toLocalDate_toISOString. now apply fold_max_plainYear.
Qed.

Lemma createCheckin_checkins (db : DB) (teamId personId : Z) (rating_ : number)
    (notes_ : option string) :
  checkins (createCheckin h db teamId personId rating_ notes_).1
  = (checkins db ++
     [ {| checkin_team_id := teamId; checkin_person_id := personId;
          rating := rating_; notes := notes_; checkin_created_at := now h |} ])%list
  /\ people (createCheckin h db teamId personId rating_ notes_).1 = people db.
Proof. unfold createCheckin. now destruct (getSchedule h _ teamId). Qed.

Lemma createCheckin_rows (db : DB) (teamId personId : Z) (rating_ : number)
    (notes_ : option string) (k : Z) (s' : schedule) :
  checkin_schedules (createCheckin h db teamId personId rating_ notes_).1 !! k = Some s' ->
  exists s, checkin_schedules db !! k = Some s
            /\ start_date s' = start_date s /\ cadence_days s' = cadence_days s.
Proof.
  unfold createCheckin. destruct (getSchedule h _ teamId) as [v|]; cbn [fst checkin_schedules].
  - destruct (Z.eq_dec k teamId) as [-> | Hk].
    + rewrite lookup_alter_eq.
      destruct (checkin_schedules db !! teamId) as [s|]; [|discriminate].
      cbn. intros E. injection E as <-. now exists s.
    + rewrite lookup_alter_ne by congruence. intros E. now exists s'.
  - intros E. now exists s'.
Qed.

Lemma upsertSchedule_rows (db : DB) (teamId : Z) (cadence : number)
    (start : option string) (k : Z) (s' : schedule) :
  checkin_schedules (upsertSchedule h db teamId cadence start).1 !! k = Some s' ->
  (k = teamId /\ start_date s' = normalizeDate h start /\ cadence_days s' = cadence)
  \/ (k <> teamId /\ checkin_schedules db !! k = Some s').
Proof.
  unfold upsertSchedule.
  destruct (checkin_schedules db !! teamId) as [existing|]; cbn [fst checkin_schedules];
    (destruct (Z.eq_dec k teamId) as [-> | Hk];
     [ rewrite lookup_insert_eq; intros E; injection E as <-; left; now repeat split
     | rewrite lookup_insert_ne by congruence; intros E; right; now split ]).
Qed.


End StoreFacts2.

(** ** Numbers of the request handler *)

(** The clamped rating of the check-in routes is between 1 and 5, or it
    is [NaN]. *)
Lemma clamp_rating (n : number) :
  let r := Math_min (Num 5) (Math_max (Num 1) n) in
  Number_isFinite r = true ->
  number_leb (Num 1) r = true /\ number_leb r (Num 5) = true.
Proof.
  cbv zeta. destruct n as [z|[a b]| | |]; cbn [Math_max Math_min number_leb].
  - destruct (1 <=? z) eqn:E1; cbn [Math_min number_leb].
    + destruct (5 <=? z) eqn:E2; cbn [number_leb]; intros _; split;
        try reflexivity; try exact E1.
      apply Z.leb_le. apply Z.leb_gt in E2. lia.
    + intros _. split; reflexivity.
  - unfold QArith_base.Qle_bool, QArith_base.inject_Z.
    cbn [QArith_base.Qnum QArith_base.Qden].
    destruct (1 * Z.pos b <=? a * 1) eqn:E1;
      cbn [Math_min number_leb QArith_base.Qnum QArith_base.Qden].
    + destruct (5 * Z.pos b <=? a * 1) eqn:E2;
        cbn [number_leb QArith_base.Qnum QArith_base.Qden]; intros _; split;
        try reflexivity; try exact E1.
      unfold QArith_base.Qle_bool, QArith_base.inject_Z.
      cbn [QArith_base.Qnum QArith_base.Qden].
      apply Z.leb_le. apply Z.leb_gt in E2. lia.
    + intros _. split; reflexivity.
  - discriminate.
  - intros _. split; reflexivity.
  - intros _. split; reflexivity.
Qed.

(** ** Stability of the sort *)

Section Stable.

Context {A : Type}.
Variable key : A -> string.
Variable R : A -> A -> Prop.

Lemma insertBy_stable (x : A) (l : list A) :
  List.Forall (R x) l ->
  StronglySorted (byKeyThen key R) l ->
  StronglySorted (byKeyThen key R) (insertBy (fun a b => localeCompare (key a) (key b)) x l).
Proof.
  intros Hx Hl. induction Hl as [|y l Hl IH Hy]; cbn [insertBy].
  - constructor; constructor.
  - inversion Hx as [|? ? Hxy Hxl]; subst.
    destruct (localeCompare (key x) (key y) <=? 0) eqn:E.
    + apply Z.leb_le, localeCompare_le in E.
      constructor; [now constructor|].
      constructor; [split; [exact E | now intros _]|].
      apply List.Forall_forall. intros z Hz.
      rewrite List.Forall_forall in Hy, Hxl. split.
      * apply (str_le_trans _ (key y)); [exact E | apply (Hy z Hz)].
      * intros _. now apply Hxl.
    + apply Z.leb_gt in E.
      assert (Hyx : str_le (key y) (key x) = true /\ key y <> key x).
      { unfold localeCompare in E. unfold str_le, String.leb.
        rewrite (String.compare_antisym (key y) (key x)).
        destruct (String.compare (key x) (key y)) eqn:C; try lia.
        split; [reflexivity|]. intros Ek. rewrite Ek in C.
        pose proof (String.compare_antisym (key x) (key x)) as C'.
        rewrite C in C'. discriminate C'. }
      constructor; [now apply IH|].
      apply List.Forall_forall. intros z Hz.
      apply (Permutation_in z (insertBy_perm _ x l)) in Hz as [<- | Hz].
      * split; [apply Hyx | intros Ek; now destruct Hyx].
      * rewrite List.Forall_forall in Hy. now apply Hy.
Qed.

(** Sorting by key a list that is in the order [R] leaves equal keys in
    the order [R]. *)
Lemma Array_sort_stable (l : list A) :
  StronglySorted R l -> StronglySorted (byKeyThen key R) (Array_sort (fun a b => localeCompare (key a) (key b)) l).
Proof.
  intros Hl. induction Hl as [|x l Hl IH Hx]; cbn [Array_sort]; [constructor|].
  apply insertBy_stable; [|exact IH].
  apply List.Forall_forall. intros z Hz.
  apply (Permutation_in z (Array_sort_perm _ l)) in Hz.
  rewrite List.Forall_forall in Hx. now apply Hx.
Qed.

End Stable.

Lemma StronglySorted_filter {A : Type} (R : A -> A -> Prop) (f : A -> bool)
    (l : list A) :
  StronglySorted R l -> StronglySorted R (List.filter f l).
Proof.
  intros Hl. induction Hl as [|x l Hl IH Hx]; cbn [List.filter]; [constructor|].
  destruct (f x); [|exact IH]. constructor; [exact IH|].
  apply List.Forall_forall. intros z Hz. apply filter_In in Hz as [Hz _].
  rewrite List.Forall_forall in Hx. now apply Hx.
Qed.

Lemma StronglySorted_map {A B : Type} (R : B -> B -> Prop) (g : A -> B) (l : list A) :
  StronglySorted (fun a b => R (g a) (g b)) l -> StronglySorted R (map g l).
Proof.
  intros Hl. induction Hl as [|x l Hl IH Hx]; cbn [map]; constructor; [exact IH|].
  apply List.Forall_forall. intros z Hz. apply in_map_iff in Hz as (y & <- & Hy).
  rewrite List.Forall_forall in Hx. now apply Hx.
Qed.

Lemma StronglySorted_firstn {A : Type} (R : A -> A -> Prop) (n : nat) (l : list A) :
  StronglySorted R l -> StronglySorted R (firstn n l).
Proof.
  intros Hl. revert n. induction Hl as [|x l Hl IH Hx]; intros [|n]; cbn [firstn];
    try constructor; [apply IH|].
  apply List.Forall_forall. intros z Hz. apply firstn_incl in Hz.
  rewrite List.Forall_forall in Hx. now apply Hx.
Qed.

(** ** The most recent rows *)

Section Newest.

Context {A : Type}.
Variable stamp : A -> string.

Lemma newestFirst_le (a b : string) : newestFirst a b <= 0 <-> str_le b a = true.
Proof. unfold newestFirst. apply localeCompare_le. Qed.

Lemma sorted_newest_first (l : list A) :
  StronglySorted (fun a b => str_le (stamp b) (stamp a) = true)
    (Array_sort (fun a b => newestFirst (stamp a) (stamp b)) l).
Proof.
  apply Sorted_StronglySorted.
  - intros a b c Hab Hbc. now apply (str_le_trans _ (stamp b)).
  - assert (T : forall a b : A, newestFirst (stamp a) (stamp b) <= 0
                                \/ newestFirst (stamp b) (stamp a) <= 0).
    { intros a b. unfold newestFirst. apply localeCompare_total. }
    pose proof (Array_sort_sorted (fun a b => newestFirst (stamp a) (stamp b)) T l) as S.
    induction S as [|x l' S IH Hx]; constructor; [exact IH|].
    destruct Hx as [|y l'' Hxy]; constructor. now apply newestFirst_le.
Qed.

Lemma StronglySorted_app_inv (R : A -> A -> Prop) (l1 l2 : list A) :
  StronglySorted R (l1 ++ l2) ->
  forall x y, In x l1 -> In y l2 -> R x y.
Proof.
  induction l1 as [|z l1 IH]; intros S x y Hx Hy; [destruct Hx|].
  cbn [app] in S. inversion S as [|? ? S' Hz]; subst.
  destruct Hx as [<- | Hx].
  - rewrite List.Forall_forall in Hz. apply Hz. apply in_or_app. now right.
  - now apply IH.
Qed.

(** The first [n] rows by descending time stamp are the [n] most recent
    rows. *)
Lemma newest_rows (n : nat) (l : list A) :
  let sorted := Array_sort (fun a b => newestFirst (stamp a) (stamp b)) l in
  Permutation (firstn n sorted ++ skipn n sorted) l
  /\ length (firstn n sorted) = Nat.min n (length l)
  /\ StronglySorted (fun a b => str_le (stamp b) (stamp a) = true) (firstn n sorted)
  /\ forall x y, In x (firstn n sorted) -> In y (skipn n sorted) ->
                 str_le (stamp y) (stamp x) = true.
Proof.
  cbv zeta. set (sorted := Array_sort _ l).
  pose proof (sorted_newest_first l) as S. fold sorted in S.
  split; [|split; [|split]].
  - rewrite firstn_skipn. apply Array_sort_perm.
  - rewrite length_firstn. f_equal. apply Permutation_length. apply Array_sort_perm.
  - now apply StronglySorted_firstn.
  - rewrite <- (firstn_skipn n sorted) in S.
    intros x y Hx Hy. exact (StronglySorted_app_inv _ _ _ S x y Hx Hy).
Qed.

End Newest.

(** ** Repeated writes and the lists after a check-in *)


Section StoreFacts3.

Variable h : Host.










End StoreFacts3.
(** ** Fractions that are integers

    A cadence given as a fraction whose value is an integer is treated
    as that integer: the two branches of the scheduler agree. *)

Lemma addDaysFrac_integer (h : Host) (s : string) (n : Z) :
  addDaysFrac h s (QArith_base.inject_Z n) = addDays h s n.
Proof.
  unfold addDaysFrac, addDays.
  destruct (getDate h (Date_parse h (s +:+ "T00:00:00"))) as [d|];
    cbn [mbind option_bind]; [|reflexivity].
  replace (truncate (QArith_base.Qplus (QArith_base.inject_Z d) (QArith_base.inject_Z n)))
    with (d + n); [reflexivity|].
  unfold truncate. cbn. rewrite Z.quot_1_r. lia.
Qed.

Lemma remainderIsZero_integer (x p : Z) :
  0 < p -> remainderIsZero x (QArith_base.inject_Z p) = (Z.rem x p =? 0).
Proof.
  intros Hp. destruct p as [|p'|p']; try lia.
  unfold remainderIsZero, truncate. cbn.
  unfold QArith_base.Qeq_bool, QArith_base.Qminus, QArith_base.Qplus,
    QArith_base.Qopp, QArith_base.Qmult, QArith_base.inject_Z.
  cbn [QArith_base.Qnum QArith_base.Qden].
  change (1 * p')%positive with p'. change (1 * 1)%positive with 1%positive.
  change (1 * 1)%positive with 1%positive.
  rewrite !Z.mul_1_r.
  pose proof (Z.quot_rem' x (Z.pos p')) as E.
  destruct (Z.rem x (Z.pos p') =? 0) eqn:R.
  - apply Z.eqb_eq in R. apply Z.eqb_eq. lia.
  - apply Z.eqb_neq in R. apply Z.eqb_neq. lia.
Qed.

Lemma floorDiv_integer (x p : Z) :
  0 < p -> floorDiv x (QArith_base.inject_Z p) = x / p.
Proof.
  intros Hp. destruct p as [|p'|p']; try lia.
  unfold floorDiv, Qround.Qfloor, QArith_base.Qdiv, QArith_base.Qinv,
    QArith_base.Qmult, QArith_base.inject_Z.
  cbn [QArith_base.Qnum QArith_base.Qden].
  rewrite Z.mul_1_r. reflexivity.
Qed.

Lemma fraction_of_integer (h : Host) (p : Z) :
  (forall anchor last,
     calculateNextDueDate h anchor (Frac (QArith_base.inject_Z p)) last
     = calculateNextDueDate h anchor (Num p) last)
  /\ (forall nextDue reference,
        calculateMissedCount h nextDue (Frac (QArith_base.inject_Z p)) reference
        = calculateMissedCount h nextDue (Num p) reference).
Proof.
  split.
  - intros anchor last. unfold calculateNextDueDate.
    cbn [Number_isFinite number_le0 negb orb QArith_base.inject_Z QArith_base.Qnum].
    destruct (p <=? 0) eqn:Ep; [reflexivity|]. apply Z.leb_gt in Ep.
    destruct (negb (truthy last)); [reflexivity|].
    destruct (diffDays h _ _ <? 0); [reflexivity|].
    change {| QArith_base.Qnum := p; QArith_base.Qden := 1 |}
      with (QArith_base.inject_Z p).
    rewrite (remainderIsZero_integer _ _ Ep), (floorDiv_integer _ _ Ep).
    destruct (Z.rem _ p =? 0); [apply addDaysFrac_integer|].
    rewrite <- addDaysFrac_integer. reflexivity.
  - intros nextDue reference. unfold calculateMissedCount.
    cbn [Number_isFinite number_le0 negb orb QArith_base.inject_Z QArith_base.Qnum].
    destruct (String.eqb nextDue "" || false || (p <=? 0)) eqn:G; [reflexivity|].
    assert (Ep : 0 < p).
    { destruct (String.eqb nextDue ""); [discriminate G|]. cbn in G.
      now apply Z.leb_gt in G. }
    destruct (diffDays h _ _ <=? 0); [reflexivity|].
    change {| QArith_base.Qnum := p; QArith_base.Qden := 1 |}
      with (QArith_base.inject_Z p).
    now rewrite (floorDiv_integer _ _ Ep).
Qed.

(** ** Calls that complete *)

(** [upsertSchedule] completes for a cadence that is not [NaN] and a
    team that has a row or is in the store; so for every team of the
    store. *)
Lemma upsertScheduleRaises_false (db : DB) (teamId : Z) (cadence : number) :
  upsertScheduleRaises db teamId cadence = false
  <-> cadence <> NaN
      /\ (is_Some (checkin_schedules db !! teamId) \/ is_Some (teams db !! teamId)).
Proof.
  unfold upsertScheduleRaises. split.
  - intros H. split; [intros ->; discriminate H|].
    destruct (checkin_schedules db !! teamId); [left; now eexists|].
    destruct (teams db !! teamId); [right; now eexists|].
    now destruct cadence.
  - intros [Hc [[s Hs] | [t Ht]]].
    + rewrite Hs. now destruct cadence.
    + rewrite Ht. destruct cadence; try (now destruct (checkin_schedules db !! teamId)).
Qed.

Lemma upsertSchedule_completes (db : DB) (teamId : Z) (cadence : number) :
  is_Some (teams db !! teamId) -> cadence <> NaN ->
  upsertScheduleRaises db teamId cadence = false.
Proof. intros Ht Hc. apply upsertScheduleRaises_false. now split; [|right]. Qed.
(** ** Day differences *)



(** ** Due and upcoming lists *)

(** C8. For every store and every current date of the host, with the
    recomputed next due date of a scheduled team being
    [calculateNextDueDate] of its stored start date, its stored cadence
    and the local date of its latest check-in: [listDueCheckins] returns
    exactly the scheduled teams whose recomputed next due date is [<=]
    today, each with that date and with the missed count on today, in
    ascending order of next due date; [listUpcomingCheckins] returns
    those whose recomputed next due date is [>] today, each with that
    date, in ascending order of next due date, cut to the first [limit]
    entries (3 when no limit is given). *)
Theorem due_and_upcoming_lists (h : Host) (db : DB) :
  let recomputed := fun row =>
    calculateNextDueDate h (row_start_date row) (row_cadence_days row)
      (toLocalDate h (row_last_checkin_at row)) in
  let rows := listScheduledTeams db in
  (Permutation (map due_row (listDueCheckins h db))
     (List.filter (fun row => str_le (recomputed row) (today h)) rows)
   /\ (forall r, In r (listDueCheckins h db) ->
         due_next_due r = recomputed (due_row r)
         /\ due_missed_count r
            = calculateMissedCount h (recomputed (due_row r))
                (row_cadence_days (due_row r)) (Some (today h)))
   /\ StronglySorted (fun a b => str_le (due_next_due a) (due_next_due b) = true)
        (listDueCheckins h db))
  /\ exists sorted,
       Permutation (map upcoming_row sorted)
         (List.filter (fun row => str_gt (recomputed row) (today h)) rows)
       /\ (forall r, In r sorted -> upcoming_next_due r = recomputed (upcoming_row r))
       /\ StronglySorted
            (fun a b => str_le (upcoming_next_due a) (upcoming_next_due b) = true)
            sorted
       /\ listUpcomingCheckins h db None = firstn 3 sorted
       /\ forall limit, 0 <= limit ->
            listUpcomingCheckins h db (Some limit) = firstn (Z.to_nat limit) sorted.
Proof.
  cbv zeta. split; [split; [|split]|].
  - unfold listDueCheckins.
    etransitivity; [apply Permutation_map, Array_sort_perm|].
    rewrite (map_filter_map (dueCheckinOf h (today h)) due_row) by reflexivity.
    reflexivity.
  - intros r Hr. apply dueCheckins_elem in Hr as (row & _ & -> & _).
    split; reflexivity.
  - apply (sort_by_key_strongly_sorted due_next_due).
  - exists (Array_sort
              (fun a b => localeCompare (upcoming_next_due a) (upcoming_next_due b))
              (List.filter (fun r => str_gt (upcoming_next_due r) (today h))
                 (map (upcomingCheckinOf h) (listScheduledTeams db)))).
    split.
    { etransitivity; [apply Permutation_map, Array_sort_perm|].
      rewrite (map_filter_map (upcomingCheckinOf h) upcoming_row) by reflexivity.
      reflexivity. }
    split.
    { intros r Hr. apply (Permutation_in r (Array_sort_perm _ _)) in Hr.
      apply filter_In in Hr as [Hr _]. apply in_map_iff in Hr as (row & <- & _).
      reflexivity. }
    split; [apply (sort_by_key_strongly_sorted upcoming_next_due)|].
    split.
    + unfold listUpcomingCheckins. cbn [default].
      now rewrite Array_slice0_firstn by lia.
    + intros limit Hl. unfold listUpcomingCheckins. cbn [default].
      now rewrite Array_slice0_firstn by assumption.
Qed.

Lemma due_and_upcoming_lists_witness :
  map (fun r => (row_team_name (due_row r), due_next_due r, due_missed_count r))
    (listDueCheckins utcHost threeTeams)
  = [("Research", "2024-05-27", 1); ("Design", "2024-06-01", 0)]
  /\ map (fun r => (row_team_name (upcoming_row r), upcoming_next_due r))
       (listUpcomingCheckins utcHost threeTeams (Some 1))
     = [("Platform", "2024-06-03")]
  /\ exists sorted,
       Permutation (map upcoming_row sorted)
         (List.filter
            (fun row =>
               str_gt (calculateNextDueDate utcHost (row_start_date row)
                         (row_cadence_days row)
                         (toLocalDate utcHost (row_last_checkin_at row)))
                 (today utcHost))
            (listScheduledTeams threeTeams))
       /\ listUpcomingCheckins utcHost threeTeams (Some 1) = firstn 1 sorted.
Proof.
  split; [reflexivity|]. split; [reflexivity|].
  destruct (proj2 (due_and_upcoming_lists utcHost threeTeams))
    as (sorted & Hp & _ & _ & _ & Hl).
  exists sorted. split; [exact Hp|].
  apply (Hl 1). discriminate.
Defined.


(** * Further properties *)

(** ** Moving a date by days *)

(** X1. On a host whose offsets are of less than a day and whose
    transitions keep every midnight (daylight saving included), for a
    canonical date [s]: [addDays s n] is a canonical date exactly when
    the day [n] days from [s] is in the years 1000..9999, and it is then
    that day. It is never another canonical date. *)
Theorem addDays_calendar (h : Host) (s : string) (d n x : Z) :
  offsetsWithinDay h -> midnightsKept h -> dayOf s = Some d ->
  dayOf (addDays h s n) = Some x
  <-> x = d + n /\ firstFourDigitDay <= d + n <= lastCanonicalDay.
Proof.
  intros Ho Hm Hs. rewrite (addDays_steady h Ho Hm s d n Hs). split.
  - destruct (ES.TimeClip _); intros H.
    + apply dayOf_dateOfDay_inv in H. exact H.
    + discriminate H.
  - intros [-> R]. rewrite <- (addDays_steady h Ho Hm s d n Hs).
    now apply addDays_steady_day.
Qed.

Lemma addDays_calendar_witness :
  offsetsWithinDay easternHost /\ midnightsKept easternHost
  /\ dayOf "2024-03-09" = Some 19791
  /\ dayOf (addDays easternHost "2024-03-09" 2) = Some (19791 + 2).
Proof.
  split; [exact eastern_offsets|]. split; [exact eastern_midnights|].
  split; [reflexivity|].
  apply (addDays_calendar easternHost "2024-03-09" 19791 2 (19791 + 2)
           eastern_offsets eastern_midnights eq_refl).
  split; [reflexivity|]. vm_compute. split; discriminate.
Defined.

(** X2. On such a host, moving a canonical date by [m] days and then by
    [n] days is moving it by [m + n] days, provided the date in between
    is in the years 1000..9999 (the only dates [addDays] prints in
    canonical form). *)
Theorem addDays_additive (h : Host) (s : string) (d m n : Z) :
  offsetsWithinDay h -> midnightsKept h -> dayOf s = Some d ->
  firstFourDigitDay <= d + m <= lastCanonicalDay ->
  addDays h (addDays h s m) n = addDays h s (m + n).
Proof.
  intros Ho Hm Hs R.
  pose proof (addDays_steady_day h Ho Hm s d m Hs R) as Hmid.
  rewrite (addDays_steady h Ho Hm _ _ n Hmid).
  rewrite (addDays_steady h Ho Hm _ _ (m + n) Hs).
  now rewrite Z.add_assoc.
Qed.

Lemma addDays_additive_witness :
  offsetsWithinDay easternHost /\ midnightsKept easternHost
  /\ dayOf "2024-03-09" = Some 19791
  /\ addDays easternHost (addDays easternHost "2024-03-09" 1) 1
     = addDays easternHost "2024-03-09" (1 + 1).
Proof.
  split; [exact eastern_offsets|]. split; [exact eastern_midnights|].
  split; [reflexivity|].
  apply (addDays_additive easternHost "2024-03-09" 19791 1 1
           eastern_offsets eastern_midnights eq_refl).
  vm_compute. split; discriminate.
Defined.

(** X3. On such a host, for a canonical date [s]: [addDays s 0] gives
    [s] back exactly when [s] is in year 1000 or later (an earlier year
    is printed without its leading zeros); and for such a date, moving
    by [n] days within the years 1000..9999 and back by [n] days gives
    [s] again. *)
Theorem addDays_round_trip (h : Host) (s : string) (d n : Z) :
  offsetsWithinDay h -> midnightsKept h -> dayOf s = Some d ->
  (addDays h s 0 = s <-> firstFourDigitDay <= d)
  /\ (firstFourDigitDay <= d -> firstFourDigitDay <= d + n <= lastCanonicalDay ->
      addDays h (addDays h s n) (- n) = s).
Proof.
  intros Ho Hm Hs. pose proof (dayOf_range _ _ Hs) as R.
  assert (Z0 : addDays h s 0 = dateOfDay d).
  { rewrite (addDays_steady_canonical h Ho Hm s d 0 Hs) by lia.
    now rewrite Z.add_0_r. }
  split; [split|].
  - intros E. rewrite Z0 in E. rewrite <- E in Hs.
    apply dayOf_dateOfDay_inv in Hs. lia.
  - intros F. rewrite Z0. now apply dateOfDay_dayOf.
  - intros F Rn.
    pose proof (addDays_steady_day h Ho Hm s d n Hs Rn) as Hmid.
    rewrite (addDays_steady_canonical h Ho Hm _ _ (- n) Hmid) by lia.
    replace (d + n + - n) with d by lia. now apply dateOfDay_dayOf.
Qed.

Lemma addDays_round_trip_witness :
  offsetsWithinDay easternHost /\ midnightsKept easternHost
  /\ dayOf "2024-03-09" = Some 19791
  /\ addDays easternHost "2024-03-09" 0 = "2024-03-09"
  /\ addDays easternHost (addDays easternHost "2024-03-09" 7) (- 7) = "2024-03-09".
Proof.
  split; [exact eastern_offsets|]. split; [exact eastern_midnights|].
  split; [reflexivity|].
  destruct (addDays_round_trip easternHost "2024-03-09" 19791 7
              eastern_offsets eastern_midnights eq_refl) as [H0 H7].
  split.
  - apply H0. vm_compute. discriminate.
  - apply H7; vm_compute; [|split]; discriminate.
Defined.

(** ** Counting days *)

(** X4. On a host whose offsets are of less than a day, for canonical
    dates with day numbers [d1] and [d2]: [diffDays] is [d2 - d1] plus
    the difference of the zone offsets at the two local midnights,
    divided by a day and rounded down. So it is the difference of the
    calendar days when the offset at the end is the same or less (by
    less than a day), and one less when the offset at the end is
    greater: after a spring-forward change. *)
Theorem diffDays_offsets (h : Host) (s1 s2 : string) (d1 d2 : Z) :
  offsetsWithinDay h -> dayOf s1 = Some d1 -> dayOf s2 = Some d2 ->
  let o1 := LocalTZA h (d1 * ES.msPerDay) false in
  let o2 := LocalTZA h (d2 * ES.msPerDay) false in
  diffDays h s1 s2 = d2 - d1 + (o1 - o2) / ES.msPerDay
  /\ (0 <= o1 - o2 < ES.msPerDay -> diffDays h s1 s2 = d2 - d1)
  /\ (- ES.msPerDay <= o1 - o2 < 0 -> diffDays h s1 s2 = d2 - d1 - 1).
Proof.
  intros Ho H1 H2 o1 o2.
  assert (E : diffDays h s1 s2 = d2 - d1 + (o1 - o2) / ES.msPerDay).
  { unfold diffDays.
    rewrite (parseDate_canonical h Ho _ _ H1), (parseDate_canonical h Ho _ _ H2).
    unfold UTC. fold o1 o2. unfold ES.msPerDay.
    replace (d2 * 86400000 - o2 - (d1 * 86400000 - o1))
      with ((d2 - d1) * 86400000 + (o1 - o2)) by lia.
    now rewrite Z.div_add_l by discriminate. }
  split; [exact E|]. rewrite E. unfold ES.msPerDay. split; intros R.
  - rewrite Z.div_small by lia. lia.
  - replace ((o1 - o2) / 86400000) with (-1); [lia|].
    Z.to_euclidean_division_equations; lia.
Qed.

Lemma diffDays_offsets_witness :
  offsetsWithinDay easternHost
  /\ dayOf "2024-03-10" = Some 19792 /\ dayOf "2024-03-11" = Some 19793
  /\ LocalTZA easternHost (19792 * ES.msPerDay) false = -5 * hour
  /\ LocalTZA easternHost (19793 * ES.msPerDay) false = -4 * hour
  /\ diffDays easternHost "2024-03-10" "2024-03-11" = 19793 - 19792 - 1.
Proof.
  split; [exact eastern_offsets|]. split; [reflexivity|]. split; [reflexivity|].
  split; [reflexivity|]. split; [reflexivity|].
  apply (diffDays_offsets easternHost "2024-03-10" "2024-03-11" 19792 19793
           eastern_offsets eq_refl eq_refl).
  vm_compute. split; [discriminate | reflexivity].
Defined.

(** X5. On a host at a constant offset from UTC, [diffDays] and
    [addDays] undo each other on canonical dates: the days from [s] to
    [addDays s n] are [n] when the result is in the years 1000..9999,
    and moving [s1] by [diffDays s1 s2] gives [s2] when [s2] is in year
    1000 or later. *)
Theorem diffDays_inverts_addDays (h : Host) (s1 s2 : string) (d1 d2 n : Z) :
  fixedOffset h -> dayOf s1 = Some d1 -> dayOf s2 = Some d2 ->
  (firstFourDigitDay <= d1 + n <= lastCanonicalDay ->
   diffDays h s1 (addDays h s1 n) = n)
  /\ (firstFourDigitDay <= d2 -> addDays h s1 (diffDays h s1 s2) = s2).
Proof.
  intros F H1 H2. destruct (fixedOffset_steady h F) as [Ho Hm].
  destruct F as (o & Hr & Hc). split.
  - intros R. pose proof (addDays_steady_day h Ho Hm s1 d1 n H1 R) as Hn.
    rewrite (diffDays_fixed h o Hr Hc _ _ _ _ H1 Hn). lia.
  - intros R. rewrite (diffDays_fixed h o Hr Hc _ _ _ _ H1 H2).
    pose proof (dayOf_range _ _ H2) as R2.
    rewrite (addDays_steady_canonical h Ho Hm s1 d1 _ H1) by lia.
    replace (d1 + (d2 - d1)) with d2 by lia. now apply dateOfDay_dayOf.
Qed.

Lemma diffDays_inverts_addDays_witness :
  fixedOffset utcHost
  /\ dayOf "2024-01-01" = Some 19723 /\ dayOf "2024-02-29" = Some 19782
  /\ diffDays utcHost "2024-01-01" (addDays utcHost "2024-01-01" (-400)) = -400
  /\ addDays utcHost "2024-01-01" (diffDays utcHost "2024-01-01" "2024-02-29")
     = "2024-02-29".
Proof.
  assert (F : fixedOffset utcHost).
  { exists 0. split; [split; reflexivity | intros; reflexivity]. }
  split; [exact F|]. split; [reflexivity|]. split; [reflexivity|].
  destruct (diffDays_inverts_addDays utcHost "2024-01-01" "2024-02-29" 19723 19782 (-400)
              F eq_refl eq_refl) as [Ha Hb].
  split.
  - apply Ha. vm_compute. split; discriminate.
  - apply Hb. vm_compute. discriminate.
Defined.

(** ** The current date and time stamps *)

(** X6. On every host, [today()] is a canonical date exactly when the
    local day of the clock is in the years 1000..9999, and it is then
    that day. *)
Theorem today_is_local_day (h : Host) (x : Z) :
  dayOf (today h) = Some x
  <-> x = localDay h (clock h) /\ firstFourDigitDay <= x <= lastCanonicalDay.
Proof.
  rewrite today_day. split.
  - intros H. apply dayOf_dateOfDay_inv in H. destruct H as [-> R]. now split.
  - intros [-> R]. now apply dayOf_dateOfDay.
Qed.

(** X7. On every host, a time stamp that [toISOString] wrote for a time
    value of the years 0..9999 is read back by [new Date] as that time
    value, and [toLocalDate] gives its local date; so
    [toLocalDate(now())] is [today()]. *)
Theorem toLocalDate_reads_time_stamp (h : Host) (t : Z) :
  plainYear t ->
  Date_parse h (toISOString t) = Some t
  /\ toLocalDate h (Some (toISOString t)) = Some (formatLocalDate h (Some t))
  /\ (plainYear (clock h) -> toLocalDate h (Some (now h)) = Some (today h)).
Proof.
  intros P. split; [now apply Date_parse_toISOString|].
  split; [now apply toLocalDate_toISOString|].
  intros Pc. now apply toLocalDate_toISOString.
Qed.

Lemma toLocalDate_reads_time_stamp_witness :
  plainYear (clock easternHost)
  /\ toLocalDate easternHost (Some (now easternHost)) = Some (today easternHost).
Proof.
  assert (P : plainYear (clock easternHost)) by (vm_compute; split; discriminate).
  split; [exact P|].
  now apply (toLocalDate_reads_time_stamp easternHost (clock easternHost) P).
Defined.

(** X8. Time stamps written by [toISOString] for time values of the
    years 0..9999 compare, as strings, in the order of time: the order
    that [MAX(created_at)] and [ORDER BY created_at] rely on. *)
Theorem time_stamps_ordered (t1 t2 : Z) :
  plainYear t1 -> plainYear t2 ->
  (str_le (toISOString t1) (toISOString t2) = true <-> t1 <= t2)
  /\ (toISOString t1 = toISOString t2 <-> t1 = t2).
Proof.
  intros P1 P2. pose proof (toISOString_compare t1 t2 P1 P2) as C. split.
  - unfold str_le, String.leb. rewrite C.
    destruct (Z.compare_spec t1 t2); split; intros; try lia; try reflexivity; discriminate.
  - split; [|now intros ->].
    intros E. rewrite E in C.
    assert (R : String.compare (toISOString t2) (toISOString t2) = Eq).
    { rewrite (toISOString_compare t2 t2 P2 P2). apply Z.compare_refl. }
    rewrite R in C. symmetry in C. now apply Z.compare_eq_iff in C.
Qed.

Lemma time_stamps_ordered_witness :
  plainYear 1710046800000 /\ plainYear 1710129600000
  /\ (str_le (toISOString 1710046800000) (toISOString 1710129600000) = true
      <-> 1710046800000 <= 1710129600000).
Proof.
  assert (P1 : plainYear 1710046800000) by (vm_compute; split; discriminate).
  assert (P2 : plainYear 1710129600000) by (vm_compute; split; discriminate).
  split; [exact P1|]. split; [exact P2|].
  exact (proj1 (time_stamps_ordered 1710046800000 1710129600000 P1 P2)).
Defined.

(** X9. When the check-ins of a team carry time stamps written by
    [toISOString] for time values of the years 0..9999,
    [getLastTeamCheckinDate] is the local date of the latest of them, on
    every host and in whatever order they are stored. *)
Theorem last_checkin_is_latest (h : Host) (db : DB) (teamId t : Z) (ts : list Z) :
  Forall plainYear (t :: ts) ->
  map checkin_created_at
    (List.filter (fun c => checkin_team_id c =? teamId) (checkins db))
  = map toISOString (t :: ts) ->
  getLastTeamCheckinDate h db teamId
  = Some (formatLocalDate h (Some (fold_left Z.max ts t))).
Proof. apply getLastTeamCheckinDate_latest. Qed.

Lemma last_checkin_is_latest_witness :
  Forall plainYear [1704877200000; 1704790800000]
  /\ getLastTeamCheckinDate utcHost
       (withCheckin checkedInStore 1 10 "2024-01-09T09:00:00.000Z") 1
     = Some (formatLocalDate utcHost (Some (fold_left Z.max [1704790800000] 1704877200000))).
Proof.
  assert (P : Forall plainYear [1704877200000; 1704790800000]).
  { repeat constructor; vm_compute; discriminate. }
  split; [exact P|].
  apply (last_checkin_is_latest utcHost
           (withCheckin checkedInStore 1 10 "2024-01-09T09:00:00.000Z") 1
           1704877200000 [1704790800000] P).
  reflexivity.
Defined.

(** ** Normalizing a date *)

(** X10. [normalizeDate] is idempotent and never returns the empty
    string, on every host and for every input; when [today()] has the
    form YYYY-MM-DD, so has every result. *)
Theorem normalizeDate_idempotent (h : Host) (v : option string) :
  normalizeDate h (Some (normalizeDate h v)) = normalizeDate h v
  /\ normalizeDate h v <> ""
  /\ (canonicalForm (today h) -> canonicalForm (normalizeDate h v)).
Proof.
  split; [apply normalizeDate_idem|].
  split; [apply normalizeDate_nonempty | apply normalizeDate_form].
Qed.

(** ** The next due date and the missed count *)

(** X11. On a host at a constant offset from UTC, under the range
    conditions of the amended C2, the next due date is the earliest date
    of the anchor's grid (anchor, anchor + period, ...) that is after the
    last activity: it is the anchor plus a whole number [n >= 0] of
    periods, it is after the last activity, and no date of the grid that
    is after the last activity is before it; it is the anchor itself when
    the last activity is before the anchor, and otherwise at most one
    period after the last activity. *)
Theorem nextDue_earliest (h : Host) (anchor last : string) (p a l : Z) :
  fixedOffset h ->
  dayOf anchor = Some a -> dayOf last = Some l -> 0 < p ->
  firstFourDigitDay <= Z.max a l -> (a <= l -> l + p <= lastCanonicalDay) ->
  exists n d,
    0 <= n /\ d = a + n * p
    /\ dayOf (calculateNextDueDate h anchor (Num p) (Some last)) = Some d
    /\ l < d
    /\ (l < a -> d = a)
    /\ (a <= l -> d <= l + p)
    /\ forall m, 0 <= m -> l < a + m * p -> d <= a + m * p.
Proof.
  intros F Ha Hl Hp Hfirst Hlast.
  destruct (nextDue_fixed h F anchor last p a l Ha Hl Hp Hfirst Hlast)
    as (n & Hn & Hgt & Hle & Hz & _ & Hday).
  exists n, (a + n * p). split; [exact Hn|]. split; [reflexivity|].
  split; [exact Hday|]. split; [exact Hgt|].
  split; [intros B; rewrite (Hz B); lia|]. split; [exact Hle|].
  intros m Hm Hlm.
  destruct (Z_lt_le_dec l a) as [B | B].
  - rewrite (Hz B). nia.
  - specialize (Hle B).
    assert (N : n < m + 1) by (apply (Z.mul_lt_mono_pos_r p); lia).
    pose proof (Z.mul_le_mono_nonneg_r n m p ltac:(lia) ltac:(lia)). lia.
Qed.

Lemma nextDue_earliest_witness :
  fixedOffset utcHost
  /\ dayOf "2024-01-01" = Some 19723 /\ dayOf "2024-01-10" = Some 19732
  /\ calculateNextDueDate utcHost "2024-01-01" (Num 7) (Some "2024-01-10") = "2024-01-15"
  /\ exists n d,
       0 <= n /\ d = 19723 + n * 7
       /\ dayOf (calculateNextDueDate utcHost "2024-01-01" (Num 7) (Some "2024-01-10"))
          = Some d
       /\ 19732 < d
       /\ (19732 < 19723 -> d = 19723)
       /\ (19723 <= 19732 -> d <= 19732 + 7)
       /\ forall m, 0 <= m -> 19732 < 19723 + m * 7 -> d <= 19723 + m * 7.
Proof.
  assert (F : fixedOffset utcHost).
  { exists 0. split; [split; reflexivity | intros; reflexivity]. }
  split; [exact F|]. split; [reflexivity|]. split; [reflexivity|].
  split; [reflexivity|].
  apply (nextDue_earliest utcHost "2024-01-01" "2024-01-10" 7 19723 19732
           F eq_refl eq_refl).
  - reflexivity.
  - vm_compute. discriminate.
  - intros _. vm_compute. discriminate.
Defined.

(** X12. On a host at a constant offset from UTC, for canonical dates
    and a positive integer cadence, the missed count is the number of
    cadence dates (next due, next due + cadence, ...) that are before
    the reference date: the date [m] cadences after the next due date is
    before the reference date exactly when [m] is less than the missed
    count. *)
Theorem missedCount_counts_cadence_dates (h : Host) (nextDue reference : string)
    (p d r : Z) :
  fixedOffset h -> dayOf nextDue = Some d -> dayOf reference = Some r -> 0 < p ->
  let k := calculateMissedCount h nextDue (Num p) (Some reference) in
  0 <= k /\ forall m, 0 <= m -> (d + m * p < r <-> m < k).
Proof.
  intros (o & Hr & Hc) Hd Href Hp. cbv zeta.
  assert (Hne : nextDue <> "").
  { intros E. rewrite E in Hd. discriminate Hd. }
  rewrite (missedCount_unfold h _ _ _ Hne Hp). cbv zeta.
  rewrite (diffDays_fixed h o Hr Hc _ _ _ _ Hd Href).
  destruct (r - d <=? 0) eqn:E.
  - apply Z.leb_le in E. split; [lia|]. intros m Hm. nia.
  - apply Z.leb_gt in E.
    pose proof (Z.div_mod (r - d - 1) p ltac:(lia)) as Hdm.
    pose proof (Z.mod_pos_bound (r - d - 1) p Hp) as Hmod.
    assert (Hq : 0 <= (r - d - 1) / p) by (apply Z.div_pos; lia).
    split; [lia|]. intros m Hm. split; intros H; nia.
Qed.

Lemma missedCount_counts_cadence_dates_witness :
  fixedOffset utcHost
  /\ dayOf "2024-01-15" = Some 19737 /\ dayOf "2024-01-30" = Some 19752
  /\ calculateMissedCount utcHost "2024-01-15" (Num 7) (Some "2024-01-30") = 3
  /\ forall m, 0 <= m ->
       (19737 + m * 7 < 19752
        <-> m < calculateMissedCount utcHost "2024-01-15" (Num 7) (Some "2024-01-30")).
Proof.
  assert (F : fixedOffset utcHost).
  { exists 0. split; [split; reflexivity | intros; reflexivity]. }
  split; [exact F|]. split; [reflexivity|]. split; [reflexivity|].
  split; [reflexivity|].
  apply (missedCount_counts_cadence_dates utcHost "2024-01-15" "2024-01-30" 7 19737 19752
           F eq_refl eq_refl).
  reflexivity.
Defined.

(** ** Reading and writing schedules *)

(** X13. On every host, [getSchedule] gives null exactly for a team
    without a schedule row. For a team that has a row with a start date
    of the form YYYY-MM-DD and no check-in, the next due date is the
    start date, whatever the cadence, and the missed count is counted
    from it. *)
Theorem getSchedule_without_checkins (h : Host) (db : DB) (teamId : Z) :
  (getSchedule h db teamId = None <-> checkin_schedules db !! teamId = None)
  /\ forall s,
       checkin_schedules db !! teamId = Some s ->
       canonicalForm (start_date s) ->
       (forall c, In c (checkins db) -> checkin_team_id c <> teamId) ->
       exists v,
         getSchedule h db teamId = Some v
         /\ view_next_due v = start_date s
         /\ view_missed_count v
            = calculateMissedCount h (start_date s) (cadence_days s) (Some (today h)).
Proof.
  split.
  - unfold getSchedule. destruct (checkin_schedules db !! teamId); cbn; split;
      intros H; try reflexivity; discriminate H.
  - intros s Hs Hf Hc.
    assert (Hne : start_date s <> "").
    { apply String.eqb_neq. now apply canonicalForm_nonempty. }
    destruct (getSchedule_lookup h db teamId s Hs Hne) as (v & Hv & _ & _ & Hn & Hm).
    assert (N : view_next_due v = start_date s).
    { rewrite Hn, (getLastTeamCheckinDate_none h db teamId Hc), nextDue_no_checkin.
      now apply normalizeDate_canonical. }
    exists v. split; [exact Hv|]. split; [exact N|]. now rewrite Hm, N.
Qed.

Lemma getSchedule_without_checkins_witness :
  getSchedule utcHost emptyStore 1 = None
  /\ exists v,
       getSchedule utcHost weeklyStore 1 = Some v
       /\ view_next_due v = "2024-01-01"
       /\ view_missed_count v = 22.
Proof.
  split.
  - apply (proj1 (getSchedule_without_checkins utcHost emptyStore 1)). reflexivity.
  - destruct (proj2 (getSchedule_without_checkins utcHost weeklyStore 1)
                (scheduleRow 7 "2024-01-01" "2024-01-01") eq_refl eq_refl)
      as (v & Hv & Hn & Hm).
    + intros c [].
    + exists v. split; [exact Hv|]. split; [exact Hn|]. rewrite Hm. reflexivity.
Defined.

(** X14. On every host, [createCheckin] appends exactly one check-in,
    stamped with [now()], and keeps the earlier ones; it leaves teams,
    people and the rows of every other team as they are; it never
    creates or removes a schedule row, and in the row of its own team it
    changes [next_due] only. It returns null exactly when the team has
    no row. *)
Theorem createCheckin_frame (h : Host) (db : DB) (teamId personId : Z) (rating_ : number)
    (notes_ : option string) :
  let r := createCheckin h db teamId personId rating_ notes_ in
  checkins r.1
  = (checkins db ++
     [ {| checkin_team_id := teamId; checkin_person_id := personId;
          rating := rating_; notes := notes_; checkin_created_at := now h |} ])%list
  /\ teams r.1 = teams db /\ people r.1 = people db
  /\ schedule_seq r.1 = schedule_seq db
  /\ (forall k, k <> teamId -> checkin_schedules r.1 !! k = checkin_schedules db !! k)
  /\ (checkin_schedules db !! teamId = None ->
      r.2 = None /\ checkin_schedules r.1 = checkin_schedules db)
  /\ (forall s, checkin_schedules db !! teamId = Some s ->
      exists nextDue,
        r.2 = Some nextDue
        /\ checkin_schedules r.1 !! teamId = Some (setNextDue nextDue s)).
Proof.
  cbv zeta. unfold createCheckin, getSchedule. cbn [checkin_schedules].
  destruct (checkin_schedules db !! teamId) as [s|] eqn:Hs;
    cbn [mbind option_bind fst snd checkins teams people schedule_seq checkin_schedules].
  - split; [reflexivity|]. split; [reflexivity|]. split; [reflexivity|].
    split; [reflexivity|]. split; [|split].
    + intros k Hk. now apply lookup_alter_ne.
    + discriminate.
    + intros s' E. inversion E; subst s'. eexists. split; [reflexivity|].
      now rewrite lookup_alter_eq, Hs.
  - split; [reflexivity|]. split; [reflexivity|]. split; [reflexivity|].
    split; [reflexivity|]. split; [|split].
    + reflexivity.
    + now split.
    + intros s' E. discriminate E.
Qed.

(** X15. On every host, for every call of [upsertSchedule] that
    completes (the cadence is not [NaN], and the team has a row or is in
    the store, so that the NOT NULL and foreign key constraints of the
    schema hold; [upsertScheduleRaises] is false): after the call a read
    with [getSchedule] finds the row, with the normalized start date and
    the cadence that were given, and reports the next due date
    recomputed from the team's check-ins; for an existing row this is
    the date [upsertSchedule] returned, for a new row it need not be
    (C9). When the team is in the store it is among the scheduled teams,
    with that start date and cadence. Teams, people, check-ins and the
    rows of other teams are left as they are. *)
Theorem upsertSchedule_then_getSchedule (h : Host) (db : DB) (teamId : Z)
    (cadence : number) (start : option string) :
  upsertScheduleRaises db teamId cadence = false ->
  let r := upsertSchedule h db teamId cadence start in
  (exists v,
     getSchedule h r.1 teamId = Some v
     /\ view_start_date v = normalizeDate h start
     /\ view_cadence_days v = cadence
     /\ view_next_due v
        = calculateNextDueDate h (normalizeDate h start) cadence
            (getLastTeamCheckinDate h db teamId)
     /\ (is_Some (checkin_schedules db !! teamId) -> r.2 = view_next_due v))
  /\ (is_Some (teams db !! teamId) ->
      exists row,
        In row (listScheduledTeams r.1) /\ row_team_id row = teamId
        /\ row_start_date row = normalizeDate h start
        /\ row_cadence_days row = cadence)
  /\ teams r.1 = teams db /\ people r.1 = people db /\ checkins r.1 = checkins db
  /\ forall k, k <> teamId -> checkin_schedules r.1 !! k = checkin_schedules db !! k.
Proof.
  intros _. cbv zeta. pose proof (normalizeDate_nonempty h start) as Hne.
  assert (Rows : forall db' s,
            teams db' = teams db -> checkin_schedules db' !! teamId = Some s ->
            is_Some (teams db !! teamId) ->
            exists row, In row (listScheduledTeams db') /\ row_team_id row = teamId
                        /\ row_start_date row = start_date s
                        /\ row_cadence_days row = cadence_days s).
  { intros db' s Et Hs [t Ht].
    destruct (scheduledTeamRow db' (teamId, s)) as [row|] eqn:Hr.
    - assert (Eid : row_team_id row = teamId /\ row_start_date row = start_date s
                    /\ row_cadence_days row = cadence_days s).
      { unfold scheduledTeamRow in Hr. rewrite Et, Ht in Hr.
        cbn [mbind option_bind] in Hr. injection Hr as <-. now repeat split. }
      exists row. split; [|exact Eid].
      apply scheduledTeams_elem. destruct Eid as (-> & _). now exists s.
    - unfold scheduledTeamRow in Hr. rewrite Et, Ht in Hr. discriminate Hr. }
  unfold upsertSchedule.
  destruct (checkin_schedules db !! teamId) as [existing|] eqn:Hs; cbn [fst snd].
  - split; [|split].
    + match goal with
      | |- context [getSchedule h ?db' teamId] =>
          destruct (getSchedule_lookup h db' teamId
                      {| schedule_id := schedule_id existing;
                         cadence_days := cadence;
                         start_date := normalizeDate h start;
                         next_due :=
                           calculateNextDueDate h (normalizeDate h start) cadence
                             (getLastTeamCheckinDate h db teamId);
                         schedule_created_at := schedule_created_at existing |})
            as (v & Hv & Hsd & Hcd & Hn & _)
      end.
      { cbn. apply lookup_insert_eq. }
      { exact Hne. }
      exists v. split; [exact Hv|]. cbn in Hsd, Hcd, Hn.
      split; [exact Hsd|]. split; [exact Hcd|]. split; [exact Hn|].
      intros _. now rewrite Hn.
    + match goal with
      | |- context [listScheduledTeams ?db'] =>
          apply (Rows db'
                   {| schedule_id := schedule_id existing;
                      cadence_days := cadence;
                      start_date := normalizeDate h start;
                      next_due :=
                        calculateNextDueDate h (normalizeDate h start) cadence
                          (getLastTeamCheckinDate h db teamId);
                      schedule_created_at := schedule_created_at existing |})
      end; [reflexivity | cbn; apply lookup_insert_eq].
    + cbn. repeat split. intros k Hk. now apply lookup_insert_ne.
  - split; [|split].
    + match goal with
      | |- context [getSchedule h ?db' teamId] =>
          destruct (getSchedule_lookup h db' teamId
                      {| schedule_id := schedule_seq db + 1;
                         cadence_days := cadence;
                         start_date := normalizeDate h start;
                         next_due := normalizeDate h start;
                         schedule_created_at := now h |})
            as (v & Hv & Hsd & Hcd & Hn & _)
      end.
      { cbn. apply lookup_insert_eq. }
      { exact Hne. }
      exists v. split; [exact Hv|]. cbn in Hsd, Hcd, Hn.
      split; [exact Hsd|]. split; [exact Hcd|]. split; [exact Hn|].
      intros [x Hx]. discriminate Hx.
    + match goal with
      | |- context [listScheduledTeams ?db'] =>
          apply (Rows db'
                   {| schedule_id := schedule_seq db + 1;
                      cadence_days := cadence;
                      start_date := normalizeDate h start;
                      next_due := normalizeDate h start;
                      schedule_created_at := now h |})
      end; [reflexivity | cbn; apply lookup_insert_eq].
    + cbn. repeat split. intros k Hk. now apply lookup_insert_ne.
Qed.

Lemma upsertSchedule_then_getSchedule_witness :
  upsertScheduleRaises checkedInStore 1 (Num 7) = false
  /\ (upsertSchedule utcHost checkedInStore 1 (Num 7) (Some "2024-01-01")).2 = "2024-01-01"
  /\ exists v,
       getSchedule utcHost
         (upsertSchedule utcHost checkedInStore 1 (Num 7) (Some "2024-01-01")).1 1
       = Some v
       /\ view_start_date v = "2024-01-01"
       /\ view_next_due v = "2024-01-15".
Proof.
  assert (H1 : upsertScheduleRaises checkedInStore 1 (Num 7) = false) by reflexivity.
  split; [exact H1|]. split; [reflexivity|].
  destruct (proj1 (upsertSchedule_then_getSchedule utcHost checkedInStore 1 (Num 7)
                     (Some "2024-01-01") H1))
    as (v & Hv & Hsd & _ & Hn & _).
  exists v. split; [exact Hv|]. split; [exact Hsd|]. rewrite Hn. reflexivity.
Defined.

(** ** The scheduled teams and the two lists *)

(** X16. [listScheduledTeams] returns one row for each schedule whose
    team exists and no other row, in the order of the team names; the
    row carries the stored start date and cadence, the number of people
    of the team and the latest check-in time stamp of the team. *)
Theorem listScheduledTeams_rows (db : DB) :
  let rows := listScheduledTeams db in
  NoDup (map row_team_id rows)
  /\ (forall teamId,
        In teamId (map row_team_id rows)
        <-> is_Some (checkin_schedules db !! teamId) /\ is_Some (teams db !! teamId))
  /\ (forall r, In r rows ->
        exists s t,
          checkin_schedules db !! row_team_id r = Some s
          /\ teams db !! row_team_id r = Some t
          /\ row_team_name r = team_name t
          /\ row_start_date r = start_date s
          /\ row_cadence_days r = cadence_days s
          /\ row_people_count r
             = Z.of_nat (length (List.filter
                                   (fun p => person_team_id p.2 =? row_team_id r)
                                   (map_to_list (people db))))
          /\ row_last_checkin_at r = maxCheckinCreatedAt db (row_team_id r))
  /\ StronglySorted (fun a b => str_le (row_team_name a) (row_team_name b) = true) rows.
Proof.
  cbv zeta.
  assert (Hrow : forall r, In r (listScheduledTeams db) ->
            exists s t,
              checkin_schedules db !! row_team_id r = Some s
              /\ teams db !! row_team_id r = Some t
              /\ r = {| row_team_id := row_team_id r;
                        row_team_name := team_name t;
                        row_start_date := start_date s;
                        row_cadence_days := cadence_days s;
                        row_people_count :=
                          Z.of_nat (length (List.filter
                                              (fun p => person_team_id p.2 =? row_team_id r)
                                              (map_to_list (people db))));
                        row_last_checkin_at := maxCheckinCreatedAt db (row_team_id r) |}).
  { intros r Hr. apply scheduledTeams_elem in Hr as (s & Hs & Hr).
    unfold scheduledTeamRow in Hr.
    destruct (teams db !! row_team_id r) as [t|] eqn:Ht; [|discriminate].
    cbn [mbind option_bind] in Hr. injection Hr as E.
    exists s, t. now rewrite E. }
  split; [|split; [|split]].
  - unfold listScheduledTeams.
    rewrite (Permutation_map row_team_id (Array_sort_perm _ _)).
    apply (sublist_NoDup _ _ (NoDup_fst_map_to_list (checkin_schedules db))).
    apply omap_fst_sublist.
  - intros teamId. rewrite in_map_iff. split.
    + intros (r & <- & Hr). destruct (Hrow r Hr) as (s & t & Hs & Ht & _).
      split; eexists; eassumption.
    + intros [[s Hs] [t Ht]].
      exists {| row_team_id := teamId;
                row_team_name := team_name t;
                row_start_date := start_date s;
                row_cadence_days := cadence_days s;
                row_people_count :=
                  Z.of_nat (length (List.filter (fun p => person_team_id p.2 =? teamId)
                                      (map_to_list (people db))));
                row_last_checkin_at := maxCheckinCreatedAt db teamId |}.
      split; [reflexivity|]. apply scheduledTeams_elem. cbn [row_team_id].
      exists s. split; [exact Hs|]. unfold scheduledTeamRow. now rewrite Ht.
  - intros r Hr. destruct (Hrow r Hr) as (s & t & Hs & Ht & E).
    exists s, t. split; [exact Hs|]. split; [exact Ht|]. now rewrite E.
  - apply (sort_by_key_strongly_sorted row_team_name).
Qed.

Lemma listScheduledTeams_rows_witness :
  map row_team_name (listScheduledTeams threeTeams) = ["Design"; "Platform"; "Research"]
  /\ (In 2 (map row_team_id (listScheduledTeams threeTeams))
      <-> is_Some (checkin_schedules threeTeams !! 2) /\ is_Some (teams threeTeams !! 2)).
Proof.
  split; [reflexivity|].
  exact (proj1 (proj2 (listScheduledTeams_rows threeTeams)) 2).
Defined.

(** X17. On every host, each scheduled team is in exactly one of the
    two lists: the rows of [listDueCheckins] together with the rows of
    [listUpcomingCheckins], when its limit is not below the number of
    scheduled teams, are the rows of [listScheduledTeams], each once. *)
Theorem due_upcoming_partition (h : Host) (db : DB) (limit : Z) :
  Z.of_nat (length (listScheduledTeams db)) <= limit ->
  Permutation
    (map due_row (listDueCheckins h db)
     ++ map upcoming_row (listUpcomingCheckins h db (Some limit)))
    (listScheduledTeams db).
Proof.
  intros Hl. unfold listDueCheckins, listUpcomingCheckins. cbn [default].
  set (rows := listScheduledTeams db) in *.
  set (f := fun row =>
              str_le (calculateNextDueDate h (row_start_date row) (row_cadence_days row)
                        (toLocalDate h (row_last_checkin_at row))) (today h)).
  assert (Hd : Permutation
                 (map due_row
                    (Array_sort (fun a b => localeCompare (due_next_due a) (due_next_due b))
                       (List.filter (fun row => str_le (due_next_due row) (today h))
                          (map (dueCheckinOf h (today h)) rows))))
                 (List.filter f rows)).
  { rewrite (Array_sort_perm _ _).
    now rewrite (map_filter_map (dueCheckinOf h (today h)) due_row). }
  assert (Hu : Permutation
                 (map upcoming_row
                    (Array_sort
                       (fun a b => localeCompare (upcoming_next_due a) (upcoming_next_due b))
                       (List.filter (fun row => str_gt (upcoming_next_due row) (today h))
                          (map (upcomingCheckinOf h) rows))))
                 (List.filter (fun row => negb (f row)) rows)).
  { rewrite (Array_sort_perm _ _).
    rewrite (map_filter_map (upcomingCheckinOf h) upcoming_row) by reflexivity.
    apply Permutation_refl'. apply filter_ext. intros row. apply str_gt_le. }
  pose proof (Nat2Z.is_nonneg (length rows)) as Hn.
  unfold id. rewrite Array_slice0_firstn by (clear -Hl Hn; lia).
  rewrite firstn_all2.
  - rewrite Hd, Hu. apply filter_split.
  - apply Permutation_length in Hu. rewrite length_map in Hu.
    pose proof (filter_length_le (fun row => negb (f row)) rows) as Hf.
    clear -Hl Hu Hf. lia.
Qed.

Lemma due_upcoming_partition_witness :
  Z.of_nat (length (listScheduledTeams threeTeams)) <= 3
  /\ Permutation
       (map due_row (listDueCheckins utcHost threeTeams)
        ++ map upcoming_row (listUpcomingCheckins utcHost threeTeams (Some 3)))
       (listScheduledTeams threeTeams).
Proof.
  assert (L : Z.of_nat (length (listScheduledTeams threeTeams)) <= 3)
    by (vm_compute; discriminate).
  split; [exact L|]. exact (due_upcoming_partition utcHost threeTeams 3 L).
Defined.

(** X18. On every host, for a scheduled team whose stored start date is
    not empty, the row in [listDueCheckins] shows the next due date and
    the missed count that [getSchedule] returns for the team, and the row
    in [listUpcomingCheckins] the same next due date. *)
Theorem lists_agree_with_getSchedule (h : Host) (db : DB) :
  (forall r, In r (listDueCheckins h db) -> row_start_date (due_row r) <> "" ->
     exists v,
       getSchedule h db (row_team_id (due_row r)) = Some v
       /\ view_next_due v = due_next_due r
       /\ view_missed_count v = due_missed_count r)
  /\ (forall limit r,
        In r (listUpcomingCheckins h db limit) ->
        row_start_date (upcoming_row r) <> "" ->
        exists v,
          getSchedule h db (row_team_id (upcoming_row r)) = Some v
          /\ view_next_due v = upcoming_next_due r).
Proof.
  split.
  - intros r Hr Hne. apply dueCheckins_elem in Hr as (row & Hin & -> & _).
    cbn [due_row dueCheckinOf] in Hne.
    exact (scheduledTeam_getSchedule h db row Hin Hne).
  - intros limit r Hr Hne.
    apply upcomingCheckins_elem in Hr as (row & Hin & -> & _).
    cbn [upcoming_row upcomingCheckinOf] in Hne.
    destruct (scheduledTeam_getSchedule h db row Hin Hne) as (v & Hv & Hn & _).
    exists v. split; [exact Hv | exact Hn].
Qed.

Lemma lists_agree_with_getSchedule_witness :
  map (fun r => view_next_due <$> getSchedule utcHost threeTeams (row_team_id (due_row r)))
      (listDueCheckins utcHost threeTeams)
  = map (fun r => Some (due_next_due r)) (listDueCheckins utcHost threeTeams)
  /\ forall r, In r (listDueCheckins utcHost threeTeams) ->
       row_start_date (due_row r) <> "" ->
       exists v,
         getSchedule utcHost threeTeams (row_team_id (due_row r)) = Some v
         /\ view_next_due v = due_next_due r
         /\ view_missed_count v = due_missed_count r.
Proof.
  split; [reflexivity|].
  exact (proj1 (lists_agree_with_getSchedule utcHost threeTeams)).
Defined.

(** ** After a check-in *)





(** ** The request handler *)

(** X21. On every host, the two check-in routes of the server keep the
    stored check-ins well formed: a rating between 1 and 5 (the form
    value is clamped) and a person of the store whose team is the team of
    the check-in. The team route records nothing for a person of another
    team, and a rating that is not a number (an absent or non-numeric
    field) records nothing. *)
Theorem checkin_routes_keep_checkins_well_formed (h : Host) (db : DB)
    (teamId personId : Z) (person_id rating_ : number) (notes_ : option string) :
  checkinsWellFormed db ->
  checkinsWellFormed (postPersonCheckin h db personId rating_ notes_)
  /\ checkinsWellFormed (postTeamCheckin h db teamId person_id rating_ notes_)
  /\ (forall c, In c (checkins (postTeamCheckin h db teamId person_id rating_ notes_)) ->
        In c (checkins db) \/ checkin_team_id c = teamId)
  /\ (rating_ = NaN ->
        postPersonCheckin h db personId rating_ notes_ = db
        /\ postTeamCheckin h db teamId person_id rating_ notes_ = db).
Proof.
  intros W.
  assert (Step : forall team pid r n p,
            people db !! pid = Some p -> person_team_id p = team ->
            number_leb (Num 1) r = true /\ number_leb r (Num 5) = true ->
            checkinsWellFormed (createCheckin h db team pid r n).1).
  { intros team pid r n p Hp Ht [Hr1 Hr5] c Hc.
    destruct (createCheckin_checkins h db team pid r n) as [E Ep].
    rewrite E in Hc. rewrite Ep. apply in_app_or in Hc as [Hc | [<- | []]].
    - now apply W.
    - cbn. split; [exact Hr1|]. split; [exact Hr5|]. now exists p. }
  split; [|split; [|split]].
  - unfold postPersonCheckin.
    destruct (Number_isFinite (Math_min (Num 5) (Math_max (Num 1) rating_))) eqn:C;
      [|exact W].
    apply clamp_rating in C.
    unfold getPerson. destruct (people db !! personId) as [p|] eqn:Hp; [|exact W].
    cbn [mbind option_bind].
    destruct (teams db !! person_team_id p); cbn [mbind option_bind]; [|exact W].
    now apply (Step _ _ _ _ p).
  - unfold postTeamCheckin.
    destruct (Number_isFinite person_id); cbn [andb]; [|exact W].
    destruct (Number_isFinite (Math_min (Num 5) (Math_max (Num 1) rating_))) eqn:C;
      [|exact W].
    apply clamp_rating in C.
    destruct (number_toZ person_id) as [pid|]; [|exact W].
    unfold getPerson. destruct (people db !! pid) as [p|] eqn:Hp; [|exact W].
    cbn [mbind option_bind].
    destruct (teams db !! person_team_id p); cbn [mbind option_bind]; [|exact W].
    destruct (person_team_id p =? teamId) eqn:Et; [|exact W].
    apply Z.eqb_eq in Et. now apply (Step _ _ _ _ p).
  - intros c. unfold postTeamCheckin.
    destruct (Number_isFinite person_id); cbn [andb]; [|tauto].
    destruct (Number_isFinite (Math_min (Num 5) (Math_max (Num 1) rating_)));
      [|tauto].
    destruct (number_toZ person_id) as [pid|]; [|tauto].
    destruct (getPerson db pid) as [[p name]|]; [|tauto].
    destruct (person_team_id p =? teamId); [|tauto].
    destruct (createCheckin_checkins h db teamId pid
                (Math_min (Num 5) (Math_max (Num 1) rating_)) (notesOf notes_)) as [E _].
    rewrite E. intros Hc. apply in_app_or in Hc as [Hc | [<- | []]]; [now left | now right].
  - intros ->. split; [reflexivity|].
    unfold postTeamCheckin. cbn [Math_max Math_min Number_isFinite].
    now rewrite andb_false_r.
Qed.

Lemma checkin_routes_keep_checkins_well_formed_witness :
  checkinsWellFormed emptyStore
  /\ map rating (checkins (postPersonCheckin utcHost emptyStore 10 (Num 9) None))
     = [Num 5]
  /\ checkinsWellFormed (postPersonCheckin utcHost emptyStore 10 (Num 9) None)
  /\ postTeamCheckin utcHost emptyStore 2 (Num 10) (Num 4) None = emptyStore.
Proof.
  assert (W : checkinsWellFormed emptyStore) by (intros c []).
  split; [exact W|]. split; [reflexivity|].
  split; [|reflexivity].
  exact (proj1 (checkin_routes_keep_checkins_well_formed utcHost emptyStore 2 10
                  (Num 10) (Num 9) None W)).
Defined.

(** X22. On a host where [today()] has the form YYYY-MM-DD, the
    schedule route and the two check-in routes of the server keep the
    schedule rows well formed: every row has a start date of the form
    YYYY-MM-DD and a cadence that is finite and positive. The schedule
    route writes nothing when the cadence of the form is not finite or
    not positive. *)
Theorem routes_keep_schedules_well_formed (h : Host) (db : DB)
    (teamId personId : Z) (person_id rating_ cadenceDays : number)
    (notes_ startDate : option string) :
  canonicalForm (today h) -> schedulesWellFormed db ->
  schedulesWellFormed (postTeamSchedule h db teamId cadenceDays startDate)
  /\ schedulesWellFormed (postPersonCheckin h db personId rating_ notes_)
  /\ schedulesWellFormed (postTeamCheckin h db teamId person_id rating_ notes_)
  /\ (Number_isFinite cadenceDays && number_gt0 cadenceDays = false ->
      postTeamSchedule h db teamId cadenceDays startDate = db).
Proof.
  intros T W.
  assert (Step : forall team pid r n,
            schedulesWellFormed (createCheckin h db team pid r n).1).
  { intros team pid r n k s' Hs'.
    apply createCheckin_rows in Hs' as (s & Hs & -> & ->). exact (W k s Hs). }
  split; [|split; [|split]]; cycle 3.
  { intros G. unfold postTeamSchedule. now rewrite G. }
  - unfold postTeamSchedule.
    destruct (Number_isFinite cadenceDays) eqn:Ef; cbn [andb]; [|exact W].
    destruct (number_gt0 cadenceDays) eqn:Ez; [|exact W].
    destruct (upsertScheduleRaises db teamId cadenceDays); [exact W|].
    intros k s' Hs'. apply upsertSchedule_rows in Hs' as [(-> & -> & ->) | (Hk & Hs)].
    + split; [now apply normalizeDate_form | now split].
    + exact (W k s' Hs).
  - unfold postPersonCheckin.
    destruct (Number_isFinite (Math_min (Num 5) (Math_max (Num 1) rating_)));
      [|exact W].
    destruct (getPerson db personId) as [[p name]|]; [apply Step | exact W].
  - unfold postTeamCheckin.
    destruct (Number_isFinite person_id && Number_isFinite
                (Math_min (Num 5) (Math_max (Num 1) rating_))); [|exact W].
    destruct (number_toZ person_id) as [pid|]; [|exact W].
    destruct (getPerson db pid) as [[p name]|]; [|exact W].
    destruct (person_team_id p =? teamId); [apply Step | exact W].
Qed.

Lemma routes_keep_schedules_well_formed_witness :
  canonicalForm (today utcHost) /\ schedulesWellFormed emptyStore
  /\ schedulesWellFormed (postTeamSchedule utcHost emptyStore 1 (Num 7) (Some "soon"))
  /\ start_date <$> checkin_schedules
                      (postTeamSchedule utcHost emptyStore 1 (Num 7) (Some "soon")) !! 1
     = Some "2024-06-01"
  /\ postTeamSchedule utcHost emptyStore 1 (Num 0) (Some "2024-01-01") = emptyStore.
Proof.
  assert (T : canonicalForm (today utcHost)) by reflexivity.
  assert (W : schedulesWellFormed emptyStore).
  { intros k s Hs. cbn in Hs. rewrite lookup_empty in Hs. discriminate Hs. }
  split; [exact T|]. split; [exact W|]. split; [|split; reflexivity].
  exact (proj1 (routes_keep_schedules_well_formed utcHost emptyStore 1 10
                  (Num 10) (Num 4) (Num 7) None (Some "soon") T W)).
Defined.

(** ** Ties in the two lists *)

(** X23. On every host, both lists are in ascending order of next due
    date, and teams with the same next due date are in the order of their
    names: the sort is stable and the rows come ordered by team name.
    This holds for every limit of [listUpcomingCheckins] that is not
    negative. *)
Theorem lists_ties_by_team_name (h : Host) (db : DB) (limit : Z) :
  0 <= limit ->
  StronglySorted
    (byKeyThen due_next_due
       (fun a b => str_le (row_team_name (due_row a)) (row_team_name (due_row b)) = true))
    (listDueCheckins h db)
  /\ StronglySorted
       (byKeyThen upcoming_next_due
          (fun a b => str_le (row_team_name (upcoming_row a))
                             (row_team_name (upcoming_row b)) = true))
       (listUpcomingCheckins h db (Some limit)).
Proof.
  intros Hl.
  pose proof (sort_by_key_strongly_sorted row_team_name
                (omap (scheduledTeamRow db) (map_to_list (checkin_schedules db)))) as Hrows.
  fold (listScheduledTeams db) in Hrows. split.
  - unfold listDueCheckins. apply Array_sort_stable.
    apply StronglySorted_filter.
    apply (StronglySorted_map
             (fun a b => str_le (row_team_name (due_row a)) (row_team_name (due_row b)) = true)
             (dueCheckinOf h (today h))).
    exact Hrows.
  - unfold listUpcomingCheckins. cbn [default]. unfold id.
    rewrite Array_slice0_firstn by exact Hl.
    apply StronglySorted_firstn. apply Array_sort_stable.
    apply StronglySorted_filter.
    apply (StronglySorted_map
             (fun a b => str_le (row_team_name (upcoming_row a))
                                (row_team_name (upcoming_row b)) = true)
             (upcomingCheckinOf h)).
    exact Hrows.
Qed.

Lemma lists_ties_by_team_name_witness :
  0 <= 3
  /\ StronglySorted
       (byKeyThen due_next_due
          (fun a b => str_le (row_team_name (due_row a)) (row_team_name (due_row b)) = true))
       (listDueCheckins utcHost threeTeams).
Proof.
  assert (L : 0 <= 3) by discriminate.
  split; [exact L|]. exact (proj1 (lists_ties_by_team_name utcHost threeTeams 3 L)).
Defined.

(** ** The next due date of a stored schedule *)

(** X24. On a host at a constant offset from UTC, for a team whose row
    has a canonical start date and a positive integer cadence and whose
    check-ins carry time stamps written by [toISOString]: when the local
    date of the latest check-in is in year 1000 or later and, if it is
    not before the start date, that date plus one cadence is not after
    9999-12-31, the next due date that [getSchedule] reports is a
    canonical date after the date of the latest check-in, on the grid of
    the start date, and the earliest such date. *)
Theorem getSchedule_next_due_after_checkin (h : Host) (db : DB) (teamId : Z)
    (s : schedule) (p a t : Z) (ts : list Z) :
  fixedOffset h ->
  checkin_schedules db !! teamId = Some s ->
  dayOf (start_date s) = Some a -> cadence_days s = Num p -> 0 < p ->
  Forall plainYear (t :: ts) ->
  map checkin_created_at
    (List.filter (fun c => checkin_team_id c =? teamId) (checkins db))
  = map toISOString (t :: ts) ->
  let l := localDay h (fold_left Z.max ts t) in
  firstFourDigitDay <= l -> (a <= l -> l + p <= lastCanonicalDay) ->
  exists v n,
    getSchedule h db teamId = Some v
    /\ dayOf (view_next_due v) = Some (a + n * p)
    /\ 0 <= n /\ l < a + n * p
    /\ forall m, 0 <= m -> l < a + m * p -> n <= m.
Proof.
  intros F Hs Ha Hc Hp P E l Hfirst Hlast.
  assert (Hne : start_date s <> "").
  { intros E0. rewrite E0 in Ha. discriminate Ha. }
  destruct (getSchedule_lookup h db teamId s Hs Hne) as (v & Hv & _ & _ & Hn & _).
  rewrite (getLastTeamCheckinDate_latest h db teamId t ts P E), Hc in Hn.
  rewrite formatLocalDate_day in Hn. fold l in Hn.
  pose proof (dayOf_range _ _ Ha) as Ra.
  assert (Rl : l <= lastCanonicalDay).
  { destruct (Z_lt_le_dec l a) as [B | B]; [lia|]. specialize (Hlast B). lia. }
  assert (Hl : dayOf (dateOfDay l) = Some l) by (apply dayOf_dateOfDay; lia).
  destruct (nextDue_fixed h F (start_date s) (dateOfDay l) p a l Ha Hl Hp
              ltac:(lia) Hlast) as (n & Hn0 & Hgt & Hle & Hz & _ & Hday).
  rewrite <- Hn in Hday.
  exists v, n. split; [exact Hv|]. split; [exact Hday|]. split; [exact Hn0|].
  split; [exact Hgt|].
  intros m Hm Hlm. destruct (Z_lt_le_dec l a) as [B | B].
  - rewrite (Hz B). exact Hm.
  - specialize (Hle B).
    assert (N : n < m + 1) by (apply (Z.mul_lt_mono_pos_r p); lia). lia.
Qed.

Lemma getSchedule_next_due_after_checkin_witness :
  fixedOffset utcHost
  /\ Forall plainYear [1704877200000]
  /\ localDay utcHost 1704877200000 = 19732
  /\ exists v n,
       getSchedule utcHost (withCheckin weeklyStore 1 10 "2024-01-10T09:00:00.000Z") 1
       = Some v
       /\ dayOf (view_next_due v) = Some (19723 + n * 7)
       /\ 0 <= n /\ 19732 < 19723 + n * 7
       /\ forall m, 0 <= m -> 19732 < 19723 + m * 7 -> n <= m.
Proof.
  assert (F : fixedOffset utcHost).
  { exists 0. split; [split; reflexivity | intros; reflexivity]. }
  assert (P : Forall plainYear [1704877200000]).
  { repeat constructor; vm_compute; discriminate. }
  split; [exact F|]. split; [exact P|]. split; [reflexivity|].
  apply (getSchedule_next_due_after_checkin utcHost
           (withCheckin weeklyStore 1 10 "2024-01-10T09:00:00.000Z") 1
           (scheduleRow 7 "2024-01-01" "2024-01-01") 7 19723 1704877200000 []
           F eq_refl eq_refl eq_refl eq_refl P eq_refl).
  - vm_compute. discriminate.
  - intros _. vm_compute. discriminate.
Defined.

(** ** Recent check-ins *)

(** X25. [listCheckins] returns the most recent check-ins of the
    person, at most 8 and all of them when there are fewer, newest first;
    no check-in of the person that is left out has a later time stamp
    than one that is returned. [listTeamCheckins] does the same for the
    check-ins of the team whose person exists, with a limit of 10, and
    gives each row the name of its person. *)
Theorem recent_checkins (db : DB) (personId teamId : Z) :
  (let all := List.filter (fun c => checkin_person_id c =? personId) (checkins db) in
   let rows := listCheckins db personId in
   length rows = Nat.min 8 (length all)
   /\ StronglySorted
        (fun a b => str_le (checkin_created_at b) (checkin_created_at a) = true) rows
   /\ exists rest,
        Permutation (rows ++ rest) all
        /\ forall x y, In x rows -> In y rest ->
             str_le (checkin_created_at y) (checkin_created_at x) = true)
  /\ (let rows := listTeamCheckins db teamId in
      (length rows <= 10)%nat
      /\ StronglySorted
           (fun a b => str_le (checkin_created_at b.1) (checkin_created_at a.1) = true)
           rows
      /\ (forall c name, In (c, name) rows ->
            In c (checkins db) /\ checkin_team_id c = teamId
            /\ person_name <$> people db !! checkin_person_id c = Some name)
      /\ forall x c p,
           In x rows -> In c (checkins db) -> checkin_team_id c = teamId ->
           people db !! checkin_person_id c = Some p ->
           In (c, person_name p) rows
           \/ str_le (checkin_created_at c) (checkin_created_at x.1) = true).
Proof.
  split.
  - cbv zeta. unfold listCheckins.
    destruct (newest_rows checkin_created_at 8
                (List.filter (fun c => checkin_person_id c =? personId) (checkins db)))
      as (P & L & S & N).
    split; [exact L|]. split; [exact S|]. eexists. split; [exact P | exact N].
  - cbv zeta. unfold listTeamCheckins.
    set (joined := omap _ _).
    destruct (newest_rows (fun r : checkin * string => checkin_created_at r.1) 10 joined)
      as (P & L & S & N).
    assert (J : forall c name, In (c, name) joined <->
                  In c (checkins db) /\ checkin_team_id c = teamId
                  /\ person_name <$> people db !! checkin_person_id c = Some name).
    { intros c name. unfold joined. rewrite <- list_elem_of_In, list_elem_of_omap. split.
      - intros (c' & Hc' & E). apply list_elem_of_In, filter_In in Hc' as [Hin Ht].
        apply Z.eqb_eq in Ht.
        destruct (people db !! checkin_person_id c') as [p|] eqn:Hp; [|discriminate E].
        cbn in E. injection E as <- <-. rewrite Hp. now repeat split.
      - intros (Hin & Ht & Hn). exists c. split.
        + apply list_elem_of_In, filter_In. split; [exact Hin | now apply Z.eqb_eq].
        + destruct (people db !! checkin_person_id c) as [p|]; [|discriminate Hn].
          cbn in Hn. injection Hn as <-. reflexivity. }
    split; [rewrite L; apply Nat.le_min_l|]. split; [exact S|]. split.
    + intros c name Hr. apply J.
      apply (Permutation_in _ P). apply in_or_app. now left.
    + intros x c p Hx Hc Ht Hp.
      assert (Hj : In (c, person_name p) joined).
      { apply J. rewrite Hp. now repeat split. }
      apply (Permutation_in _ (Permutation_sym P)) in Hj.
      apply in_app_or in Hj as [Hj | Hj]; [now left | right].
      exact (N x (c, person_name p) Hx Hj).
Qed.

Lemma recent_checkins_witness :
  map checkin_created_at
      (listCheckins (withCheckin checkedInStore 1 10 "2024-01-12T09:00:00.000Z") 10)
  = ["2024-01-12T09:00:00.000Z"; "2024-01-10T09:00:00.000Z"]
  /\ length (listCheckins (withCheckin checkedInStore 1 10 "2024-01-12T09:00:00.000Z") 10)
     = Nat.min 8 2.
Proof.
  split; [reflexivity|].
  exact (proj1 (proj1 (recent_checkins
                         (withCheckin checkedInStore 1 10 "2024-01-12T09:00:00.000Z")
                         10 1))).
Defined.

(** ** Rows without a start date *)



(** ** Writing a schedule twice *)



(** ** The lists after a check-in *)



(** ** The soonest upcoming check-ins *)

(** X29. On every host, for a limit that is not negative,
    [listUpcomingCheckins] returns the soonest of the upcoming teams: as
    many as the limit allows (3 when none is given), or all when there
    are fewer, and no upcoming team that is left out is due before one
    that is returned. *)
Theorem upcoming_soonest (h : Host) (db : DB) (limit : Z) :
  0 <= limit ->
  let all :=
    List.filter (fun r => str_gt (upcoming_next_due r) (today h))
      (map (upcomingCheckinOf h) (listScheduledTeams db)) in
  let rows := listUpcomingCheckins h db (Some limit) in
  length rows = Nat.min (Z.to_nat limit) (length all)
  /\ (exists rest,
        Permutation (rows ++ rest) all
        /\ forall x y, In x rows -> In y rest ->
             str_le (upcoming_next_due x) (upcoming_next_due y) = true)
  /\ listUpcomingCheckins h db None = listUpcomingCheckins h db (Some 3).
Proof.
  intros Hl. cbv zeta. unfold listUpcomingCheckins. cbn [default]. unfold id.
  rewrite Array_slice0_firstn by exact Hl.
  set (all := List.filter _ _).
  set (sorted := Array_sort _ all).
  pose proof (sort_by_key_strongly_sorted upcoming_next_due all) as S. fold sorted in S.
  split; [|split].
  - rewrite length_firstn. f_equal. apply Permutation_length. apply Array_sort_perm.
  - exists (skipn (Z.to_nat limit) sorted). split.
    + rewrite firstn_skipn. apply Array_sort_perm.
    + rewrite <- (firstn_skipn (Z.to_nat limit) sorted) in S.
      intros x y Hx Hy.
      exact (StronglySorted_app_inv
               (fun a b => str_le (upcoming_next_due a) (upcoming_next_due b) = true)
               _ _ S x y Hx Hy).
  - reflexivity.
Qed.

Lemma upcoming_soonest_witness :
  0 <= 1
  /\ map upcoming_next_due (listUpcomingCheckins utcHost threeTeams (Some 1))
     = ["2024-06-03"]
  /\ length (listUpcomingCheckins utcHost threeTeams (Some 1))
     = Nat.min (Z.to_nat 1)
         (length (List.filter (fun r => str_gt (upcoming_next_due r) (today utcHost))
                    (map (upcomingCheckinOf utcHost) (listScheduledTeams threeTeams)))).
Proof.
  assert (L : 0 <= 1) by discriminate.
  split; [exact L|]. split; [vm_compute; reflexivity|].
  exact (proj1 (upcoming_soonest utcHost threeTeams 1 L)).
Defined.

(** ** Malformed dates *)

(** X30. On every host and for every cadence, [calculateNextDueDate]
    treats an anchor that has not the form YYYY-MM-DD as [today()], and
    a last check-in date that is not empty and has not that form as
    [today()] too; an empty last check-in date counts as none: the
    result is the normalized anchor. *)
Theorem nextDue_malformed_dates (h : Host) (anchor : string) (cadence : number)
    (last : option string) (bad : string) :
  matchesDatePattern bad = false ->
  calculateNextDueDate h bad cadence last
  = calculateNextDueDate h (today h) cadence last
  /\ (bad <> "" ->
      calculateNextDueDate h anchor cadence (Some bad)
      = calculateNextDueDate h anchor cadence (Some (today h)))
  /\ calculateNextDueDate h anchor cadence (Some "")
     = normalizeDate h (Some anchor).
Proof.
  intros B.
  assert (Nb : normalizeDate h (Some bad) = today h).
  { unfold normalizeDate. rewrite B. now destruct (String.eqb bad ""). }
  assert (Nt : normalizeDate h (Some (today h)) = today h).
  { pose proof (normalizeDate_idem h None) as I. exact I. }
  split; [|split].
  - unfold calculateNextDueDate. now rewrite Nb, Nt.
  - intros Hne. unfold calculateNextDueDate.
    assert (Tb : truthy (Some bad) = true).
    { unfold truthy. apply String.eqb_neq in Hne. now rewrite Hne. }
    assert (Tt : truthy (Some (today h)) = true).
    { unfold truthy. pose proof (today_nonempty h) as T.
      apply String.eqb_neq in T. now rewrite T. }
    now rewrite Tb, Tt, Nb, Nt.
  - unfold calculateNextDueDate.
    destruct (negb (Number_isFinite cadence) || number_le0 cadence); [reflexivity|].
    now destruct cadence.
Qed.

Lemma nextDue_malformed_dates_witness :
  matchesDatePattern "next week" = false
  /\ calculateNextDueDate utcHost "next week" (Num 7) None = "2024-06-01"
  /\ calculateNextDueDate utcHost "next week" (Num 7) None
     = calculateNextDueDate utcHost (today utcHost) (Num 7) None.
Proof.
  assert (B : matchesDatePattern "next week" = false) by reflexivity.
  split; [exact B|]. split; [vm_compute; reflexivity|].
  exact (proj1 (nextDue_malformed_dates utcHost "2024-01-01" (Num 7) None "next week" B)).
Defined.
